(** * PersonalEmailClient: the Electron front end and the mail store it talks to

    A shallow embedding of [frontend/preload.js] and [frontend/renderer.js],
    together with a model of the backend contracts (message store, sync
    orchestrator, sanitizer, query service) that the specification
    describes.

    Conventions.
    - A JavaScript string is a sequence of UTF-16 code units: [jsstring] is
      [list N], and [lit "..."] turns an ASCII literal of the source into one.
    - Property names of JavaScript objects (header names, environment
      variable names, query keys) are the ASCII literals of the source and
      are kept as [string]; objects used as maps are [gmap string _].
    - JavaScript numbers are modelled on the integers ([Z]); page numbers and
      counts never leave the range in which a double is exact.
    - Every [await] is collapsed: a handler receives the response of the
      request it issues as an argument. *)

From Stdlib Require Import NArith ZArith String Ascii List Lia Bool.
From Stdlib Require Import Numbers.DecimalString.
From stdpp Require Import base option list gmap strings.
Import ListNotations.

Local Open Scope N_scope.

(* ===================================================================== *)
(** * JavaScript values                                                    *)
(* ===================================================================== *)

Module JS.

(** A UTF-16 code unit, and a string of them. *)
Abbreviation char := N.
Abbreviation jsstring := (list N).

(** An ASCII literal of the source text. *)
Definition lit (s : string) : jsstring :=
  List.map N_of_ascii (list_ascii_of_string s).

(** The values that cross the bridge: [undefined], [null], booleans,
    integral numbers and strings. *)
Inductive jsval : Type :=
| VUndef
| VNull
| VBool (b : bool)
| VNum (n : Z)
| VStr (s : jsstring).

(** [ToBoolean]. *)
Definition truthy (v : jsval) : bool :=
  match v with
  | VUndef | VNull => false
  | VBool b => b
  | VNum n => negb (Z.eqb n 0)
  | VStr [] => false
  | VStr (_ :: _) => true
  end.

(** [a || b]. *)
Definition or_else (a b : jsval) : jsval := if truthy a then a else b.

(** [ToString], as a template literal [`${v}`] applies it. [VNum n]
    stands for an integral number of magnitude below 10^21, which prints
    as its decimal digits; larger numbers, which print with an exponent,
    fractions, [NaN] and the infinities are outside the model. *)
Definition ToString (v : jsval) : jsstring :=
  match v with
  | VUndef => lit "undefined"
  | VNull => lit "null"
  | VBool true => lit "true"
  | VBool false => lit "false"
  | VNum n => lit (NilZero.string_of_int (Z.to_int n))
  | VStr s => s
  end.

(** A property read [o.k] on an object used as a string map. *)
Definition prop (o : gmap string jsstring) (k : string) : jsval :=
  match o !! k with
  | Some s => VStr s
  | None => VUndef
  end.

(** [s.startsWith(p)]. *)
Fixpoint startsWith (p s : jsstring) : bool :=
  match p, s with
  | [], _ => true
  | _ :: _, [] => false
  | a :: p', b :: s' => (a =? b) && startsWith p' s'
  end.

(** [s.split(sep)] for a one-character separator: the list of the pieces
    between the separators, never empty. *)
Fixpoint split (sep : char) (s : jsstring) : list jsstring :=
  match s with
  | [] => [[]]
  | c :: s' =>
      if c =? sep then [] :: split sep s'
      else match split sep s' with
           | [] => [[c]]
           | piece :: rest => (c :: piece) :: rest
           end
  end.

(** [xs[i]]: [undefined] out of range. *)
Definition index (xs : list jsstring) (i : nat) : jsval :=
  match nth_error xs i with
  | Some s => VStr s
  | None => VUndef
  end.

(** [xs.find(p)]. *)
Fixpoint find (p : jsstring -> bool) (xs : list jsstring) : jsval :=
  match xs with
  | [] => VUndef
  | x :: xs' => if p x then VStr x else find p xs'
  end.

End JS.

(* ===================================================================== *)
(** * frontend/preload.js                                                  *)
(* ===================================================================== *)

Module Preload.
Import JS.

Inductive method : Type := GET | POST | PUT | DELETE.

(** What [fetch] is called with. [req_url] is the string handed to
    [new URL(..)] or to [fetch], as the script builds it; the path that
    the request goes to is what the URL parser makes of it, which
    [Url.pathname] below gives. [req_query] lists the
    [url.searchParams.append(k, v)] calls in order; [req_body] is the
    object given to [JSON.stringify], when there is one. *)
Record request : Type := {
  req_method : method;
  req_url : jsstring;
  req_query : list (string * jsval);
  req_headers : gmap string jsval;
  req_body : option (list (string * jsval))
}.

(** What a call on the bridge does: an HTTP request, or a message to the
    main process. *)
Inductive effect : Type :=
| Fetch (r : request)
| IpcInvoke (channel : jsstring) (arg : jsval).

(** The functions exposed as [window.emailApi], with their arguments. *)
Inductive op : Type :=
| health
| sync (host username password port : jsval)
| listMessages (page page_size search : jsval)
| getMessage (id : jsval)
| deleteMessage (id : jsval)
| restoreMessage (id : jsval)
| listTrash (page page_size : jsval)
| listAccounts
| createAccount (email_address imap_host imap_port username password : jsval)
| syncAccount (account_id : jsval)
| rotatePassword (account_id password : jsval)
| gmailAuthUrl
| gmailSync (account_id : jsval)
| deleteAccount (account_id : jsval)
| openExternal (url : jsval).

(** A default parameter [x = d]: used when the argument is [undefined]. *)
Definition default (x d : jsval) : jsval :=
  match x with VUndef => d | _ => x end.

Section Process.
Variable env : gmap string jsstring.   (* process.env *)
Variable argv : list jsstring.          (* process.argv *)

Definition BACKEND_TOKEN : jsval :=
  or_else (prop env "BACKEND_TOKEN") (VStr (lit "dev-token")).

Definition resolvePort : jsval :=
  let arg := find (startsWith (lit "--backend-port=")) argv in
  if truthy (prop env "ACTUAL_BACKEND_PORT") then prop env "ACTUAL_BACKEND_PORT"
  else if truthy arg then
    match arg with
    | VStr a => index (split 61 a) 1
    | _ => VUndef
    end
  else VStr (lit "8137").

Definition BASE : jsstring := lit "http://127.0.0.1:" ++ ToString resolvePort.

(** [process.env.ACTUAL_BACKEND_PORT] is falsy: the variable is not set,
    or it is set to the empty string. *)
Definition port_unset : Prop :=
  env !! "ACTUAL_BACKEND_PORT" = None \/ env !! "ACTUAL_BACKEND_PORT" = Some [].

Definition apiGet (path : jsstring) (params : list (string * jsval)) : request :=
  {| req_method := GET;
     req_url := BASE ++ path;
     req_query := params;
     req_headers := {[ "X-Auth-Token" := BACKEND_TOKEN ]};
     req_body := None |}.

Definition apiPost (path : jsstring) (params : list (string * jsval)) : request :=
  {| req_method := POST;
     req_url := BASE ++ path;
     req_query := params;
     req_headers := {[ "X-Auth-Token" := BACKEND_TOKEN ]};
     req_body := None |}.

Definition json_headers : gmap string jsval :=
  <[ "Content-Type" := VStr (lit "application/json") ]>
    {[ "X-Auth-Token" := BACKEND_TOKEN ]}.

Definition emailApi (o : op) : effect :=
  match o with
  | health => Fetch (apiGet (lit "/health") [])
  | sync host username password port =>
      Fetch (apiPost (lit "/sync")
               [("host", host); ("port", default port (VNum 993));
                ("username", username); ("password", password)])
  | listMessages page page_size search =>
      let page := default page (VNum 1) in
      let page_size := default page_size (VNum 50) in
      let search := default search (VStr []) in
      Fetch (apiGet (lit "/messages")
               ([("page", page); ("page_size", page_size)]
                  ++ (if truthy search then [("search", search)] else [])))
  | getMessage id => Fetch (apiGet (lit "/messages/" ++ ToString id) [])
  | deleteMessage id =>
      Fetch (apiPost (lit "/messages/" ++ ToString id ++ lit "/delete") [])
  | restoreMessage id =>
      Fetch (apiPost (lit "/messages/" ++ ToString id ++ lit "/restore") [])
  | listTrash page page_size =>
      Fetch (apiGet (lit "/trash")
               [("page", default page (VNum 1));
                ("page_size", default page_size (VNum 50))])
  | listAccounts => Fetch (apiGet (lit "/accounts") [])
  | createAccount email_address imap_host imap_port username password =>
      Fetch {| req_method := POST;
               req_url := BASE ++ lit "/accounts";
               req_query := [];
               req_headers := json_headers;
               req_body := Some [("email_address", email_address);
                                 ("imap_host", imap_host);
                                 ("imap_port", imap_port);
                                 ("username", username);
                                 ("password", password)] |}
  | syncAccount account_id =>
      Fetch (apiPost (lit "/accounts/" ++ ToString account_id ++ lit "/sync") [])
  | rotatePassword account_id password =>
      Fetch {| req_method := PUT;
               req_url := BASE ++ lit "/accounts/" ++ ToString account_id
                               ++ lit "/password";
               req_query := [];
               req_headers := json_headers;
               req_body := Some [("password", password)] |}
  | gmailAuthUrl => Fetch (apiGet (lit "/gmail/auth_url") [])
  | gmailSync account_id =>
      Fetch (apiPost (lit "/gmail/sync") [("account_id", account_id)])
  | deleteAccount account_id =>
      Fetch {| req_method := DELETE;
               req_url := BASE ++ lit "/accounts/" ++ ToString account_id;
               req_query := [];
               req_headers := {[ "X-Auth-Token" := BACKEND_TOKEN ]};
               req_body := None |}
  | openExternal url => IpcInvoke (lit "open-external") url
  end.

End Process.

(** A text that fills one [{id}] of a path of the table: it is not empty
    and stays within one segment of the path. *)
Definition segment (id : jsstring) : Prop := id <> [] /\ ~ In 47 id.

(** The HTTP surface of section 6 of the specification: the method, the
    path, and the text that stands for [{id}] in the rows that have one. *)
Inductive InterfaceTable : method -> jsstring -> option jsstring -> Prop :=
| it_health : InterfaceTable GET (lit "/health") None
| it_sync : InterfaceTable POST (lit "/sync") None
| it_messages : InterfaceTable GET (lit "/messages") None
| it_message id :
    segment id -> InterfaceTable GET (lit "/messages/" ++ id) (Some id)
| it_message_delete id :
    segment id ->
    InterfaceTable POST (lit "/messages/" ++ id ++ lit "/delete") (Some id)
| it_message_restore id :
    segment id ->
    InterfaceTable POST (lit "/messages/" ++ id ++ lit "/restore") (Some id)
| it_trash : InterfaceTable GET (lit "/trash") None
| it_accounts_list : InterfaceTable GET (lit "/accounts") None
| it_accounts_create : InterfaceTable POST (lit "/accounts") None
| it_account_delete id :
    segment id -> InterfaceTable DELETE (lit "/accounts/" ++ id) (Some id)
| it_account_password id :
    segment id ->
    InterfaceTable PUT (lit "/accounts/" ++ id ++ lit "/password") (Some id)
| it_account_sync id :
    segment id ->
    InterfaceTable POST (lit "/accounts/" ++ id ++ lit "/sync") (Some id)
| it_gmail_auth_url : InterfaceTable GET (lit "/gmail/auth_url") None
| it_gmail_callback : InterfaceTable GET (lit "/gmail/callback") None
| it_gmail_sync : InterfaceTable POST (lit "/gmail/sync") None.

(** The thirteen paths of that table that the front end may use. *)
Inductive UiPath : jsstring -> Prop :=
| ui_health : UiPath (lit "/health")
| ui_sync : UiPath (lit "/sync")
| ui_messages : UiPath (lit "/messages")
| ui_message id : segment id -> UiPath (lit "/messages/" ++ id)
| ui_message_delete id :
    segment id -> UiPath (lit "/messages/" ++ id ++ lit "/delete")
| ui_message_restore id :
    segment id -> UiPath (lit "/messages/" ++ id ++ lit "/restore")
| ui_trash : UiPath (lit "/trash")
| ui_accounts : UiPath (lit "/accounts")
| ui_account id : segment id -> UiPath (lit "/accounts/" ++ id)
| ui_account_password id :
    segment id -> UiPath (lit "/accounts/" ++ id ++ lit "/password")
| ui_account_sync id :
    segment id -> UiPath (lit "/accounts/" ++ id ++ lit "/sync")
| ui_gmail_auth_url : UiPath (lit "/gmail/auth_url")
| ui_gmail_sync : UiPath (lit "/gmail/sync").

(** The argument of an operation that goes into the path of its request. *)
Definition op_id (o : op) : option jsval :=
  match o with
  | getMessage id | deleteMessage id | restoreMessage id => Some id
  | syncAccount account_id | rotatePassword account_id _
  | deleteAccount account_id => Some account_id
  | _ => None
  end.

End Preload.

(* ===================================================================== *)
(** * frontend/renderer.js: strings and markup                             *)
(* ===================================================================== *)

Module Renderer.
Import JS.

Definition PAGE_SIZE : Z := 50.

Definition dquote : jsstring := [34].

(** The entity that the table of [escapeHtml] gives for each of the five
    characters of its character class: ampersand, less-than, greater-than,
    double quote and single quote. *)
Definition entity (c : char) : option jsstring :=
  if c =? 38 then Some (lit "&amp;")
  else if c =? 60 then Some (lit "&lt;")
  else if c =? 62 then Some (lit "&gt;")
  else if c =? 34 then Some (lit "&quot;")
  else if c =? 39 then Some (lit "&#39;")
  else None.

Definition escapeChar (c : char) : jsstring :=
  match entity c with
  | Some e => e
  | None => [c]
  end.

Definition escapeHtml (str : jsstring) : jsstring := flat_map escapeChar str.

Definition entities : list jsstring :=
  [lit "&amp;"; lit "&lt;"; lit "&gt;"; lit "&quot;"; lit "&#39;"].

(** What [escapeHtml] is specified to do, as a relation: the output is
    the input read left to right, an ordinary character copied and one of
    the five replaced by its entity. *)
Inductive EscapesTo : jsstring -> jsstring -> Prop :=
| escapes_nil : EscapesTo [] []
| escapes_keep c s o :
    c <> 38 -> c <> 60 -> c <> 62 -> c <> 34 -> c <> 39 ->
    EscapesTo s o -> EscapesTo (c :: s) (c :: o)
| escapes_amp s o : EscapesTo s o -> EscapesTo (38 :: s) (lit "&amp;" ++ o)
| escapes_lt s o : EscapesTo s o -> EscapesTo (60 :: s) (lit "&lt;" ++ o)
| escapes_gt s o : EscapesTo s o -> EscapesTo (62 :: s) (lit "&gt;" ++ o)
| escapes_quot s o : EscapesTo s o -> EscapesTo (34 :: s) (lit "&quot;" ++ o)
| escapes_apos s o : EscapesTo s o -> EscapesTo (39 :: s) (lit "&#39;" ++ o).

(** [\s] of a JavaScript regular expression, which is also what [trim]
    strips: white space and line terminators. *)
Definition isSpace (c : char) : bool :=
  ((9 <=? c) && (c <=? 13)) || (c =? 32) || (c =? 160) || (c =? 5760)
  || ((8192 <=? c) && (c <=? 8202)) || (c =? 8232) || (c =? 8233)
  || (c =? 8239) || (c =? 8287) || (c =? 12288) || (c =? 65279).

Fixpoint dropWhile (p : char -> bool) (s : jsstring) : jsstring :=
  match s with
  | [] => []
  | c :: s' => if p c then dropWhile p s' else s
  end.

(** [s.trim()]. *)
Definition trim (s : jsstring) : jsstring :=
  rev (dropWhile isSpace (rev (dropWhile isSpace s))).

(** [s.split(/\s+/).filter(Boolean)]: the maximal runs of characters that
    are not white space. [word] is the run being read, reversed. *)
Fixpoint wordsFrom (word : jsstring) (s : jsstring) : list jsstring :=
  match s with
  | [] => match word with [] => [] | _ => [rev word] end
  | c :: s' =>
      if isSpace c
      then match word with
           | [] => wordsFrom [] s'
           | _ => rev word :: wordsFrom [] s'
           end
      else wordsFrom (c :: word) s'
  end.

Definition words (s : jsstring) : list jsstring := wordsFrom [] s.

(** [s.replace(/\s+/g, ' ')]; [inRun] says that the previous character
    was white space. *)
Fixpoint collapseFrom (inRun : bool) (s : jsstring) : jsstring :=
  match s with
  | [] => []
  | c :: s' =>
      if isSpace c
      then (if inRun then collapseFrom true s' else 32 :: collapseFrom true s')
      else c :: collapseFrom false s'
  end.

Definition collapseSpaces (s : jsstring) : jsstring := collapseFrom false s.

(** [s.indexOf(p)], counting from [i]. *)
Fixpoint indexOfFrom (p s : jsstring) (i : Z) : Z :=
  if startsWith p s then i
  else match s with
       | [] => (-1)%Z
       | _ :: s' => indexOfFrom p s' (i + 1)%Z
       end.

Definition indexOf (p s : jsstring) : Z := indexOfFrom p s 0%Z.

(** [s.slice(a, b)]: a negative index counts from the end, and both are
    clamped to the string. *)
Definition slice (a b : Z) (s : jsstring) : jsstring :=
  let len := Z.of_nat (length s) in
  let clamp i := if (i <? 0)%Z then Z.max (len + i) 0 else Z.min i len in
  let from := clamp a in
  let to := clamp b in
  firstn (Z.to_nat (to - from)) (skipn (Z.to_nat from) s).

Definition mark_open : jsstring := lit "<mark>".
Definition mark_close : jsstring := lit "</mark>".

(** The characters with which text can open or close a tag or leave an
    attribute value: less-than, greater-than and the two quotes. *)
Definition markup_char (c : char) : Prop := c = 60 \/ c = 62 \/ c = 34 \/ c = 39.

(** [Marked s o]: [o] is [s] with mark tags inserted, possibly in several
    rounds (a later round can insert inside the tags of an earlier one). *)
Inductive Marked : jsstring -> jsstring -> Prop :=
| marked_nil : Marked [] []
| marked_keep c s o : Marked s o -> Marked (c :: s) (c :: o)
| marked_open s o : Marked s o -> Marked s (mark_open ++ o)
| marked_close s o : Marked s o -> Marked s (mark_close ++ o)
| marked_again s1 s2 s3 : Marked s1 s2 -> Marked s2 s3 -> Marked s1 s3.

Section Locale.
(** [Canonicalize] of a case-insensitive regular expression without the
    [u] flag (one code unit to one code unit), [String.prototype.
    toLowerCase], and the two halves of [formatDate]: whether
    [new Date(s)] is a valid date, and [toLocaleString] with the options
    of the source. *)
Variable canonicalize : char -> char.
Variable toLowerCase : jsstring -> jsstring.
Context {Date : Type}.
Variable newDate : jsstring -> option Date.
Variable toLocaleString : Date -> jsstring.

(** The literal [t] matches at the head of [s], ignoring case. *)
Fixpoint matchesAt (t s : jsstring) : bool :=
  match t, s with
  | [], _ => true
  | _ :: _, [] => false
  | a :: t', b :: s' => (canonicalize a =? canonicalize b) && matchesAt t' s'
  end.

(** [out.replace(re, '<mark>$1</mark>')] for
    [re = new RegExp('(' + safe + ')', 'ig')] and a token [t] that is
    not empty. [safe] is [t] with every metacharacter escaped, so [re]
    matches the text [t] ignoring case; the matches are found left to
    right, each search resuming after the previous match. [pending] is
    the number of characters of the current match still to be copied. *)
Fixpoint markFrom (t : jsstring) (pending : nat) (s : jsstring) : jsstring :=
  match s with
  | [] => []
  | c :: s' =>
      match pending with
      | S (S k) => c :: markFrom t (S k) s'
      | 1%nat => c :: mark_close ++ markFrom t 0 s'
      | 0%nat =>
          if matchesAt t s
          then match length t with
               | S (S k) => mark_open ++ c :: markFrom t (S k) s'
               | _ => mark_open ++ c :: mark_close ++ markFrom t 0 s'
               end
          else c :: markFrom t 0 s'
      end
  end.

(** The same replace for any token: the empty pattern matches before
    every character and at the end. *)
Definition markAll (t : jsstring) (s : jsstring) : jsstring :=
  match t with
  | [] => flat_map (fun c => mark_open ++ mark_close ++ [c]) s
            ++ mark_open ++ mark_close
  | _ :: _ => markFrom t 0 s
  end.

Definition highlight (text : jsstring) (tokens : list jsstring) : jsstring :=
  match text with
  | [] => []
  | _ :: _ =>
      match tokens with
      | [] => escapeHtml text
      | _ :: _ => fold_left (fun out t => markAll t out) tokens (escapeHtml text)
      end
  end.

Definition ellipsis : jsstring := [8230].

Definition makeSnippet (bodyPlain : jsstring) (tokens : list jsstring)
    (maxLen : Z) : jsstring :=
  match bodyPlain with
  | [] => []
  | _ :: _ =>
      let text := trim (collapseSpaces bodyPlain) in
      match tokens with
      | [] => escapeHtml (slice 0 maxLen text)
      | _ :: _ =>
          let idx :=
            fold_left
              (fun idx t =>
                 let i := indexOf (toLowerCase t) (toLowerCase text) in
                 if negb (i =? -1)%Z && ((idx =? -1)%Z || (i <? idx)%Z)
                 then i else idx)
              tokens (-1)%Z in
          let start := if (idx >? 20)%Z then (idx - 20)%Z else 0%Z in
          let snippet := slice start (start + maxLen) text in
          let prefix := if (start >? 0)%Z then ellipsis else [] in
          let suffix :=
            if (start + maxLen <? Z.of_nat (length text))%Z then ellipsis else [] in
          prefix ++ snippet ++ suffix
      end
  end.

(** A string-valued property of a JSON object: absent, [null], or a
    string. *)
Inductive field : Type :=
| Missing
| Null
| Text (s : jsstring).

Definition field_val (f : field) : jsval :=
  match f with
  | Missing => VUndef
  | Null => VNull
  | Text s => VStr s
  end.

(** [f || d] where [d] is a string. *)
Definition field_or (f : field) (d : jsstring) : jsstring :=
  ToString (or_else (field_val f) (VStr d)).

Definition formatDate (dateStr : field) : jsstring :=
  match dateStr with
  | Missing | Null | Text [] => []
  | Text s =>
      match newDate s with
      | None => s
      | Some d => toLocaleString d
      end
  end.

(** A message object of a list or detail response. *)
Record message : Type := {
  id : jsval;
  subject : field;
  from_addr : field;
  to_addrs : field;
  date_received : field;
  body_plain : field;
  body_html_sanitized : field;
  hidden : bool
}.

(** A [div] that [renderList] appends to the message list. *)
Record entry : Type := {
  className : jsstring;
  innerHTML : jsstring;
  onclick : jsval       (* the id that the click hands to showDetail *)
}.

Definition nl (indent : nat) : jsstring := 10 :: repeat 32 indent.
Definition div (cls : string) : jsstring :=
  lit "<div class=" ++ dquote ++ lit cls ++ dquote ++ lit ">".
Definition div_end : jsstring := lit "</div>".

(** The template literal assigned to [div.innerHTML]. *)
Definition entryTemplate (subjectHtml fromAddrHtml bodySnippetHtml dateHtml : jsstring)
    : jsstring :=
  nl 6 ++ div "row"
    ++ nl 8 ++ div "left"
    ++ nl 10 ++ div "subject" ++ subjectHtml ++ div_end
    ++ nl 10 ++ div "from" ++ fromAddrHtml ++ div_end
    ++ nl 10 ++ div "snippet" ++ bodySnippetHtml ++ div_end
    ++ nl 8 ++ div_end
    ++ nl 8 ++ div "right" ++ dateHtml ++ div_end
    ++ nl 6 ++ div_end
    ++ nl 4.

Definition subjectHtml (tokens : list jsstring) (m : message) : jsstring :=
  highlight (field_or (subject m) (lit "(No Subject)")) tokens.
Definition fromAddrHtml (tokens : list jsstring) (m : message) : jsstring :=
  highlight (field_or (from_addr m) []) tokens.
Definition bodySnippetHtml (tokens : list jsstring) (m : message) : jsstring :=
  highlight (makeSnippet (field_or (body_plain m) []) tokens 140) tokens.

Definition renderEntry (tokens : list jsstring) (m : message) : entry :=
  {| className := lit "msg" ++ (if hidden m then lit " hidden" else []);
     innerHTML :=
       entryTemplate (subjectHtml tokens m) (fromAddrHtml tokens m)
         (bodySnippetHtml tokens m)
         (escapeHtml (formatDate (date_received m)));
     onclick := id m |}.

Definition no_results : jsstring :=
  div "no-results" ++ lit "No results" ++ div_end.

(** [renderList]: the markup assigned to [msgListEl.innerHTML] and the
    children appended after it. *)
Definition renderList (currentSearch : jsstring) (messages : list message)
    : jsstring * list entry :=
  match messages with
  | [] => (no_results, [])
  | _ :: _ =>
      let tokens := words currentSearch in
      ([], List.map (renderEntry tokens) messages)
  end.

(* ----------------------------------------------------------------- *)
(** ** The page: script variables, the DOM, the handlers               *)
(* ----------------------------------------------------------------- *)

(** The outcome of an awaited bridge call: the promise rejects with an
    [Error] carrying [message], or resolves. *)
Inductive response (A : Type) : Type :=
| Rejected (message : jsstring)
| Resolved (data : A).
Arguments Rejected {A} message.
Arguments Resolved {A} data.

(** What a list endpoint can resolve to: something that is not an
    object, or an object, with its [messages] when that is an array. *)
Inductive listData : Type :=
| NotAnObject
| Object (messages : option (list message)).

(** The elements of [index.html] that the script reads and writes. *)
Record dom : Type := {
  statusText : jsstring;            (* statusEl.textContent *)
  pageIndicatorText : jsstring;     (* pageIndicatorEl.textContent *)
  prevDisabled : bool;              (* prevPageBtn.disabled *)
  nextDisabled : bool;              (* nextPageBtn.disabled *)
  listHtml : jsstring;              (* msgListEl.innerHTML, as assigned *)
  listChildren : list entry;        (* nodes appended to msgListEl *)
  detailSubjectText : jsstring;     (* detailSubjectEl.textContent *)
  detailMetaText : jsstring;        (* detailMetaEl.textContent *)
  detailBodyHtml : jsstring;        (* detailBodyEl.innerHTML *)
  deleteBtnDisplay : jsstring;
  restoreBtnDisplay : jsstring;
  detailToolbarDisplay : jsstring;
  searchBoxValue : jsstring         (* the text in the search box *)
}.

Record state : Type := {
  currentMessageId : jsval;
  showingTrash : bool;
  currentSearch : jsstring;
  currentPage : Z;
  document : dom
}.

Definition with_document (f : dom -> dom) (st : state) : state :=
  {| currentMessageId := currentMessageId st;
     showingTrash := showingTrash st;
     currentSearch := currentSearch st;
     currentPage := currentPage st;
     document := f (document st) |}.

Definition set_status (s : jsstring) (d : dom) : dom :=
  {| statusText := s;
     pageIndicatorText := pageIndicatorText d;
     prevDisabled := prevDisabled d;
     nextDisabled := nextDisabled d;
     listHtml := listHtml d;
     listChildren := listChildren d;
     detailSubjectText := detailSubjectText d;
     detailMetaText := detailMetaText d;
     detailBodyHtml := detailBodyHtml d;
     deleteBtnDisplay := deleteBtnDisplay d;
     restoreBtnDisplay := restoreBtnDisplay d;
     detailToolbarDisplay := detailToolbarDisplay d;
     searchBoxValue := searchBoxValue d |}.

Definition set_pager (indicator : jsstring) (prev next : bool) (d : dom) : dom :=
  {| statusText := statusText d;
     pageIndicatorText := indicator;
     prevDisabled := prev;
     nextDisabled := next;
     listHtml := listHtml d;
     listChildren := listChildren d;
     detailSubjectText := detailSubjectText d;
     detailMetaText := detailMetaText d;
     detailBodyHtml := detailBodyHtml d;
     deleteBtnDisplay := deleteBtnDisplay d;
     restoreBtnDisplay := restoreBtnDisplay d;
     detailToolbarDisplay := detailToolbarDisplay d;
     searchBoxValue := searchBoxValue d |}.

Definition set_list (l : jsstring * list entry) (d : dom) : dom :=
  {| statusText := statusText d;
     pageIndicatorText := pageIndicatorText d;
     prevDisabled := prevDisabled d;
     nextDisabled := nextDisabled d;
     listHtml := fst l;
     listChildren := snd l;
     detailSubjectText := detailSubjectText d;
     detailMetaText := detailMetaText d;
     detailBodyHtml := detailBodyHtml d;
     deleteBtnDisplay := deleteBtnDisplay d;
     restoreBtnDisplay := restoreBtnDisplay d;
     detailToolbarDisplay := detailToolbarDisplay d;
     searchBoxValue := searchBoxValue d |}.

Definition set_detail (subj meta body del rest toolbar : jsstring) (d : dom) : dom :=
  {| statusText := statusText d;
     pageIndicatorText := pageIndicatorText d;
     prevDisabled := prevDisabled d;
     nextDisabled := nextDisabled d;
     listHtml := listHtml d;
     listChildren := listChildren d;
     detailSubjectText := subj;
     detailMetaText := meta;
     detailBodyHtml := body;
     deleteBtnDisplay := del;
     restoreBtnDisplay := rest;
     detailToolbarDisplay := toolbar;
     searchBoxValue := searchBoxValue d |}.

Definition set_searchBox (s : jsstring) (d : dom) : dom :=
  {| statusText := statusText d;
     pageIndicatorText := pageIndicatorText d;
     prevDisabled := prevDisabled d;
     nextDisabled := nextDisabled d;
     listHtml := listHtml d;
     listChildren := listChildren d;
     detailSubjectText := detailSubjectText d;
     detailMetaText := detailMetaText d;
     detailBodyHtml := detailBodyHtml d;
     deleteBtnDisplay := deleteBtnDisplay d;
     restoreBtnDisplay := restoreBtnDisplay d;
     detailToolbarDisplay := detailToolbarDisplay d;
     searchBoxValue := s |}.

Definition set_vars (mid : jsval) (trash : bool) (search : jsstring) (pg : Z)
    (st : state) : state :=
  {| currentMessageId := mid;
     showingTrash := trash;
     currentSearch := search;
     currentPage := pg;
     document := document st |}.

Definition updatePaginationControls (count : Z) (st : state) : state :=
  with_document
    (set_pager (lit "Page " ++ ToString (VNum (currentPage st)))
               (currentPage st =? 1)%Z
               (count <? PAGE_SIZE)%Z)
    st.

(** The bridge call that [loadMessages] awaits. *)
Definition loadRequest (st : state) : Preload.op :=
  if showingTrash st
  then Preload.listTrash (VNum (currentPage st)) (VNum PAGE_SIZE)
  else Preload.listMessages (VNum (currentPage st)) (VNum PAGE_SIZE)
         (VStr (currentSearch st)).

(** [loadMessages], given the outcome [r] of that call. *)
Definition loadMessages (r : response listData) (st : state) : state :=
  let st := with_document (set_status (lit "Loading...")) st in
  match r with
  | Rejected msg =>
      with_document
        (set_status (lit "Error loading messages"
                       ++ (if truthy (VStr msg) then lit ": " ++ msg else [])))
        st
  | Resolved NotAnObject =>
      with_document (set_status (lit "Unexpected response")) st
  | Resolved (Object ms) =>
      let messages := match ms with Some l => l | None => [] end in
      let st := with_document (set_list (renderList (currentSearch st) messages)) st in
      let st :=
        with_document
          (set_status
             (lit "Loaded " ++ ToString (VNum (Z.of_nat (length messages)))
                ++ lit " messages"
                ++ (if truthy (VStr (currentSearch st))
                    then lit " (search=" ++ dquote ++ currentSearch st
                           ++ dquote ++ lit ")"
                    else [])))
          st in
      updatePaginationControls (Z.of_nat (length messages)) st
  end.

Definition arrow : jsstring := [8594].

(** [showDetail(id)], given the outcome of [getMessage(id)]. *)
Definition showDetail (i : jsval) (r : response message) (st : state) : state :=
  let st := set_vars i (showingTrash st) (currentSearch st) (currentPage st) st in
  let st := with_document (set_status (lit "Loading message...")) st in
  match r with
  | Resolved msg =>
      let st :=
        with_document
          (set_detail
             (field_or (subject msg) (lit "(No Subject)"))
             (ToString (field_val (from_addr msg)) ++ lit " " ++ arrow ++ lit " "
                ++ field_or (to_addrs msg) [] ++ lit " | "
                ++ formatDate (date_received msg))
             (field_or (body_html_sanitized msg)
                (lit "<pre>" ++ escapeHtml (field_or (body_plain msg) [])
                   ++ lit "</pre>"))
             (if hidden msg then lit "none" else lit "inline-block")
             (if hidden msg then lit "inline-block" else lit "none")
             (lit "flex"))
          st in
      with_document (set_status (lit "Message loaded")) st
  | Rejected _ =>
      with_document (set_status (lit "Message not found (maybe deleted)")) st
  end.

Definition doSearch (r : response listData) (st : state) : state :=
  let st := set_vars (currentMessageId st) (showingTrash st)
              (trim (searchBoxValue (document st))) 1%Z st in
  loadMessages r st.

Definition clearSearch (r : response listData) (st : state) : state :=
  let st := with_document (set_searchBox []) st in
  let st := set_vars (currentMessageId st) (showingTrash st) [] 1%Z st in
  loadMessages r st.

Definition trashToggle_onchange (checked : bool) (r : response listData)
    (st : state) : state :=
  let st := set_vars (currentMessageId st) checked (currentSearch st) 1%Z st in
  loadMessages r st.

Definition prevPageBtn_onclick (r : response listData) (st : state) : state :=
  if (currentPage st >? 1)%Z
  then loadMessages r
         (set_vars (currentMessageId st) (showingTrash st) (currentSearch st)
            (currentPage st - 1)%Z st)
  else st.

Definition nextPageBtn_onclick (r : response listData) (st : state) : state :=
  loadMessages r
    (set_vars (currentMessageId st) (showingTrash st) (currentSearch st)
       (currentPage st + 1)%Z st).

(** What the user can do on the page. An event that starts a load
    carries the outcome of that load. *)
Inductive event : Type :=
| TypeSearch (text : jsstring)
| ClickSearch (r : response listData)
| ClickClearSearch (r : response listData)
| ChangeTrashToggle (checked : bool) (r : response listData)
| ClickPrev (r : response listData)
| ClickNext (r : response listData)
| ClickEntry (i : jsval) (r : response message).

(** The browser runs the handler of an event; a disabled button
    receives no click. *)
Definition dispatch (e : event) (st : state) : state :=
  match e with
  | TypeSearch text => with_document (set_searchBox text) st
  | ClickSearch r => doSearch r st
  | ClickClearSearch r => clearSearch r st
  | ChangeTrashToggle checked r => trashToggle_onchange checked r st
  | ClickPrev r =>
      if prevDisabled (document st) then st else prevPageBtn_onclick r st
  | ClickNext r =>
      if nextDisabled (document st) then st else nextPageBtn_onclick r st
  | ClickEntry i r => showDetail i r st
  end.

(** A page whose elements are empty and whose buttons are enabled. *)
Definition blank_page : dom :=
  {| statusText := []; pageIndicatorText := [];
     prevDisabled := false; nextDisabled := false;
     listHtml := []; listChildren := [];
     detailSubjectText := []; detailMetaText := []; detailBodyHtml := [];
     deleteBtnDisplay := []; restoreBtnDisplay := [];
     detailToolbarDisplay := []; searchBoxValue := [] |}.

(** The script runs once: the variables are initialised and the first
    load is started, on the page as [index.html] gives it. *)
Definition boot (page : dom) (r : response listData) : state :=
  loadMessages r
    {| currentMessageId := VNull;
       showingTrash := false;
       currentSearch := [];
       currentPage := 1;
       document := page |}.

Definition run (page : dom) (r : response listData) (es : list event) : state :=
  fold_left (fun st e => dispatch e st) es (boot page r).

(** The two invariants of the pager: the page number is at least one,
    and the Prev button is disabled exactly on page one. *)
Definition page_ok (st : state) : Prop := (1 <= currentPage st)%Z.
Definition prev_synced (st : state) : Prop :=
  prevDisabled (document st) = (currentPage st =? 1)%Z.

(** A load that reaches [updatePaginationControls]. *)
Definition loaded (r : response listData) : bool :=
  match r with
  | Resolved (Object _) => true
  | _ => false
  end.

(** Every load that the event starts completes. *)
Definition event_loaded (e : event) : bool :=
  match e with
  | ClickSearch r | ClickClearSearch r | ChangeTrashToggle _ r
  | ClickPrev r | ClickNext r => loaded r
  | TypeSearch _ | ClickEntry _ _ => true
  end.

End Locale.
Arguments Rejected {A} message.
Arguments Resolved {A} data.
End Renderer.

(* ===================================================================== *)
(** * The backend that the front end talks to                              *)
(* ===================================================================== *)

(** The Python backend (message store, sync orchestrator, sanitizer, query
    service) is modelled from the contracts of sections 3 and 4 of the
    specification. *)

Module Backend.

Local Open Scope nat_scope.
Local Set Warnings "-register-all".

(* ------------------------------------------------------------------- *)
(** ** Sanitizer (specification 4.2)                                     *)
(* ------------------------------------------------------------------- *)

(** Modelled from the spec: the HTML that the Sanitizer works on, as the
    document that a parser delivers. *)
Inductive node : Type :=
| TextNode (text : string)
| Element (tag : string) (attrs : list (string * string)) (children : list node).

Definition html : Type := list node.

Definition lower_ascii (c : ascii) : ascii :=
  let n := nat_of_ascii c in
  if (65 <=? n) && (n <=? 90) then ascii_of_nat (n + 32) else c.

Fixpoint lower (s : string) : string :=
  match s with
  | EmptyString => EmptyString
  | String c s' => String (lower_ascii c) (lower s')
  end.

(** Modelled from the spec: the elements that the Sanitizer removes,
    [script] and [style], whatever the case of the tag name. *)
Definition removed_element (tag : string) : bool :=
  String.eqb (lower tag) "script" || String.eqb (lower tag) "style".

(** Modelled from the spec: an inline event-handler attribute, a name
    that starts with [on] ([onclick], [onload], [ONERROR], ...). *)
Definition event_handler (name : string) : bool :=
  String.prefix "on" (lower name).

Section Sanitizer.
(** The HTML parser ([None]: the input cannot be parsed), the
    placeholder that stands for a blocked image, and the two halves of
    the treatment of CSS: the URLs of the [background] declarations of
    a [style] attribute, and that attribute with them blocked. *)
Variable parse : string -> option html.
Variable placeholder : string.
Variable css_background_urls : string -> list string.
Variable css_block_backgrounds : string -> string.

(** Modelled from the spec: what the Sanitizer does to the attributes
    of an element it keeps: event handlers stripped, the [src] of an
    [img] and the background URLs of a [style] attribute replaced by
    the blocked placeholder. *)
Fixpoint clean_attrs (tag : string) (attrs : list (string * string))
    : list (string * string) :=
  match attrs with
  | [] => []
  | (name, value) :: rest =>
      if event_handler name then clean_attrs tag rest
      else if String.eqb (lower tag) "img" && String.eqb (lower name) "src"
      then (name, placeholder) :: clean_attrs tag rest
      else if String.eqb (lower name) "style"
      then (name, css_block_backgrounds value) :: clean_attrs tag rest
      else (name, value) :: clean_attrs tag rest
  end.

(** Modelled from the spec: the Sanitizer on a parsed document:
    [script] and [style] elements are removed with their content, the
    other elements are kept with cleaned attributes and children. *)
Fixpoint clean_node (n : node) : html :=
  match n with
  | TextNode text => [TextNode text]
  | Element tag attrs children =>
      if removed_element tag then []
      else [Element tag (clean_attrs tag attrs)
              ((fix clean_all (l : list node) : html :=
                  match l with
                  | [] => []
                  | c :: l' => clean_node c ++ clean_all l'
                  end) children)]
  end.

Definition clean (doc : html) : html := flat_map clean_node doc.

(** Modelled from the spec: the remote URLs that the Sanitizer captures
    for the ImageSource list, in document order. *)
Fixpoint attr_urls (tag : string) (attrs : list (string * string)) : list string :=
  match attrs with
  | [] => []
  | (name, value) :: rest =>
      if String.eqb (lower tag) "img" && String.eqb (lower name) "src"
      then value :: attr_urls tag rest
      else if String.eqb (lower name) "style"
      then css_background_urls value ++ attr_urls tag rest
      else attr_urls tag rest
  end.

Fixpoint node_urls (n : node) : list string :=
  match n with
  | TextNode _ => []
  | Element tag attrs children =>
      if removed_element tag then []
      else attr_urls tag attrs
             ++ (fix urls_all (l : list node) : list string :=
                   match l with
                   | [] => []
                   | c :: l' => node_urls c ++ urls_all l'
                   end) children
  end.

(** Modelled from the spec: the Sanitizer. The input may be absent; an
    input that does not parse is wrapped as plain text. The result is
    the safe document and the captured image URLs. *)
Definition sanitize (raw : option string) : html * list string :=
  match raw with
  | None => ([], [])
  | Some text =>
      match parse text with
      | Some doc => (clean doc, flat_map node_urls doc)
      | None => ([Element "pre" [] [TextNode text]], [])
      end
  end.

End Sanitizer.

(** Modelled from the spec: the two things that the Sanitizer never
    emits, as properties of a document: a [script] element, at any depth,
    and an attribute that is an inline event handler. *)
Fixpoint has_script (n : node) : bool :=
  match n with
  | TextNode _ => false
  | Element tag attrs children =>
      String.eqb (lower tag) "script"
      || (fix any (l : list node) : bool :=
            match l with
            | [] => false
            | c :: l' => has_script c || any l'
            end) children
  end.

Fixpoint has_event_handler (n : node) : bool :=
  match n with
  | TextNode _ => false
  | Element tag attrs children =>
      existsb (fun a => event_handler (fst a)) attrs
      || (fix any (l : list node) : bool :=
            match l with
            | [] => false
            | c :: l' => has_event_handler c || any l'
            end) children
  end.

Definition safe_node (n : node) : Prop :=
  has_script n = false /\ has_event_handler n = false.

(* ------------------------------------------------------------------- *)
(** ** Data model (specification 3)                                      *)
(* ------------------------------------------------------------------- *)

Inductive AdapterKind : Type := imap | gmail.

(** Modelled from the spec: the entities of the data model, Account,
    raw message, Message, ImageSource, AuditLogEntry, and the store that
    holds them. *)
Record Account : Type := {
  account_id : nat;
  email_address : string;
  imap_password : option string;     (* encrypted at rest *)
  gmail_tokens : option string       (* encrypted OAuth token pair *)
}.

(** Modelled from the spec: the adapter of an account, Gmail tokens
    taking precedence over IMAP credentials. *)
Definition adapter_kind (a : Account) : AdapterKind :=
  match gmail_tokens a with
  | Some _ => gmail
  | None => imap
  end.

(** A message as an adapter fetches it. *)
Record RawMessage : Type := {
  raw_subject : string;
  raw_from : string;
  raw_to : string;
  raw_date : Z;
  raw_body_plain : string;
  raw_body_html : option string;
  raw_external_id : option string
}.

Record Message : Type := {
  message_id : nat;
  owner : nat;                       (* the account that owns the message *)
  external_id : option string;       (* the resolved dedup key, if any *)
  subject : string;
  from_addr : string;
  to_addrs : string;
  date_received : Z;
  body_plain : string;
  body_html_raw : option string;
  body_html_sanitized : html;
  hidden : bool;
  created_at : Z
}.

Record ImageSource : Type := {
  image_message : nat;
  image_url : string
}.

Inductive Action : Type := act_delete | act_restore.

Record AuditLogEntry : Type := {
  audit_account : nat;
  audit_message : nat;
  audit_action : Action;
  audit_time : Z
}.

Record Store : Type := {
  accounts : list Account;
  messages : list Message;
  image_sources : list ImageSource;
  audit_log : list AuditLogEntry;
  next_id : nat
}.

Definition empty : Store :=
  {| accounts := []; messages := []; image_sources := []; audit_log := [];
     next_id := 1 |}.

(** The error taxonomy of specification 7. *)
Inductive Error : Type :=
| AuthFailure
| AdapterUnavailable
| DuplicateKey
| NotFound
| ValidationError.

Inductive result (A : Type) : Type :=
| Ok (a : A)
| Err (e : Error).
Arguments Ok {A} a.
Arguments Err {A} e.

(* ------------------------------------------------------------------- *)
(** ** Message Store (specification 4.5)                                 *)
(* ------------------------------------------------------------------- *)

Definition has_key (acct : nat) (key : string) (m : Message) : bool :=
  (owner m =? acct)
  && match external_id m with
     | Some k => String.eqb k key
     | None => false
     end.

(** Modelled from the spec: whether [(account_id, key)] already exists in
    the Message Store. *)
Definition key_exists (acct : nat) (key : string) (st : Store) : bool :=
  existsb (has_key acct key) (messages st).

(** The (account, external_id) pairs of the stored rows, in row order; a
    row without a key contributes none. *)
Definition row_keys (m : Message) : list (nat * string) :=
  match external_id m with
  | Some k => [(owner m, k)]
  | None => []
  end.

Definition keys (st : Store) : list (nat * string) :=
  flat_map row_keys (messages st).

Definition with_id (i : nat) (m : Message) : Message :=
  {| message_id := i; owner := owner m; external_id := external_id m;
     subject := subject m; from_addr := from_addr m; to_addrs := to_addrs m;
     date_received := date_received m; body_plain := body_plain m;
     body_html_raw := body_html_raw m;
     body_html_sanitized := body_html_sanitized m;
     hidden := hidden m; created_at := created_at m |}.

Definition with_hidden (h : bool) (m : Message) : Message :=
  {| message_id := message_id m; owner := owner m; external_id := external_id m;
     subject := subject m; from_addr := from_addr m; to_addrs := to_addrs m;
     date_received := date_received m; body_plain := body_plain m;
     body_html_raw := body_html_raw m;
     body_html_sanitized := body_html_sanitized m;
     hidden := h; created_at := created_at m |}.

(** Modelled from the spec: [insert(message)] of the Message Store, which
    fails with [DuplicateKey] if [(account_id, external_id)] already
    exists; the row gets the next identifier, and the image URLs captured
    by the Sanitizer are recorded with it. *)
Definition insert (m : Message) (urls : list string) (st : Store) : result Store :=
  let duplicate :=
    match external_id m with
    | Some k => key_exists (owner m) k st
    | None => false
    end in
  if duplicate then Err DuplicateKey
  else
    let i := next_id st in
    Ok {| accounts := accounts st;
          messages := messages st ++ [with_id i m];
          image_sources :=
            image_sources st
              ++ List.map (fun u => {| image_message := i; image_url := u |}) urls;
          audit_log := audit_log st;
          next_id := S i |}.

Definition find_message (i : nat) (st : Store) : option Message :=
  List.find (fun m => message_id m =? i) (messages st).

(** Modelled from the spec: [get(id)], which returns the message unless
    it is hidden. *)
Definition get (i : nat) (st : Store) : result Message :=
  match find_message i st with
  | Some m => if hidden m then Err NotFound else Ok m
  | None => Err NotFound
  end.

Definition set_hidden (i : nat) (h : bool) (st : Store) (entry : AuditLogEntry)
    : Store :=
  {| accounts := accounts st;
     messages :=
       List.map (fun m => if message_id m =? i then with_hidden h m else m)
         (messages st);
     image_sources := image_sources st;
     audit_log := audit_log st ++ [entry];
     next_id := next_id st |}.

(** Modelled from the spec: [hide(id)], the soft delete. Hiding a visible
    message marks it hidden and appends an AuditLogEntry; hiding a
    message that is already hidden is a no-op; an unknown id is
    [NotFound]. *)
Definition hide (now : Z) (i : nat) (st : Store) : result Store :=
  match find_message i st with
  | None => Err NotFound
  | Some m =>
      if hidden m then Ok st
      else Ok (set_hidden i true st
                 {| audit_account := owner m; audit_message := i;
                    audit_action := act_delete; audit_time := now |})
  end.

(** Modelled from the spec: [restore(id)], the inverse transition. *)
Definition restore (now : Z) (i : nat) (st : Store) : result Store :=
  match find_message i st with
  | None => Err NotFound
  | Some m =>
      if hidden m
      then Ok (set_hidden i false st
                 {| audit_account := owner m; audit_message := i;
                    audit_action := act_restore; audit_time := now |})
      else Ok st
  end.

(** The visibility of every stored message: which ids are hidden. *)
Definition visibility (st : Store) : list (nat * bool) :=
  List.map (fun m => (message_id m, hidden m)) (messages st).

(** Modelled from the spec: deleting an account removes its messages,
    their image sources, its audit log entries and the account row. *)
Definition delete_account (acct : nat) (st : Store) : Store :=
  let gone i := existsb (fun m => (message_id m =? i) && (owner m =? acct))
                  (messages st) in
  {| accounts := List.filter (fun a => negb (account_id a =? acct)) (accounts st);
     messages := List.filter (fun m => negb (owner m =? acct)) (messages st);
     image_sources :=
       List.filter (fun s => negb (gone (image_message s))) (image_sources st);
     audit_log :=
       List.filter (fun e => negb (audit_account e =? acct)) (audit_log st);
     next_id := next_id st |}.

(* ------------------------------------------------------------------- *)
(** ** Query Service (specification 4.5)                                 *)
(* ------------------------------------------------------------------- *)

Fixpoint contains (needle hay : string) : bool :=
  String.prefix needle hay
  || match hay with
     | EmptyString => false
     | String _ hay' => contains needle hay'
     end.

(** Modelled from the spec: a token matches a message when it occurs,
    ignoring case, in the subject, the from address or the plain body. *)
Definition matches_token (t : string) (m : Message) : bool :=
  contains (lower t) (lower (subject m))
  || contains (lower t) (lower (from_addr m))
  || contains (lower t) (lower (body_plain m)).

Fixpoint insert_by_date (m : Message) (l : list Message) : list Message :=
  match l with
  | [] => [m]
  | x :: l' =>
      if (date_received x <? date_received m)%Z then m :: l
      else x :: insert_by_date m l'
  end.

(** Most recent first. *)
Definition by_date_desc (l : list Message) : list Message :=
  fold_right insert_by_date [] l.

(** Modelled from the spec: [list(account_scope, page, page_size,
    search_tokens)]: the messages of the scope that are visible (or, for
    the trash, hidden) and contain all the tokens, most recent first,
    cut at offset [(page - 1) * page_size]. *)
Definition list_messages (scope : option nat) (trash : bool)
    (page page_size : nat) (tokens : list string) (st : Store) : list Message :=
  let selected m :=
    match scope with Some a => owner m =? a | None => true end
    && Bool.eqb (hidden m) trash
    && forallb (fun t => matches_token t m) tokens in
  firstn page_size
    (skipn ((page - 1) * page_size)
       (by_date_desc (List.filter selected (messages st)))).

(** The number of messages that the default listing can show. *)
Definition visible_count (st : Store) : nat :=
  length (List.filter (fun m => negb (hidden m)) (messages st)).

(* ------------------------------------------------------------------- *)
(** ** Sync Orchestrator (specification 4.1, 4.3, 4.4)                   *)
(* ------------------------------------------------------------------- *)

(** Modelled from the spec: what [fetch_new] of a Mail Source Adapter
    produces, a finite sequence of raw messages that ends normally or with
    a failure of the connection. *)
Inductive fetched : Type :=
| EndOfMail
| Broken (e : Error)
| Yield (m : RawMessage) (rest : fetched).

Fixpoint yielded (f : fetched) : list RawMessage :=
  match f with
  | EndOfMail | Broken _ => []
  | Yield m rest => m :: yielded rest
  end.

(** How the sequence ends: [None] for the normal end. *)
Fixpoint broken (f : fetched) : option Error :=
  match f with
  | EndOfMail => None
  | Broken e => Some e
  | Yield _ rest => broken rest
  end.

Record Summary : Type := {
  count_fetched : nat;
  count_inserted : nat;
  count_skipped : nat;
  failure : option Error          (* [None]: Done; [Some e]: Failed *)
}.

Section Sync.
(** The Dedup Key Resolver, a pure function of the account and the raw
    message; [None] when no stable identity can be derived. The
    parameters of the Sanitizer are as above. *)
Variable resolve_key : Account -> RawMessage -> option string.
Variable parse : string -> option html.
Variable placeholder : string.
Variable css_background_urls : string -> list string.
Variable css_block_backgrounds : string -> string.

Definition new_message (a : Account) (now : Z) (key : option string)
    (raw : RawMessage) (safe : html) : Message :=
  {| message_id := 0; owner := account_id a; external_id := key;
     subject := raw_subject raw; from_addr := raw_from raw;
     to_addrs := raw_to raw; date_received := raw_date raw;
     body_plain := raw_body_plain raw; body_html_raw := raw_body_html raw;
     body_html_sanitized := safe; hidden := false; created_at := now |}.

(** Modelled from the spec: sanitize and insert one raw message. *)
Definition persist (a : Account) (now : Z) (key : option string)
    (raw : RawMessage) (st : Store) : result Store :=
  let '(safe, urls) :=
    sanitize parse placeholder css_background_urls css_block_backgrounds
      (raw_body_html raw) in
  insert (new_message a now key raw safe) urls st.

(** Modelled from the spec: the loop of the Sync Orchestrator. For each
    raw message the dedup key is resolved; a message whose key is
    already stored for the account is skipped; any other message, also
    one for which no key can be derived, is sanitized and inserted. A
    [DuplicateKey] from the store counts as a skip. The messages
    inserted before a failure of the adapter stay. *)
Fixpoint sync_loop (a : Account) (now : Z) (f : fetched) (st : Store)
    (n_fetched n_inserted n_skipped : nat) : Store * Summary :=
  match f with
  | EndOfMail =>
      (st, {| count_fetched := n_fetched; count_inserted := n_inserted;
              count_skipped := n_skipped; failure := None |})
  | Broken e =>
      (st, {| count_fetched := n_fetched; count_inserted := n_inserted;
              count_skipped := n_skipped; failure := Some e |})
  | Yield raw rest =>
      let key := resolve_key a raw in
      let seen :=
        match key with
        | Some k => key_exists (account_id a) k st
        | None => false
        end in
      if seen
      then sync_loop a now rest st (S n_fetched) n_inserted (S n_skipped)
      else match persist a now key raw st with
           | Ok st' => sync_loop a now rest st' (S n_fetched) (S n_inserted) n_skipped
           | Err _ => sync_loop a now rest st (S n_fetched) n_inserted (S n_skipped)
           end
  end.

(** Modelled from the spec: one sync cycle of an account, which returns
    the store and the summary (fetched, inserted, skipped, Done or
    Failed). *)
Definition sync (a : Account) (now : Z) (f : fetched) (st : Store)
    : Store * Summary :=
  sync_loop a now f st 0 0 0.

(** Modelled from the spec: the operations on the store, and the stores
    that they can produce from the empty one. *)
Inductive step : Store -> Store -> Prop :=
| step_create_account st a :
    step st {| accounts := accounts st ++ [a]; messages := messages st;
               image_sources := image_sources st; audit_log := audit_log st;
               next_id := next_id st |}
| step_insert st m urls st' : insert m urls st = Ok st' -> step st st'
| step_sync st a now f : step st (fst (sync a now f st))
| step_hide st now i st' : hide now i st = Ok st' -> step st st'
| step_restore st now i st' : restore now i st = Ok st' -> step st st'
| step_delete_account st acct : step st (delete_account acct st).

Inductive reachable : Store -> Prop :=
| reachable_empty : reachable empty
| reachable_step st st' : reachable st -> step st st' -> reachable st'.

End Sync.

End Backend.

(* ===================================================================== *)
(** * Sample data                                                          *)
(* ===================================================================== *)

Module Samples.
Import JS Renderer.

(** A locale in which no string parses as a date. *)
Definition no_date (s : jsstring) : option unit := None.
Definition no_locale (d : unit) : jsstring := [].

(** Case folding of the ASCII letters. *)
Definition ascii_fold (c : char) : char :=
  if (97 <=? c) && (c <=? 122) then c - 32 else c.
Definition ascii_lower (c : char) : char :=
  if (65 <=? c) && (c <=? 90) then c + 32 else c.

Definition start : state :=
  {| currentMessageId := VNull; showingTrash := false; currentSearch := [];
     currentPage := 1; document := blank_page |}.

Definition plain_mail : message :=
  {| id := VNum 7;
     subject := Text (lit "Hello <World>");
     from_addr := Text (lit "a@b.com");
     to_addrs := Null;
     date_received := Text (lit "yesterday");
     body_plain := Text (lit "say hello & goodbye");
     body_html_sanitized := Null;
     hidden := false |}.

Definition html_mail : message :=
  {| id := VNum 8;
     subject := Text (lit "Offer");
     from_addr := Text (lit "x@y.com");
     to_addrs := Null;
     date_received := Null;
     body_plain := Text (lit "see the picture");
     body_html_sanitized := Text (lit "<img src=x onerror=alert(1)>");
     hidden := false |}.

(** A full page and a short page of results. *)
Definition page_of (n : nat) : Renderer.response listData :=
  Resolved (Object (Some (repeat plain_mail n))).

End Samples.

Module BackendSamples.
Import Backend.
Local Open Scope string_scope.

(** A resolver that takes the identifier of the provider as the key and
    derives none when the provider gave none; a parser that rejects every
    input. *)
Definition by_provider_id (a : Account) (m : RawMessage) : option string :=
  raw_external_id m.
Definition no_parse (s : string) : option html := None.
Definition no_urls (s : string) : list string := [].

(** A parser that reads every input as one document: a [div] with a click
    handler that holds a script and a remote image. *)
Definition one_document (s : string) : option html :=
  Some [Element "div" [("onclick", "steal()"); ("class", "note")]
          [Element "SCRIPT" [] [TextNode "alert(1)"];
           Element "img" [("src", "http://t.example/p.gif"); ("OnError", "x()")] [];
           TextNode "hello"]].
Definition same_css (s : string) : string := s.

Definition alice : Account :=
  {| account_id := 1; email_address := "alice@example.com";
     imap_password := Some "k9f2"; gmail_tokens := None |}.

Definition keyed_mail : RawMessage :=
  {| raw_subject := "Invoice"; raw_from := "billing@acme.example";
     raw_to := "alice@example.com"; raw_date := 1700000000;
     raw_body_plain := "Your invoice is attached.";
     raw_body_html := Some "<p onclick=x>Your invoice</p>";
     raw_external_id := Some "X123" |}.

Definition anonymous_mail : RawMessage :=
  {| raw_subject := "(no subject)"; raw_from := "";
     raw_to := "alice@example.com"; raw_date := 1700000100;
     raw_body_plain := "hi"; raw_body_html := None;
     raw_external_id := None |}.

Definition sync_alice (now : Z) (f : fetched) (st : Store) : Store * Summary :=
  sync by_provider_id no_parse "blocked:" no_urls same_css alice now f st.

(** A store whose only message is in the trash. *)
Definition trashed : Store :=
  {| accounts := [alice];
     messages :=
       [{| message_id := 1; owner := 1; external_id := Some "X123";
           subject := "Invoice"; from_addr := "billing@acme.example";
           to_addrs := "alice@example.com"; date_received := 1700000000;
           body_plain := "Your invoice is attached."; body_html_raw := None;
           body_html_sanitized := []; hidden := true; created_at := 1700000200 |}];
     image_sources := [];
     audit_log :=
       [{| audit_account := 1; audit_message := 1; audit_action := act_delete;
           audit_time := 1700000300 |}];
     next_id := 2 |}.

(** A store with 120 visible messages. *)
Definition inbox120 : Store :=
  {| accounts := [alice];
     messages :=
       List.map
         (fun i =>
            {| message_id := S i; owner := 1; external_id := None;
               subject := "Note"; from_addr := "bob@example.com";
               to_addrs := "alice@example.com";
               date_received := Z.of_nat i;
               body_plain := "text"; body_html_raw := None;
               body_html_sanitized := []; hidden := false; created_at := 0 |})
         (seq 0 120);
     image_sources := [];
     audit_log := [];
     next_id := 121 |}.

End BackendSamples.

(* ===================================================================== *)
(** * frontend/main.js                                                     *)
(* ===================================================================== *)

Module Main.
Import JS.

Definition isDigit (c : char) : bool := (48 <=? c) && (c <=? 57).

Fixpoint takeDigits (s : jsstring) : jsstring :=
  match s with
  | [] => []
  | c :: s' => if isDigit c then c :: takeDigits s' else []
  end.

Definition announcement : jsstring := lit "Listening on 127.0.0.1:".

(** [text.match(/Listening on 127\.0\.0\.1:(\d+)/)]: the group [m[1]] of
    the leftmost match, [None] when there is no match. At a position the
    pattern matches when the fixed text is there and a digit follows; the
    group then takes all the digits that follow. *)
Fixpoint matchPort (text : jsstring) : option jsstring :=
  let here :=
    if startsWith announcement text
    then takeDigits (skipn (length announcement) text)
    else [] in
  match here with
  | _ :: _ => Some here
  | [] =>
      match text with
      | [] => None
      | _ :: rest => matchPort rest
      end
  end.

(** The promise that [startBackend] returns. *)
Inductive promise : Type :=
| Pending
| Fulfilled (port : jsstring)
| Failed.

(** The main process once [app.whenReady()] has run its callback: the
    backend is spawned, its handlers and the timer are set, and the
    [activate] listener is registered. [windows] lists the
    [additionalArguments] of every [BrowserWindow] created so far, [open]
    counts the windows that are open. *)
Record state : Type := {
  env : gmap string jsstring;       (* process.env *)
  resolvedPort : jsstring;
  detected : bool;
  started : promise;
  windows : list (list jsstring);
  open : nat;
  quit : bool
}.

Section Process.
Variable env0 : gmap string jsstring.   (* process.env when main.js is loaded *)
Variable darwin : bool.                  (* process.platform === 'darwin' *)

Definition BACKEND_TOKEN : jsval :=
  or_else (prop env0 "BACKEND_TOKEN") (VStr (lit "dev-token")).

Definition BACKEND_PREFERRED_PORT : jsval :=
  or_else (prop env0 "BACKEND_PORT") (VStr (lit "8137")).

(** The [env] option of [spawn]:
    [{ ...process.env, BACKEND_TOKEN, BACKEND_PORT: BACKEND_PREFERRED_PORT }]. *)
Definition backend_env : gmap string jsval :=
  <[ "BACKEND_PORT" := BACKEND_PREFERRED_PORT ]>
    (<[ "BACKEND_TOKEN" := BACKEND_TOKEN ]> (VStr <$> env0)).

Definition port_argument (port : jsstring) : jsstring :=
  lit "--backend-port=" ++ port.

Definition createWindow (st : state) : state :=
  {| env := env st; resolvedPort := resolvedPort st; detected := detected st;
     started := started st;
     windows := windows st ++ [[port_argument (resolvedPort st)]];
     open := S (open st);
     quit := quit st |}.

(** [resolve] or [reject] of the promise; the [then] and [catch] callbacks
    of the first settlement both call [createWindow]. *)
Definition settle (p : promise) (st : state) : state :=
  match started st with
  | Pending =>
      createWindow
        {| env := env st; resolvedPort := resolvedPort st; detected := detected st;
           started := p; windows := windows st; open := open st; quit := quit st |}
  | _ => st
  end.

(** The handler of [backendProcess.stdout.on('data', ..)] for a chunk that
    reads [text]. *)
Definition on_stdout (text : jsstring) (st : state) : state :=
  match matchPort text with
  | Some port =>
      settle (Fulfilled port)
        {| env := <[ "ACTUAL_BACKEND_PORT" := port ]> (env st);
           resolvedPort := port; detected := true;
           started := started st; windows := windows st; open := open st;
           quit := quit st |}
  | None => st
  end.

Definition on_exit (st : state) : state :=
  if detected st then st else settle Failed st.

Definition on_timeout (st : state) : state :=
  if detected st then st
  else settle (Fulfilled (ToString BACKEND_PREFERRED_PORT)) st.

Definition on_activate (st : state) : state :=
  match open st with
  | O => createWindow st
  | S _ => st
  end.

(** A window is closed; when it was the last one, [window-all-closed]
    quits the application unless the platform is darwin. *)
Definition on_close (st : state) : state :=
  match open st with
  | O => st
  | S n =>
      {| env := env st; resolvedPort := resolvedPort st; detected := detected st;
         started := started st; windows := windows st; open := n;
         quit := match n with O => negb darwin | S _ => quit st end |}
  end.

Inductive event : Type :=
| Stdout (text : jsstring)
| Exit
| Timeout
| Activate
| CloseWindow.

(** The handler that each event runs. [quit] records that [app.quit()]
    has been called; nothing in the script looks at it. *)
Definition dispatch (e : event) (st : state) : state :=
  match e with
  | Stdout text => on_stdout text st
  | Exit => on_exit st
  | Timeout => on_timeout st
  | Activate => on_activate st
  | CloseWindow => on_close st
  end.

Definition init : state :=
  {| env := env0; resolvedPort := ToString BACKEND_PREFERRED_PORT;
     detected := false; started := Pending; windows := []; open := 0;
     quit := false |}.

Definition run (es : list event) : state :=
  fold_left (fun st e => dispatch e st) es init.

Definition is_activate (e : event) : bool :=
  match e with Activate => true | _ => false end.

Definition digits (port : jsstring) : Prop :=
  port <> [] /\ forall c, In c port -> isDigit c = true.

(** [port] was read off a chunk of the backend's output during [es]. *)
Definition announced (es : list event) (port : jsstring) : Prop :=
  exists text, In (Stdout text) es /\ matchPort text = Some port.

(** The ports that a window can be given during [es]: the preferred one,
    or one that was read off the output of the backend. *)
Definition offered (es : list event) (port : jsstring) : Prop :=
  port = ToString BACKEND_PREFERRED_PORT \/ announced es port.

(** The window that the [then] or [catch] callback of [startBackend]
    creates. *)
Definition first_window (p : promise) : list (list jsstring) :=
  match p with
  | Pending => []
  | Fulfilled port => [[port_argument port]]
  | Failed => [[port_argument (ToString BACKEND_PREFERRED_PORT)]]
  end.

(** What the handlers keep true of the main process. *)
Definition consistent (es : list event) (st : state) : Prop :=
  (if detected st
   then announced es (resolvedPort st)
        /\ env st !! "ACTUAL_BACKEND_PORT" = Some (resolvedPort st)
   else resolvedPort st = ToString BACKEND_PREFERRED_PORT
        /\ env st = env0)
  /\ (forall k, k <> "ACTUAL_BACKEND_PORT" -> env st !! k = env0 !! k)
  /\ (started st = Pending -> detected st = false)
  /\ (detected st = false ->
      Forall (fun args => args = [port_argument (ToString BACKEND_PREFERRED_PORT)])
        (windows st))
  /\ Forall (fun args => exists port, args = [port_argument port] /\ offered es port)
       (windows st).

End Process.
End Main.

(* ===================================================================== *)
(** * frontend/preload.js: what a bridge call settles to                   *)
(* ===================================================================== *)

Module Http.
Import JS Preload.

(** What [fetch] comes back with: it rejects (no connection, a URL that
    does not parse), or it resolves to a response with its [ok] flag and
    its body. *)
Inductive outcome : Type :=
| NetworkError (message : jsstring)
| Answer (ok : bool) (body : jsstring).

Section Json.
(** [res.json()]: the value that the body parses to, or the message of the
    error that the parser throws. *)
Context {A : Type}.
Variable json : jsstring -> A + jsstring.

Definition parsed (body : jsstring) : Renderer.response A :=
  match json body with
  | inl v => Renderer.Resolved v
  | inr message => Renderer.Rejected message
  end.

(** The tail of [apiGet] and [apiPost]:
    [if (!res.ok) throw new Error(await res.text()); return res.json()]. *)
Definition api_result (o : outcome) : Renderer.response A :=
  match o with
  | NetworkError message => Renderer.Rejected message
  | Answer false body => Renderer.Rejected body
  | Answer true body => parsed body
  end.

(** The [then] callback of the three direct [fetch] calls:
    [if (!r.ok) throw new Error(failed); return r.json()]. *)
Definition direct_result (failed : jsstring) (o : outcome) : Renderer.response A :=
  match o with
  | NetworkError message => Renderer.Rejected message
  | Answer false _ => Renderer.Rejected failed
  | Answer true body => parsed body
  end.

(** What the promise of a bridge call settles to, given what its [fetch]
    comes back with; [openExternal] makes no request. *)
Definition settled (o : op) (back : outcome) : option (Renderer.response A) :=
  match o with
  | createAccount _ _ _ _ _ =>
      Some (direct_result (lit "Create account failed") back)
  | rotatePassword _ _ => Some (direct_result (lit "Rotate password failed") back)
  | deleteAccount _ => Some (direct_result (lit "Delete failed") back)
  | openExternal _ => None
  | _ => Some (api_result back)
  end.

End Json.
End Http.

(* ===================================================================== *)
(** * frontend/renderer.js: delete, restore, sync                          *)
(* ===================================================================== *)

Module Handlers.
Import JS Renderer.

(** What [window.emailApi.sync] resolves to, as [doSync] reads it: [null]
    or [undefined], on which [r.fetched] throws, or anything else, with the
    value of its [fetched] property. *)
Inductive syncData : Type :=
| Nullish
| Fetched (fetched : jsval).

Section Locale.
Variable canonicalize : char -> char.
Variable toLowerCase : jsstring -> jsstring.
Context {Date : Type}.
Variable newDate : jsstring -> option Date.
Variable toLocaleString : Date -> jsstring.

(** [loadMessages] up to its [await], and from there on. *)
Definition loadMessages_begin (st : state) : state :=
  with_document (set_status (lit "Loading...")) st.

Definition loadMessages_end (r : response listData) (st : state) : state :=
  match r with
  | Rejected msg =>
      with_document
        (set_status (lit "Error loading messages"
                       ++ (if truthy (VStr msg) then lit ": " ++ msg else [])))
        st
  | Resolved NotAnObject =>
      with_document (set_status (lit "Unexpected response")) st
  | Resolved (Object ms) =>
      let messages := match ms with Some l => l | None => [] end in
      let st :=
        with_document
          (set_list (renderList canonicalize toLowerCase newDate toLocaleString
                       (currentSearch st) messages))
          st in
      let st :=
        with_document
          (set_status
             (lit "Loaded " ++ ToString (VNum (Z.of_nat (length messages)))
                ++ lit " messages"
                ++ (if truthy (VStr (currentSearch st))
                    then lit " (search=" ++ dquote ++ currentSearch st
                           ++ dquote ++ lit ")"
                    else [])))
          st in
      updatePaginationControls (Z.of_nat (length messages)) st
  end.

(** [showDetail(id)] up to its [await], and from there on. *)
Definition showDetail_begin (i : jsval) (st : state) : state :=
  with_document (set_status (lit "Loading message..."))
    (set_vars i (showingTrash st) (currentSearch st) (currentPage st) st).

Definition showDetail_end (r : response message) (st : state) : state :=
  match r with
  | Resolved msg =>
      let st :=
        with_document
          (set_detail
             (field_or (subject msg) (lit "(No Subject)"))
             (ToString (field_val (from_addr msg)) ++ lit " " ++ arrow ++ lit " "
                ++ field_or (to_addrs msg) [] ++ lit " | "
                ++ formatDate newDate toLocaleString (date_received msg))
             (field_or (body_html_sanitized msg)
                (lit "<pre>" ++ escapeHtml (field_or (body_plain msg) [])
                   ++ lit "</pre>"))
             (if hidden msg then lit "none" else lit "inline-block")
             (if hidden msg then lit "inline-block" else lit "none")
             (lit "flex"))
          st in
      with_document (set_status (lit "Message loaded")) st
  | Rejected _ =>
      with_document (set_status (lit "Message not found (maybe deleted)")) st
  end.

(** The detail pane as [doDelete] leaves it: the three texts emptied and
    the toolbar hidden. *)
Definition clear_detail (d : dom) : dom :=
  set_detail [] [] [] (deleteBtnDisplay d) (restoreBtnDisplay d) (lit "none") d.

(** The bridge calls that [doDelete] and [doRestore] await. *)
Definition deleteRequest (st : state) : Preload.op :=
  Preload.deleteMessage (currentMessageId st).
Definition restoreRequest (st : state) : Preload.op :=
  Preload.restoreMessage (currentMessageId st).

(** [doDelete], given the outcome [r] of [deleteMessage] and the outcome
    [rl] of the load that follows a successful delete. *)
Definition doDelete {A} (r : response A) (rl : response listData) (st : state)
    : state :=
  if truthy (currentMessageId st)
  then
    let st := with_document (set_status (lit "Deleting...")) st in
    match r with
    | Resolved _ =>
        let st := with_document (set_status (lit "Deleted")) st in
        let st := set_vars VNull (showingTrash st) (currentSearch st)
                    (currentPage st) st in
        let st := with_document clear_detail st in
        loadMessages canonicalize toLowerCase newDate toLocaleString rl st
    | Rejected _ => with_document (set_status (lit "Delete failed")) st
    end
  else st.

(** [doRestore], given the outcome [r] of [restoreMessage]. After a
    successful restore [loadMessages()] and [showDetail(currentMessageId)]
    are both started and neither is awaited; [load_first] says which of
    the two answers arrives first. *)
Definition doRestore {A} (r : response A) (load_first : bool)
    (rl : response listData) (rd : response message) (st : state) : state :=
  if truthy (currentMessageId st)
  then
    let st := with_document (set_status (lit "Restoring...")) st in
    match r with
    | Resolved _ =>
        let st := with_document (set_status (lit "Restored")) st in
        let st := loadMessages_begin st in
        let st := showDetail_begin (currentMessageId st) st in
        if load_first
        then showDetail_end rd (loadMessages_end rl st)
        else loadMessages_end rl (showDetail_end rd st)
    | Rejected _ => with_document (set_status (lit "Restore failed")) st
    end
  else st.

(** The bridge call of [doSync] for the three input values, when it makes
    one. *)
Definition syncRequest (host user pass : jsstring) : option Preload.op :=
  match trim host, trim user, trim pass with
  | _ :: _, _ :: _, _ :: _ =>
      Some (Preload.sync (VStr (trim host)) (VStr (trim user)) (VStr (trim pass))
              VUndef)
  | _, _, _ => None
  end.

(** [doSync], given the values of the three inputs, the outcome [r] of
    [sync] and the outcome [rl] of the load that follows. *)
Definition doSync (host user pass : jsstring) (r : response syncData)
    (rl : response listData) (st : state) : state :=
  match syncRequest host user pass with
  | None => with_document (set_status (lit "Enter host, username, password")) st
  | Some _ =>
      let st := with_document (set_status (lit "Syncing...")) st in
      match r with
      | Resolved (Fetched n) =>
          let st :=
            with_document
              (set_status (lit "Fetched " ++ ToString n ++ lit " new messages"))
              st in
          loadMessages canonicalize toLowerCase newDate toLocaleString rl st
      | Resolved Nullish | Rejected _ =>
          with_document (set_status (lit "Sync failed")) st
      end
  end.

(** All that the user can do with the list and the detail pane: the events
    of the pager, and the three buttons above. *)
Inductive action : Type :=
| Pager (e : event)
| ClickDelete (r : response unit) (rl : response listData)
| ClickRestore (r : response unit) (load_first : bool)
    (rl : response listData) (rd : response message)
| ClickSync (host user pass : jsstring) (r : response syncData)
    (rl : response listData).

Definition perform (a : action) (st : state) : state :=
  match a with
  | Pager e => dispatch canonicalize toLowerCase newDate toLocaleString e st
  | ClickDelete r rl => doDelete r rl st
  | ClickRestore r load_first rl rd => doRestore r load_first rl rd st
  | ClickSync host user pass r rl => doSync host user pass r rl st
  end.

Definition session (page : dom) (r : response listData) (acts : list action)
    : state :=
  fold_left (fun st a => perform a st) acts
    (boot canonicalize toLowerCase newDate toLocaleString page r).

(** A state with its status line blanked, to compare what else is on the
    page. *)
Definition but_status (st : state) : state := with_document (set_status []) st.

End Locale.
End Handlers.

(* ===================================================================== *)
(** * frontend/renderer.js: the theme setting                              *)
(* ===================================================================== *)

Module Settings.
Import JS.

(** [localStorage]: the stored items, or [None] when every access throws
    (storage disabled). *)
Definition storage : Type := option (gmap string jsstring).

(** What the theme code writes: the [data-theme] attribute of the document
    element and the checkbox of the settings menu. *)
Record appearance : Type := {
  dataTheme : option jsstring;
  darkChecked : bool
}.

(** [a === b] on strings. *)
Fixpoint same (a b : jsstring) : bool :=
  match a, b with
  | [], [] => true
  | x :: a', y :: b' => (x =? y) && same a' b'
  | _, _ => false
  end.

Definition isDark (theme : jsstring) : bool := same theme (lit "dark").

(** [applyTheme(theme)]. *)
Definition applyTheme (theme : jsstring) : option jsstring :=
  if isDark theme then Some (lit "dark") else None.

(** [localStorage.getItem('theme') || 'light'] inside [try], with
    [savedTheme] left at its initial value when the access throws. *)
Definition savedTheme (store : storage) : jsstring :=
  match store with
  | Some items => ToString (or_else (prop items "theme") (VStr (lit "light")))
  | None => lit "light"
  end.

(** The page as the script sets it up when it is loaded. *)
Definition load (store : storage) : appearance :=
  {| dataTheme := applyTheme (savedTheme store);
     darkChecked := isDark (savedTheme store) |}.

(** The [change] handler of the checkbox: the page and the store after
    the user has set the checkbox to [checked]. *)
Definition change (checked : bool) (store : storage) : appearance * storage :=
  let theme := if checked then lit "dark" else lit "light" in
  ({| dataTheme := applyTheme theme; darkChecked := checked |},
   match store with
   | Some items => Some (<[ "theme" := theme ]> items)
   | None => None
   end).

End Settings.

(* ===================================================================== *)
(** * frontend/renderer.js: the search loop of the snippet                 *)
(* ===================================================================== *)

Module SnippetLoop.
Import JS Renderer.

Section Locale.
Variable toLowerCase : jsstring -> jsstring.

(** The loop of [makeSnippet] over the tokens: [idx] starts at [-1] and
    takes the index [i] of a token in the text when that is not [-1] and
    [idx] is [-1] or greater than [i]. *)
Definition firstMatch (text : jsstring) (tokens : list jsstring) : Z :=
  fold_left
    (fun idx t =>
       let i := indexOf (toLowerCase t) (toLowerCase text) in
       if negb (i =? -1)%Z && ((idx =? -1)%Z || (i <? idx)%Z)
       then i else idx)
    tokens (-1)%Z.

End Locale.
End SnippetLoop.

(* ===================================================================== *)
(** * The URL that a request goes to                                       *)
(* ===================================================================== *)

(** [new URL(s)] in [apiGet] and [apiPost], and [fetch(s)] in the three
    direct calls, hand the string [s] to the URL parser of the platform;
    the request goes to the path of the URL that results, not to the text
    of [s]. The parser is modelled for the strings that the bridge builds
    when the port is a number: [http://127.0.0.1:], digits, and a rest
    that is empty or begins with a slash, a backslash, a question mark or
    a hash. For every other string the model gives [None]: the parser
    fails and no request is made, or the string is outside the model. *)
Module Url.
Import JS.

Definition isControlOrSpace (c : char) : bool := c <=? 32.
Definition isTabOrNewline (c : char) : bool := (c =? 9) || (c =? 10) || (c =? 13).

(** The input with its leading and trailing C0 controls and spaces
    stripped, then with every tab and newline removed. *)
Definition strip (s : jsstring) : jsstring :=
  rev (Renderer.dropWhile isControlOrSpace
         (rev (Renderer.dropWhile isControlOrSpace s))).

Definition withoutTabs (s : jsstring) : jsstring :=
  List.filter (fun c => negb (isTabOrNewline c)) s.

(** In an http URL a slash and a backslash both end a segment of the
    path; a question mark and a hash end the path. *)
Definition isSlash (c : char) : bool := (c =? 47) || (c =? 92).
Definition endsPath (c : char) : bool := (c =? 63) || (c =? 35).

Fixpoint equal (a b : jsstring) : bool :=
  match a, b with
  | [], [] => true
  | x :: a', y :: b' => (x =? y) && equal a' b'
  | _, _ => false
  end.

Definition asciiLower (c : char) : char :=
  if (65 <=? c) && (c <=? 90) then c + 32 else c.

(** A single-dot and a double-dot segment, with [%2e] for a dot in either
    case of the letter. *)
Definition isSingleDot (buffer : jsstring) : bool :=
  let b := List.map asciiLower buffer in
  equal b (lit ".") || equal b (lit "%2e").

Definition isDoubleDot (buffer : jsstring) : bool :=
  let b := List.map asciiLower buffer in
  equal b (lit "..") || equal b (lit ".%2e") || equal b (lit "%2e.")
  || equal b (lit "%2e%2e").

(** The characters that the parser copies into a segment as they are,
    whatever the platform: letters, digits, hyphen, dot, underscore and
    tilde. *)
Definition plainChar (c : char) : bool :=
  ((48 <=? c) && (c <=? 57)) || ((65 <=? c) && (c <=? 90))
  || ((97 <=? c) && (c <=? 122))
  || (c =? 45) || (c =? 46) || (c =? 95) || (c =? 126).

(** A text of such characters that is not a dot segment, and one that is
    also not empty. *)
Definition plainSegment (s : jsstring) : Prop :=
  forallb plainChar s = true /\ isSingleDot s = false /\ isDoubleDot s = false.

Definition plain (id : jsstring) : Prop := id <> [] /\ plainSegment id.

Definition portNumber (digits : jsstring) : N :=
  fold_left (fun n c => 10 * n + (c - 48)) digits 0.

(** A port that the parser accepts: digits, possibly none, that make a
    number of at most 16 bits. *)
Definition validPort (port : jsstring) : Prop :=
  forallb Main.isDigit port = true /\ portNumber port <= 65535.

(** The path of an URL as its [pathname] gives it. *)
Definition serialize (path : list jsstring) : jsstring :=
  flat_map (fun seg => 47 :: seg) path.

Section Encoding.
(** The UTF-8 percent-encoding of the text of a segment with the path
    percent-encode set, as the platform does it. *)
Variable encodeSegment : jsstring -> jsstring.

(** The end of a segment in the path state: [raw] is the text read since
    the last separator, [slash] says that a separator ended it. A
    double-dot segment removes the last segment of the path, a single-dot
    segment is dropped, and either leaves an empty segment when it is the
    last one. *)
Definition endSegment (path : list jsstring) (raw : jsstring) (slash : bool)
    : list jsstring :=
  let buffer := encodeSegment raw in
  if isDoubleDot buffer
  then (if slash then removelast path else removelast path ++ [[]])
  else if isSingleDot buffer
  then (if slash then path else path ++ [[]])
  else path ++ [buffer].

(** The path state; [raw] is the text of the current segment, reversed. *)
Fixpoint pathState (path : list jsstring) (raw : jsstring) (input : jsstring)
    : list jsstring :=
  match input with
  | [] => endSegment path (rev raw) false
  | c :: rest =>
      if isSlash c then pathState (endSegment path (rev raw) true) [] rest
      else if endsPath c then endSegment path (rev raw) false
      else pathState path (c :: raw) rest
  end.

(** The path start state of an http URL: a leading separator is skipped. *)
Definition pathStart (input : jsstring) : list jsstring :=
  match input with
  | c :: rest => if isSlash c then pathState [] [] rest else pathState [] [] input
  | [] => pathState [] [] []
  end.

Definition origin : jsstring := lit "http://127.0.0.1:".

(** [new URL(url).pathname]. *)
Definition pathname (url : jsstring) : option jsstring :=
  let input := withoutTabs (strip url) in
  if startsWith origin input
  then
    let after := skipn (length origin) input in
    let port := Main.takeDigits after in
    let rest := skipn (length port) after in
    if (portNumber port <=? 65535)
       && match rest with
          | [] => true
          | c :: _ => isSlash c || endsPath c
          end
    then Some (serialize (pathStart rest))
    else None
  else None.

End Encoding.

(** The percent-encoding of a segment of ASCII text: a control, a space
    and the characters of the path percent-encode set become [%XX]. *)
Definition hexDigit (n : N) : char := if n <? 10 then 48 + n else 55 + n.

Definition inPathSet (c : char) : bool :=
  (c <=? 32) || (c =? 34) || (c =? 35) || (c =? 60) || (c =? 62) || (c =? 63)
  || (c =? 96) || (c =? 123) || (c =? 125) || (c =? 127).

Definition encodeAscii (s : jsstring) : jsstring :=
  flat_map
    (fun c => if inPathSet c then [37; hexDigit (c / 16); hexDigit (c mod 16)]
              else [c])
    s.

End Url.

(* ===================================================================== *)
(** * Sample pages                                                         *)
(* ===================================================================== *)

Module Scenes.
Import JS Renderer.

(** The page with message 7 open in the detail pane. *)
Definition reading : state :=
  {| currentMessageId := VNum 7; showingTrash := false; currentSearch := [];
     currentPage := 1; document := blank_page |}.

(** A parser that accepts every body as the empty object. *)
Definition any_json (body : jsstring) : unit + jsstring := inl tt.

End Scenes.

(* ===================================================================== *)
(** * Properties of the renderer's escaping                                *)
(* ===================================================================== *)

Module RendererFacts.
Import JS Renderer.

Lemma escapeHtml_cons c s : escapeHtml (c :: s) = escapeChar c ++ escapeHtml s.
Proof. reflexivity. Qed.

Lemma escapeHtml_app s1 s2 : escapeHtml (s1 ++ s2) = escapeHtml s1 ++ escapeHtml s2.
Proof. unfold escapeHtml. apply flat_map_app. Qed.

(** The five cases of the table, and the case of every other character. *)
Lemma escapeChar_cases c :
  (c = 38 /\ escapeChar c = lit "&amp;")
  \/ (c = 60 /\ escapeChar c = lit "&lt;")
  \/ (c = 62 /\ escapeChar c = lit "&gt;")
  \/ (c = 34 /\ escapeChar c = lit "&quot;")
  \/ (c = 39 /\ escapeChar c = lit "&#39;")
  \/ (c <> 38 /\ c <> 60 /\ c <> 62 /\ c <> 34 /\ c <> 39 /\ escapeChar c = [c]).
Proof.
  unfold escapeChar, entity.
  destruct (N.eqb_spec c 38); [tauto|].
  destruct (N.eqb_spec c 60); [tauto|].
  destruct (N.eqb_spec c 62); [tauto|].
  destruct (N.eqb_spec c 34); [tauto|].
  destruct (N.eqb_spec c 39); [tauto|].
  do 5 right. tauto.
Qed.

Ltac escape_cases c :=
  let H := fresh "Hc" in
  destruct (escapeChar_cases c)
    as [[-> H]|[[-> H]|[[-> H]|[[-> H]|[[-> H]|(?&?&?&?&?&H)]]]]];
  rewrite H in *; clear H.

Lemma escapeChar_safe c x : In x (escapeChar c) -> ~ markup_char x.
Proof.
  unfold markup_char. escape_cases c; cbn; intros Hin;
    repeat (destruct Hin as [<-|Hin]; [lia|]); try contradiction.
Qed.

Lemma escapeHtml_safe s x : In x (escapeHtml s) -> ~ markup_char x.
Proof.
  unfold escapeHtml. rewrite in_flat_map. intros (c & _ & Hx).
  eapply escapeChar_safe; eauto.
Qed.

(** An ampersand of one piece is the first character of an entity. *)
Lemma escapeChar_amp c pre post :
  escapeChar c = pre ++ 38 :: post -> pre = [] /\ In (escapeChar c) entities.
Proof.
  escape_cases c; intros E;
    repeat (destruct pre as [|? pre]; cbn in E; try discriminate E);
    try (split; [reflexivity|]; cbn; tauto).
  all: try (injection E as E _; lia).
  all: destruct pre; discriminate.
Qed.

Lemma app_split_at {A} (a b pre post : list A) (x : A) :
  a ++ b = pre ++ x :: post ->
  (exists mid, a = pre ++ x :: mid /\ post = mid ++ b)
  \/ (exists pre', pre = a ++ pre' /\ b = pre' ++ x :: post).
Proof.
  revert pre. induction a as [|y a IH]; intros pre E.
  - right. exists pre. auto.
  - destruct pre as [|z pre]; cbn in E; injection E as -> E.
    + left. exists a. auto.
    + destruct (IH _ E) as [(mid & -> & ->)|(pre' & -> & ->)].
      * left. exists mid. auto.
      * right. exists pre'. auto.
Qed.

Lemma escapeHtml_amp s : forall pre post,
  escapeHtml s = pre ++ 38 :: post ->
  exists e rest, In e entities /\ 38 :: post = e ++ rest.
Proof.
  induction s as [|c s IH]; intros pre post E.
  - destruct pre; discriminate.
  - rewrite escapeHtml_cons in E.
    apply app_split_at in E as [(mid & E & ->)|(pre' & -> & E)].
    + destruct (escapeChar_amp _ _ _ E) as [-> Hin].
      exists (escapeChar c), (escapeHtml s). split; [assumption|].
      now rewrite E.
    + eapply IH. eassumption.
Qed.

Lemma escapeHtml_EscapesTo s : EscapesTo s (escapeHtml s).
Proof.
  induction s as [|c s IH]; [constructor|].
  rewrite escapeHtml_cons. escape_cases c; try (constructor; assumption).
Qed.

(** Nothing is lost: two texts with the same escaped form are equal. *)
Lemma escapeHtml_inj s1 : forall s2, escapeHtml s1 = escapeHtml s2 -> s1 = s2.
Proof.
  induction s1 as [|c1 s1 IH]; intros [|c2 s2] E.
  - reflexivity.
  - rewrite escapeHtml_cons in E. escape_cases c2; discriminate.
  - rewrite escapeHtml_cons in E. escape_cases c1; discriminate.
  - rewrite !escapeHtml_cons in E.
    escape_cases c1; escape_cases c2; cbn in E;
      try discriminate E; try (injection E as E; f_equal; auto; fail);
      try (injection E as E; lia).
Qed.

(** C9. For every string [s], [escapeHtml s] contains none of the
    characters less-than, greater-than, double quote and single quote;
    every ampersand of the output begins one of the five entities; and the
    output is [s] read in order, with every character other than the five
    copied unchanged and each of the five replaced by its entity, so that
    no two inputs share an output. *)
Theorem escapeHtml_escapes (s : jsstring) :
  (forall c, In c (escapeHtml s) -> c <> 60 /\ c <> 62 /\ c <> 34 /\ c <> 39)
  /\ (forall pre post, escapeHtml s = pre ++ 38 :: post ->
       exists e rest, In e entities /\ 38 :: post = e ++ rest)
  /\ EscapesTo s (escapeHtml s)
  /\ (forall s', escapeHtml s = escapeHtml s' -> s = s').
Proof.
  repeat split.
  1-4: intros ->; eapply escapeHtml_safe; [eassumption|unfold markup_char; tauto].
  - apply escapeHtml_amp.
  - apply escapeHtml_EscapesTo.
  - apply escapeHtml_inj.
Qed.

Lemma escapeHtml_escapes_witness :
  exists e rest, In e entities /\ 38 :: lit "amp;b" = e ++ rest.
Proof.
  apply (proj1 (proj2 (escapeHtml_escapes (lit "a&b"))) [97] (lit "amp;b")).
  reflexivity.
Defined.

(* ------------------------------------------------------------------- *)
(** ** Highlighting only inserts mark tags                               *)
(* ------------------------------------------------------------------- *)

Lemma Marked_refl s : Marked s s.
Proof. induction s; constructor; assumption. Qed.

Lemma Marked_app_l p s o : Marked s o -> Marked (p ++ s) (p ++ o).
Proof. intros H. induction p; cbn; [assumption|constructor; assumption]. Qed.

Lemma Marked_app_r q s o : Marked s o -> Marked (s ++ q) (o ++ q).
Proof.
  induction 1 as [|c s o _ IH|s o _ IH|s o _ IH|s1 s2 s3 _ IH1 _ IH2].
  - apply Marked_refl.
  - cbn. constructor; assumption.
  - rewrite <- app_assoc. apply marked_open; assumption.
  - rewrite <- app_assoc. apply marked_close; assumption.
  - eapply marked_again; eassumption.
Qed.

Lemma Marked_app s1 o1 s2 o2 :
  Marked s1 o1 -> Marked s2 o2 -> Marked (s1 ++ s2) (o1 ++ o2).
Proof.
  intros H1 H2. eapply marked_again.
  - apply Marked_app_r. eassumption.
  - apply Marked_app_l. assumption.
Qed.

Section Highlight.
Variable canonicalize : char -> char.
Variable toLowerCase : jsstring -> jsstring.
Context {Date : Type}.
Variable newDate : jsstring -> option Date.
Variable toLocaleString : Date -> jsstring.

Lemma markFrom_Marked t s : forall pending,
  Marked s (markFrom canonicalize t pending s).
Proof.
  induction s as [|c s IH]; intros pending; cbn [markFrom]; [constructor|].
  destruct pending as [|[|k]].
  - destruct (matchesAt canonicalize t (c :: s)).
    + destruct (length t) as [|[|k]];
        apply marked_open, marked_keep;
        try apply marked_close; apply IH.
    + apply marked_keep, IH.
  - apply marked_keep, marked_close, IH.
  - apply marked_keep, IH.
Qed.

Lemma markAll_Marked t s : Marked s (markAll canonicalize t s).
Proof.
  destruct t as [|a t]; cbn [markAll]; [|apply markFrom_Marked].
  induction s as [|c s IH]; cbn [flat_map app].
  - apply marked_open. rewrite <- (app_nil_r mark_close).
    apply marked_close. constructor.
  - rewrite <- !app_assoc.
    apply marked_open, marked_close, (marked_keep c s), IH.
Qed.

Lemma marks_fold tokens : forall base out,
  Marked base out ->
  Marked base (fold_left (fun out t => markAll canonicalize t out) tokens out).
Proof.
  induction tokens as [|t tokens IH]; intros base out H; cbn; [assumption|].
  apply IH. eapply marked_again; [eassumption|apply markAll_Marked].
Qed.

Lemma highlight_Marked text tokens :
  Marked (escapeHtml text) (highlight canonicalize text tokens).
Proof.
  destruct text as [|c text]; cbn [highlight]; [constructor|].
  destruct tokens as [|t tokens]; [apply Marked_refl|].
  apply marks_fold, Marked_refl.
Qed.

Lemma highlight_no_tokens text :
  highlight canonicalize text [] = escapeHtml text.
Proof. destruct text; reflexivity. Qed.

Local Abbreviation renderList := (renderList canonicalize toLowerCase newDate toLocaleString).
Local Abbreviation showDetail := (showDetail newDate toLocaleString).
Local Abbreviation formatDate := (formatDate newDate toLocaleString).

(** C2, as the code has it. In [renderList] the subject, the from
    address and the body snippet of every entry are passed through
    [escapeHtml] and then only receive mark tags around the search
    tokens, and the date is passed through [escapeHtml]; without search
    tokens none of the three contains a markup character. What
    [renderList] assigns to the list itself is a constant. In
    [showDetail] the subject and the meta line are assigned as text
    ([textContent]) without escaping, and the body is assigned to
    [innerHTML] as the [body_html_sanitized] of the response when that
    is a non-empty string, unescaped, and otherwise as the escaped
    [body_plain] inside a [pre] element. *)
Theorem rendered_strings :
  (forall currentSearch messages e,
      In e (snd (renderList currentSearch messages)) ->
      exists m S F B,
        In m messages
        /\ innerHTML e
           = entryTemplate S F B (escapeHtml (formatDate (date_received m)))
        /\ Marked (escapeHtml (field_or (subject m) (lit "(No Subject)"))) S
        /\ Marked (escapeHtml (field_or (from_addr m) [])) F
        /\ Marked (escapeHtml (makeSnippet toLowerCase (field_or (body_plain m) [])
                                 (words currentSearch) 140)) B
        /\ (words currentSearch = [] ->
            forall x, In x (S ++ F ++ B) -> ~ markup_char x))
  /\ (forall currentSearch messages,
        fst (renderList currentSearch messages)
        = match messages with [] => no_results | _ => [] end)
  /\ (forall i msg st,
        let d := document (showDetail i (Resolved msg) st) in
        detailSubjectText d = field_or (subject msg) (lit "(No Subject)")
        /\ detailMetaText d
           = ToString (field_val (from_addr msg)) ++ lit " " ++ arrow ++ lit " "
               ++ field_or (to_addrs msg) [] ++ lit " | "
               ++ formatDate (date_received msg)
        /\ detailBodyHtml d
           = match body_html_sanitized msg with
             | Text (c :: html) => c :: html
             | _ => lit "<pre>" ++ escapeHtml (field_or (body_plain msg) [])
                      ++ lit "</pre>"
             end).
Proof.
  split; [|split].
  - intros currentSearch messages e Hin.
    destruct messages as [|m0 messages]; [contradiction|].
    cbn [Renderer.renderList snd] in Hin.
    apply in_map_iff in Hin as (m & <- & Hm).
    exists m, (subjectHtml canonicalize (words currentSearch) m),
      (fromAddrHtml canonicalize (words currentSearch) m),
      (bodySnippetHtml canonicalize toLowerCase (words currentSearch) m).
    split; [assumption|]. split; [reflexivity|].
    split; [apply highlight_Marked|]. split; [apply highlight_Marked|].
    split; [apply highlight_Marked|].
    intros Hw x Hx.
    unfold subjectHtml, fromAddrHtml, bodySnippetHtml in Hx.
    rewrite Hw, !highlight_no_tokens in Hx.
    rewrite !in_app_iff in Hx.
    destruct Hx as [Hx|[Hx|Hx]]; eapply escapeHtml_safe; eassumption.
  - intros currentSearch [|m messages]; reflexivity.
  - intros i msg st. cbn.
    split; [reflexivity|]. split; [reflexivity|].
    destruct (body_html_sanitized msg) as [| |[|c html]]; reflexivity.
Qed.

End Highlight.

Import Samples.

Example escapeHtml_sample :
  escapeHtml (lit "a<b & 'c'") = lit "a&lt;b &amp; &#39;c&#39;".
Proof. reflexivity. Qed.

Example words_sample :
  words (lit "  invoice   acme ") = [lit "invoice"; lit "acme"].
Proof. reflexivity. Qed.

Example highlight_sample :
  highlight ascii_fold (lit "Hello <World> hello") [lit "hello"]
  = lit "<mark>Hello</mark> &lt;World&gt; <mark>hello</mark>".
Proof. reflexivity. Qed.

(** A token can match inside an entity, and inside a tag that an earlier
    token has inserted. *)
Example highlight_inside_entity :
  highlight ascii_fold (lit "R&D") [lit "amp"] = lit "R&<mark>amp</mark>;D".
Proof. reflexivity. Qed.

Example highlight_inside_tag :
  highlight ascii_fold (lit "a") [lit "a"; lit "mark"]
  = lit "<<mark>mark</mark>>a</<mark>mark</mark>>".
Proof. reflexivity. Qed.

Example makeSnippet_sample :
  makeSnippet (List.map ascii_lower)
    (lit "The quick brown fox jumps over the lazy dog and runs away")
    [lit "LAZY"] 20
  = ellipsis ++ lit " fox jumps over the " ++ ellipsis.
Proof. reflexivity. Qed.

(** Without tokens the snippet is escaped by [makeSnippet] and again by
    [highlight]. *)
Example snippet_escaped_twice :
  bodySnippetHtml ascii_fold (List.map ascii_lower) [] plain_mail
  = lit "say hello &amp;amp; goodbye".
Proof. reflexivity. Qed.

Lemma rendered_strings_witness :
  exists m S F B,
    In m [plain_mail]
    /\ innerHTML (renderEntry ascii_fold (List.map ascii_lower) no_date no_locale
                    (words (lit "hello")) plain_mail)
       = entryTemplate S F B
           (escapeHtml (formatDate no_date no_locale (date_received m)))
    /\ Marked (escapeHtml (field_or (subject m) (lit "(No Subject)"))) S
    /\ Marked (escapeHtml (field_or (from_addr m) [])) F
    /\ Marked (escapeHtml (makeSnippet (List.map ascii_lower)
                             (field_or (body_plain m) [])
                             (words (lit "hello")) 140)) B
    /\ (words (lit "hello") = [] ->
        forall x, In x (S ++ F ++ B) -> ~ markup_char x).
Proof.
  apply (proj1 (rendered_strings ascii_fold (List.map ascii_lower) no_date no_locale)
           (lit "hello") [plain_mail]).
  left. reflexivity.
Defined.

(** Where the stated property fails: the [body_html_sanitized] of a
    detail response goes to [innerHTML] as it is, markup included. *)
Lemma detail_body_not_escaped :
  let shown :=
    detailBodyHtml
      (document (showDetail no_date no_locale (VNum 8) (Resolved html_mail) start)) in
  shown = lit "<img src=x onerror=alert(1)>"
  /\ In 60 shown
  /\ shown <> escapeHtml (lit "<img src=x onerror=alert(1)>").
Proof.
  cbv zeta. split; [reflexivity|]. split; [left; reflexivity|].
  vm_compute. discriminate.
Qed.

End RendererFacts.

(* ===================================================================== *)
(** * Properties of the pagination controls                                *)
(* ===================================================================== *)

Module PagerFacts.
Import JS Renderer.

Section Pager.
Variable canonicalize : char -> char.
Variable toLowerCase : jsstring -> jsstring.
Context {Date : Type}.
Variable newDate : jsstring -> option Date.
Variable toLocaleString : Date -> jsstring.

Local Abbreviation loadMessages :=
  (loadMessages canonicalize toLowerCase newDate toLocaleString).
Local Abbreviation dispatch :=
  (dispatch canonicalize toLowerCase newDate toLocaleString).
Local Abbreviation run := (run canonicalize toLowerCase newDate toLocaleString).
Local Abbreviation boot := (boot canonicalize toLowerCase newDate toLocaleString).

(** A load changes the page, never the script variables. *)
Lemma loadMessages_vars r st :
  currentPage (loadMessages r st) = currentPage st
  /\ currentSearch (loadMessages r st) = currentSearch st
  /\ showingTrash (loadMessages r st) = showingTrash st.
Proof. destruct r as [msg|[|ms]]; cbn; auto. Qed.

Lemma loadMessages_page r st : currentPage (loadMessages r st) = currentPage st.
Proof. apply loadMessages_vars. Qed.

(** A load that completes brings both buttons up to date. *)
Lemma loadMessages_pager ms st :
  let st' := loadMessages (Resolved (Object ms)) st in
  let count := Z.of_nat (length (match ms with Some l => l | None => [] end)) in
  prevDisabled (document st') = (currentPage st =? 1)%Z
  /\ nextDisabled (document st') = (count <? PAGE_SIZE)%Z.
Proof. cbn. auto. Qed.

(** A load that does not complete leaves them as they were. *)
Lemma loadMessages_stale r st :
  loaded r = false ->
  prevDisabled (document (loadMessages r st)) = prevDisabled (document st)
  /\ nextDisabled (document (loadMessages r st)) = nextDisabled (document st).
Proof. destruct r as [msg|[|ms]]; cbn; intros H; auto; discriminate. Qed.

Lemma loaded_pager r st :
  loaded r = true ->
  prevDisabled (document (loadMessages r st)) = (currentPage st =? 1)%Z.
Proof.
  destruct r as [msg|[|ms]]; cbn [loaded]; intros H; try discriminate.
  apply loadMessages_pager.
Qed.

Lemma dispatch_page_ok e st : page_ok st -> page_ok (dispatch e st).
Proof.
  unfold page_ok. intros H.
  destruct e as [text|r|r|checked r|r|r|i r]; cbn [Renderer.dispatch].
  - assumption.
  - unfold doSearch. rewrite loadMessages_page. cbn. lia.
  - unfold clearSearch. rewrite loadMessages_page. cbn. lia.
  - unfold trashToggle_onchange. rewrite loadMessages_page. cbn. lia.
  - destruct (prevDisabled (document st)); [assumption|].
    unfold prevPageBtn_onclick.
    destruct (Z.gtb_spec (currentPage st) 1); [|assumption].
    rewrite loadMessages_page. cbn. lia.
  - destruct (nextDisabled (document st)); [assumption|].
    unfold nextPageBtn_onclick. rewrite loadMessages_page. cbn. lia.
  - destruct r; cbn; assumption.
Qed.

Lemma dispatch_prev_synced e st :
  event_loaded e = true -> prev_synced st -> prev_synced (dispatch e st).
Proof.
  unfold prev_synced. intros He H.
  destruct e as [text|r|r|checked r|r|r|i r];
    cbn [Renderer.dispatch event_loaded] in *.
  - assumption.
  - unfold doSearch. rewrite loadMessages_page. now apply loaded_pager.
  - unfold clearSearch. rewrite loadMessages_page. now apply loaded_pager.
  - unfold trashToggle_onchange. rewrite loadMessages_page. now apply loaded_pager.
  - destruct (prevDisabled (document st)) eqn:Hd; [now rewrite Hd|].
    unfold prevPageBtn_onclick.
    destruct (currentPage st >? 1)%Z; [|now rewrite Hd].
    rewrite loadMessages_page. now apply loaded_pager.
  - destruct (nextDisabled (document st)); [assumption|].
    unfold nextPageBtn_onclick. rewrite loadMessages_page. now apply loaded_pager.
  - destruct r; cbn; assumption.
Qed.

Lemma fold_dispatch_page_ok es : forall st,
  page_ok st -> page_ok (fold_left (fun st e => dispatch e st) es st).
Proof.
  induction es as [|e es IH]; intros st H; cbn; [assumption|].
  apply IH, dispatch_page_ok, H.
Qed.

Lemma fold_dispatch_prev_synced es : forall st,
  forallb event_loaded es = true ->
  prev_synced st -> prev_synced (fold_left (fun st e => dispatch e st) es st).
Proof.
  induction es as [|e es IH]; intros st Hes H; cbn; [assumption|].
  cbn in Hes. apply andb_prop in Hes as [He Hes].
  apply IH; [assumption|]. apply dispatch_prev_synced; assumption.
Qed.

Lemma boot_page_ok page r : page_ok (boot page r).
Proof. unfold page_ok, Renderer.boot. rewrite loadMessages_page. cbn. lia. Qed.

(** C8, as the code has it. After the script has started and any
    sequence of events has been handled, whatever the outcome of each
    load, [currentPage] is at least 1, and a new search, clearing the
    search and toggling the trash view set it to 1. The Prev button is
    brought up to date by every load that completes: after such a load
    it is disabled exactly when [currentPage] is 1, and when all loads
    complete this holds in every state. A load that fails or resolves
    to something that is not an object leaves the Prev button, the Next
    button and the page indicator as they were, and so does every event
    whose load does not complete. *)
Theorem pager_invariant (page : dom) (r0 : response listData) (es : list event) :
  let st := run page r0 es in
  (1 <= currentPage st)%Z
  /\ (forall r checked,
        currentPage (dispatch (ClickSearch r) st) = 1%Z
        /\ currentPage (dispatch (ClickClearSearch r) st) = 1%Z
        /\ currentPage (dispatch (ChangeTrashToggle checked r) st) = 1%Z)
  /\ (forall r st0,
        loaded r = true ->
        (prevDisabled (document (loadMessages r st0)) = true
         <-> currentPage (loadMessages r st0) = 1%Z))
  /\ (loaded r0 = true -> forallb event_loaded es = true ->
      (prevDisabled (document st) = true <-> currentPage st = 1%Z))
  /\ (forall r st0,
        loaded r = false ->
        prevDisabled (document (loadMessages r st0)) = prevDisabled (document st0)
        /\ nextDisabled (document (loadMessages r st0))
           = nextDisabled (document st0)
        /\ pageIndicatorText (document (loadMessages r st0))
           = pageIndicatorText (document st0))
  /\ (forall e,
        event_loaded e = false ->
        prevDisabled (document (dispatch e st)) = prevDisabled (document st)).
Proof.
  cbv zeta. split; [|split; [|split; [|split; [|split]]]].
  - apply fold_dispatch_page_ok, boot_page_ok.
  - intros r checked. cbn [Renderer.dispatch].
    unfold doSearch, clearSearch, trashToggle_onchange.
    rewrite !loadMessages_page. cbn. auto.
  - intros r st0 Hr. rewrite loadMessages_page, (loaded_pager _ _ Hr).
    apply Z.eqb_eq.
  - intros Hr0 Hes.
    assert (H : prev_synced (run page r0 es)).
    { apply fold_dispatch_prev_synced; [assumption|].
      unfold prev_synced, Renderer.boot.
      rewrite loadMessages_page. now apply loaded_pager. }
    unfold prev_synced in H. rewrite H. apply Z.eqb_eq.
  - intros r st0 Hr. destruct r as [msg|[|ms]]; cbn in *; auto; discriminate.
  - intros e He.
    destruct e as [text|r|r|checked r|r|r|i r];
      cbn [Renderer.dispatch event_loaded] in *; try discriminate.
    + unfold doSearch. now rewrite (proj1 (loadMessages_stale _ _ He)).
    + unfold clearSearch. now rewrite (proj1 (loadMessages_stale _ _ He)).
    + unfold trashToggle_onchange.
      now rewrite (proj1 (loadMessages_stale _ _ He)).
    + destruct (prevDisabled (document (run page r0 es))) eqn:Hp;
        [assumption|].
      unfold prevPageBtn_onclick.
      destruct (currentPage (run page r0 es) >? 1)%Z; [|assumption].
      now rewrite (proj1 (loadMessages_stale _ _ He)).
    + destruct (nextDisabled (document (run page r0 es))); [reflexivity|].
      unfold nextPageBtn_onclick.
      now rewrite (proj1 (loadMessages_stale _ _ He)).
Qed.

End Pager.

Import Samples.

Lemma pager_invariant_witness :
  let st := run ascii_fold (List.map ascii_lower) no_date no_locale blank_page
              (page_of 50) [ClickNext (page_of 3)] in
  prevDisabled (document st) = true <-> currentPage st = 1%Z.
Proof.
  apply (pager_invariant ascii_fold (List.map ascii_lower) no_date no_locale
           blank_page (page_of 50) [ClickNext (page_of 3)]);
    reflexivity.
Defined.

(** Where the stated property fails: the script starts with a full first
    page, the user clicks Next and that load fails. [currentPage] is 2 and
    the Prev button is still disabled. *)
Lemma prev_stale_after_failed_load :
  let st := run ascii_fold (List.map ascii_lower) no_date no_locale blank_page
              (page_of 50) [ClickNext (Rejected (lit "Failed to fetch"))] in
  currentPage st = 2%Z /\ prevDisabled (document st) = true.
Proof. vm_compute. split; reflexivity. Qed.

End PagerFacts.

(* ===================================================================== *)
(** * Properties of the URL parser                                         *)
(* ===================================================================== *)

Module UrlFacts.
Import JS Url.

Lemma plainChar_cases c :
  plainChar c = true ->
  48 <= c <= 57 \/ 65 <= c <= 90 \/ 97 <= c <= 122
  \/ c = 45 \/ c = 46 \/ c = 95 \/ c = 126.
Proof.
  unfold plainChar.
  rewrite !orb_true_iff, !andb_true_iff, !N.leb_le, !N.eqb_eq. tauto.
Qed.

Lemma plainChar_kept c :
  plainChar c = true ->
  isSlash c = false /\ endsPath c = false
  /\ isControlOrSpace c = false /\ isTabOrNewline c = false.
Proof.
  intros H. apply plainChar_cases in H.
  unfold isSlash, endsPath, isControlOrSpace, isTabOrNewline.
  rewrite !orb_false_iff, !N.eqb_neq, N.leb_gt. lia.
Qed.

Lemma dropWhile_none p s :
  (forall c, In c s -> p c = false) -> Renderer.dropWhile p s = s.
Proof.
  destruct s as [|c s]; intros H; cbn; [reflexivity|].
  now rewrite (H c) by now left.
Qed.

(** A string without controls and spaces goes into the parser as it is. *)
Lemma clean_input s :
  (forall c, In c s -> isControlOrSpace c = false) ->
  withoutTabs (strip s) = s.
Proof.
  intros H. unfold strip.
  rewrite (dropWhile_none _ s H).
  rewrite dropWhile_none by (intros c Hc; apply H; now apply in_rev).
  rewrite rev_involutive. unfold withoutTabs.
  induction s as [|c s IH]; cbn; [reflexivity|].
  assert (Hc : isTabOrNewline c = false).
  { specialize (H c (or_introl eq_refl)).
    unfold isControlOrSpace, isTabOrNewline in *.
    rewrite N.leb_gt in H. rewrite !orb_false_iff, !N.eqb_neq. lia. }
  rewrite Hc. cbn. f_equal. apply IH. intros x Hx. apply H. now right.
Qed.

Lemma startsWith_prefix p s : startsWith p (p ++ s) = true.
Proof. induction p as [|c p IH]; cbn; [reflexivity|]. now rewrite N.eqb_refl. Qed.

Lemma takeDigits_port port rest :
  forallb Main.isDigit port = true ->
  match rest with [] => True | c :: _ => Main.isDigit c = false end ->
  Main.takeDigits (port ++ rest) = port.
Proof.
  induction port as [|d port IH]; cbn; intros Hp Hr.
  - destruct rest as [|c rest]; [reflexivity|]. cbn. now rewrite Hr.
  - apply andb_prop in Hp as [-> Hp]. f_equal. now apply IH.
Qed.

Lemma serialize_visible segs :
  Forall (fun seg => forallb plainChar seg = true) segs ->
  forall c, In c (serialize segs) -> isControlOrSpace c = false.
Proof.
  induction 1 as [|seg segs Hseg _ IH]; cbn; [intros c []|].
  intros c [<-|Hc]; [reflexivity|].
  apply in_app_or in Hc as [Hc|Hc]; [|now apply IH].
  rewrite forallb_forall in Hseg. now apply plainChar_kept, Hseg.
Qed.

Section Encoding.
Variable encodeSegment : jsstring -> jsstring.
Hypothesis encode_plain :
  forall s, forallb plainChar s = true -> encodeSegment s = s.

Lemma endSegment_plain path seg slash :
  plainSegment seg -> endSegment encodeSegment path seg slash = path ++ [seg].
Proof.
  intros (Hp & H1 & H2). unfold endSegment.
  rewrite (encode_plain _ Hp). cbv zeta. now rewrite H1, H2.
Qed.

Lemma pathState_chars seg : forall path raw rest,
  forallb plainChar seg = true ->
  pathState encodeSegment path raw (seg ++ rest)
  = pathState encodeSegment path (rev seg ++ raw) rest.
Proof.
  induction seg as [|c seg IH]; intros path raw rest H; [reflexivity|].
  cbn in H. apply andb_prop in H as [Hc H].
  destruct (plainChar_kept c Hc) as (H1 & H2 & _).
  cbn [app pathState rev]. rewrite H1, H2, IH by assumption.
  now rewrite <- app_assoc.
Qed.

(** A separator ends the segment read so far, the end of the input ends
    the last one. *)
Lemma pathState_slash seg path rest :
  forallb plainChar seg = true ->
  pathState encodeSegment path [] (seg ++ 47 :: rest)
  = pathState encodeSegment (endSegment encodeSegment path seg true) [] rest.
Proof.
  intros H. rewrite pathState_chars by assumption.
  cbn [pathState]. change (isSlash 47) with true. cbv iota.
  now rewrite app_nil_r, rev_involutive.
Qed.

Lemma pathState_end seg path :
  forallb plainChar seg = true ->
  pathState encodeSegment path [] seg = endSegment encodeSegment path seg false.
Proof.
  intros H. rewrite <- (app_nil_r seg) at 1.
  rewrite pathState_chars by assumption.
  cbn [pathState]. now rewrite app_nil_r, rev_involutive.
Qed.

Lemma pathState_plain segs : forall path seg,
  plainSegment seg -> Forall plainSegment segs ->
  pathState encodeSegment path [] (seg ++ serialize segs) = path ++ seg :: segs.
Proof.
  induction segs as [|s segs IH]; intros path seg Hseg Hsegs.
  - cbn [serialize flat_map]. rewrite app_nil_r.
    rewrite pathState_end by apply Hseg. now apply endSegment_plain.
  - apply Forall_cons in Hsegs as [Hs Hsegs].
    change (serialize (s :: segs)) with (47 :: s ++ serialize segs).
    rewrite pathState_slash by apply Hseg.
    rewrite endSegment_plain by assumption.
    rewrite IH by assumption. now rewrite <- app_assoc.
Qed.

(** The path of an URL made of the origin, a valid port and segments of
    plain text is the text of these segments. *)
Lemma pathname_plain port segs :
  validPort port -> segs <> [] -> Forall plainSegment segs ->
  pathname encodeSegment (origin ++ port ++ serialize segs)
  = Some (serialize segs).
Proof.
  intros [Hd Hn] Hne Hsegs. unfold pathname.
  rewrite clean_input.
  2:{ intros c Hc. apply in_app_or in Hc as [Hc|Hc].
      - vm_compute in Hc. intuition (subst; reflexivity).
      - apply in_app_or in Hc as [Hc|Hc].
        + rewrite forallb_forall in Hd. specialize (Hd c Hc).
          unfold Main.isDigit in Hd. unfold isControlOrSpace.
          apply andb_prop in Hd as [Hd _]. rewrite N.leb_le in Hd.
          rewrite N.leb_gt. lia.
        + revert c Hc. apply serialize_visible.
          eapply Forall_impl; [exact Hsegs|]. now intros seg [H _]. }
  cbv zeta. rewrite startsWith_prefix, drop_app_length.
  destruct segs as [|seg segs]; [contradiction|].
  apply Forall_cons in Hsegs as [Hseg Hsegs].
  change (serialize (seg :: segs)) with (47 :: seg ++ serialize segs).
  rewrite takeDigits_port by (assumption || reflexivity).
  rewrite drop_app_length.
  rewrite (proj2 (N.leb_le _ _) Hn). cbn [andb isSlash orb pathStart].
  change (isSlash 47) with true. cbv iota.
  now rewrite pathState_plain.
Qed.

End Encoding.

Lemma not_dot_segment c s :
  asciiLower c <> 46 -> asciiLower c <> 37 ->
  isSingleDot (c :: s) = false /\ isDoubleDot (c :: s) = false.
Proof.
  intros H1 H2. apply N.eqb_neq in H1, H2.
  unfold isSingleDot, isDoubleDot. cbv zeta. cbn [List.map].
  change (lit ".") with [46]. change (lit "%2e") with (37 :: lit "2e").
  change (lit "..") with (46 :: lit "."). change (lit ".%2e") with (46 :: lit "%2e").
  change (lit "%2e.") with (37 :: lit "2e.").
  change (lit "%2e%2e") with (37 :: lit "2e%2e").
  cbn [equal]. rewrite H1, H2. split; reflexivity.
Qed.

Lemma encodeAscii_plain s : forallb plainChar s = true -> encodeAscii s = s.
Proof.
  induction s as [|c s IH]; cbn; [reflexivity|].
  intros H. apply andb_prop in H as [Hc H].
  assert (Hset : inPathSet c = false).
  { apply plainChar_cases in Hc. unfold inPathSet.
    rewrite !orb_false_iff, !N.eqb_neq, N.leb_gt. lia. }
  rewrite Hset. cbn. f_equal. now apply IH.
Qed.

End UrlFacts.

(* ===================================================================== *)
(** * Properties of the preload bridge                                     *)
(* ===================================================================== *)

Module PreloadFacts.
Import JS Preload.

Section Bridge.
Variable env : gmap string jsstring.
Variable argv : list jsstring.

Lemma apiGet_token path params :
  req_headers (apiGet env argv path params) !! "X-Auth-Token"
  = Some (BACKEND_TOKEN env).
Proof. cbn. apply lookup_singleton_eq. Qed.

Lemma apiPost_token path params :
  req_headers (apiPost env argv path params) !! "X-Auth-Token"
  = Some (BACKEND_TOKEN env).
Proof. cbn. apply lookup_singleton_eq. Qed.

Lemma json_headers_token :
  json_headers env !! "X-Auth-Token" = Some (BACKEND_TOKEN env).
Proof.
  unfold json_headers. rewrite lookup_insert_ne by discriminate.
  apply lookup_singleton_eq.
Qed.

(** C4. Every operation of the bridge that issues an HTTP request sends
    the header [X-Auth-Token] with the value [BACKEND_TOKEN]; the only
    operation that issues none is [openExternal], which talks to the
    main process. *)
Theorem requests_carry_token (o : op) :
  match emailApi env argv o with
  | Fetch r => req_headers r !! "X-Auth-Token" = Some (BACKEND_TOKEN env)
  | IpcInvoke _ _ => exists url, o = openExternal url
  end.
Proof.
  destruct o; cbn [emailApi];
    try apply apiGet_token; try apply apiPost_token;
    try apply json_headers_token; try apply lookup_singleton_eq.
  eexists; reflexivity.
Qed.

Lemma request_url (o : op) :
  match emailApi env argv o with
  | Fetch r => exists path, req_url r = BASE env argv ++ path
  | IpcInvoke _ _ => True
  end.
Proof. destruct o; cbn; eauto. Qed.

Lemma uint_digits d :
  Forall (fun c => 48 <= c <= 57) (lit (NilEmpty.string_of_uint d)).
Proof. induction d; cbn; constructor; (lia || assumption). Qed.

Lemma number_chars n :
  Forall (fun c => c = 45 \/ 48 <= c <= 57) (ToString (VNum n)).
Proof.
  assert (D : forall d, Forall (fun c => c = 45 \/ 48 <= c <= 57)
                          (lit (NilZero.string_of_uint d))).
  { intros d.
    assert (H : Forall (fun c => 48 <= c <= 57) (lit (NilZero.string_of_uint d)))
      by (destruct d;
          first [exact (uint_digits (Decimal.D0 Decimal.Nil)) | apply uint_digits]).
    rewrite Forall_forall in *. intros c Hc. right. auto. }
  unfold ToString, NilZero.string_of_int.
  destruct (Z.to_int n) as [d|d]; [apply D|].
  change (lit (String "-" (NilZero.string_of_uint d)))
    with (45 :: lit (NilZero.string_of_uint d)).
  constructor; [now left|apply D].
Qed.

Lemma number_nonempty n : ToString (VNum n) <> [].
Proof.
  unfold ToString, NilZero.string_of_int.
  destruct (Z.to_int n) as [d|d]; [destruct d; discriminate|].
  change (lit (String "-" (NilZero.string_of_uint d)))
    with (45 :: lit (NilZero.string_of_uint d)).
  discriminate.
Qed.

(** The text of a number is plain: digits after an optional hyphen. *)
Lemma number_plain n : Url.plain (ToString (VNum n)).
Proof.
  pose proof (number_chars n) as H. pose proof (number_nonempty n) as Hne.
  split; [assumption|].
  assert (Hp : forall c, c = 45 \/ 48 <= c <= 57 -> Url.plainChar c = true).
  { intros c Hc. unfold Url.plainChar.
    rewrite !orb_true_iff, !andb_true_iff, !N.leb_le, !N.eqb_eq. lia. }
  split.
  - apply forallb_forall. intros c Hc. apply Hp.
    rewrite Forall_forall in H. apply H. now apply list_elem_of_In.
  - destruct (ToString (VNum n)) as [|c s]; [contradiction|].
    apply Forall_cons in H as [Hc _].
    apply UrlFacts.not_dot_segment; unfold Url.asciiLower;
      destruct ((65 <=? c) && (c <=? 90)) eqn:E;
      try (apply andb_prop in E as [E1 E2]; apply N.leb_le in E1, E2); lia.
Qed.

Lemma plain_segment id : Url.plain id -> segment id.
Proof.
  intros (Hne & Hp & _). split; [assumption|]. intros Hin.
  rewrite forallb_forall in Hp. specialize (Hp _ Hin). discriminate.
Qed.

(** The path that a request goes to when its URL is [BASE] followed by
    segments of plain text. *)
Lemma route_path encodeSegment port segs path :
  resolvePort env argv = VStr port ->
  Url.validPort port ->
  (forall s, forallb Url.plainChar s = true -> encodeSegment s = s) ->
  path = Url.serialize segs -> segs <> [] -> Forall Url.plainSegment segs ->
  Url.pathname encodeSegment (BASE env argv ++ path) = Some path.
Proof.
  intros Hport Hvalid Henc -> Hne Hsegs.
  unfold BASE. rewrite Hport. cbn [ToString].
  change (lit "http://127.0.0.1:") with Url.origin.
  rewrite <- app_assoc. now apply UrlFacts.pathname_plain.
Qed.

Local Ltac plain_text := split; [|split]; vm_compute; reflexivity.

Local Ltac route segs :=
  eexists; split; [reflexivity|]; split;
  [ eapply (route_path _ _ segs);
    [ eassumption | eassumption | eassumption
    | cbn [Url.serialize flat_map]; rewrite ?app_nil_r; reflexivity
    | discriminate
    | repeat (apply List.Forall_cons; [first [assumption | plain_text]|]);
      apply List.Forall_nil ]
  | split; constructor; assumption ].


(** *** [resolvePort] *)

Lemma split_no_sep sep v : ~ In sep v -> split sep v = [v].
Proof.
  induction v as [|c v IH]; intros H; cbn; [reflexivity|].
  destruct (N.eqb_spec c sep) as [->|_]; [exfalso; apply H; now left|].
  rewrite IH; [reflexivity|]. intros Hin. apply H. now right.
Qed.

Lemma split_at sep x y :
  ~ In sep x -> split sep (x ++ sep :: y) = x :: split sep y.
Proof.
  induction x as [|c x IH]; intros H; cbn.
  - now rewrite N.eqb_refl.
  - destruct (N.eqb_spec c sep) as [->|_]; [exfalso; apply H; now left|].
    rewrite IH; [reflexivity|]. intros Hin. apply H. now right.
Qed.

Lemma find_first p pre a post :
  (forall x, In x pre -> p x = false) -> p a = true ->
  find p (pre ++ a :: post) = VStr a.
Proof.
  induction pre as [|x pre IH]; intros Hpre Ha; cbn.
  - now rewrite Ha.
  - rewrite (Hpre x) by now left. apply IH; [|assumption].
    intros y Hy. apply Hpre. now right.
Qed.

Lemma find_none p xs : (forall x, In x xs -> p x = false) -> find p xs = VUndef.
Proof.
  induction xs as [|x xs IH]; intros H; cbn; [reflexivity|].
  rewrite (H x) by now left. apply IH. intros y Hy. apply H. now right.
Qed.

Lemma startsWith_app p s : startsWith p (p ++ s) = true.
Proof. induction p as [|c p IH]; cbn; [reflexivity|]. now rewrite N.eqb_refl. Qed.

(** The value that [arg.split('=')[1]] reads off a port argument: the
    text after the first equals sign, up to the next one if any. *)
Lemma port_argument_value v rest :
  ~ In 61 v -> rest = [] \/ (exists r, rest = 61 :: r) ->
  index (split 61 (lit "--backend-port=" ++ v ++ rest)) 1 = VStr v.
Proof.
  intros Hv Hrest.
  change (lit "--backend-port=" ++ v ++ rest)
    with (lit "--backend-port" ++ 61 :: v ++ rest).
  rewrite split_at by (vm_compute; intuition discriminate).
  destruct Hrest as [->|[r ->]].
  - rewrite app_nil_r, split_no_sep by assumption. reflexivity.
  - rewrite split_at by assumption. reflexivity.
Qed.

Lemma port_unset_falsy :
  port_unset env -> truthy (prop env "ACTUAL_BACKEND_PORT") = false.
Proof. unfold port_unset, prop. intros [H|H]; rewrite H; reflexivity. Qed.

Lemma BASE_prefix (o : op) (r : request) :
  emailApi env argv o = Fetch r -> exists path, req_url r = BASE env argv ++ path.
Proof.
  intros E. pose proof (request_url o) as H.
  rewrite E in H. assumption.
Qed.

(** C10, as the code has it. [resolvePort] is a function of the
    environment and the arguments, with this precedence: the value of
    [ACTUAL_BACKEND_PORT] when that is set to a non-empty string;
    otherwise, for the first argument that starts with
    [--backend-port=], the text between its first equals sign and the
    next one (or the end); otherwise [8137]. With neither source,
    [BASE] is [http://127.0.0.1:8137] and every request goes there. *)
Theorem resolvePort_precedence :
  (forall v, env !! "ACTUAL_BACKEND_PORT" = Some v -> v <> [] ->
             resolvePort env argv = VStr v)
  /\ (port_unset env ->
      forall pre v rest post,
        argv = pre ++ (lit "--backend-port=" ++ v ++ rest) :: post ->
        (forall x, In x pre -> startsWith (lit "--backend-port=") x = false) ->
        ~ In 61 v -> rest = [] \/ (exists r, rest = 61 :: r) ->
        resolvePort env argv = VStr v)
  /\ (port_unset env ->
      (forall x, In x argv -> startsWith (lit "--backend-port=") x = false) ->
      resolvePort env argv = VStr (lit "8137")
      /\ BASE env argv = lit "http://127.0.0.1:8137"
      /\ forall o r, emailApi env argv o = Fetch r ->
                     exists path, req_url r = lit "http://127.0.0.1:8137" ++ path).
Proof.
  split; [|split].
  - intros v Hv Hne. unfold resolvePort, prop. rewrite Hv.
    destruct v; [congruence|reflexivity].
  - intros Hunset pre v rest post -> Hpre Hv Hrest.
    unfold resolvePort. rewrite (port_unset_falsy Hunset).
    rewrite find_first by (auto using startsWith_app).
    cbn [truthy app]. apply port_argument_value; assumption.
  - intros Hunset Hargs.
    assert (E : resolvePort env argv = VStr (lit "8137")).
    { unfold resolvePort. rewrite (port_unset_falsy Hunset).
      rewrite find_none by assumption. reflexivity. }
    assert (B : BASE env argv = lit "http://127.0.0.1:8137").
    { unfold BASE. rewrite E. reflexivity. }
    split; [assumption|]. split; [assumption|].
    intros o r Ho. rewrite <- B. eapply BASE_prefix; eassumption.
Qed.

End Bridge.

Example resolvePort_default : resolvePort ∅ [lit "electron"] = VStr (lit "8137").
Proof. reflexivity. Qed.

Example resolvePort_argument :
  resolvePort ∅ [lit "electron"; lit "--backend-port=8140"] = VStr (lit "8140").
Proof. reflexivity. Qed.

Example resolvePort_second_equals :
  resolvePort ∅ [lit "--backend-port=81=40"] = VStr (lit "81").
Proof. reflexivity. Qed.

Example getMessage_request :
  emailApi ∅ [] (getMessage (VNum 42))
  = Fetch {| req_method := GET;
             req_url := lit "http://127.0.0.1:8137/messages/42";
             req_query := [];
             req_headers := {[ "X-Auth-Token" := VStr (lit "dev-token") ]};
             req_body := None |}.
Proof. reflexivity. Qed.



Lemma resolvePort_precedence_witness :
  resolvePort {[ "ACTUAL_BACKEND_PORT" := lit "9001" ]} [lit "--backend-port=8140"]
  = VStr (lit "9001").
Proof.
  apply (proj1 (resolvePort_precedence
                  {[ "ACTUAL_BACKEND_PORT" := lit "9001" ]}
                  [lit "--backend-port=8140"]) (lit "9001")).
  - apply lookup_singleton_eq.
  - discriminate.
Defined.

(** Where the stated property fails: with [ACTUAL_BACKEND_PORT] set to
    the empty string, [resolvePort] does not return that value but goes on
    to the argument. *)
Lemma resolvePort_skips_empty_variable :
  let env : gmap string jsstring := {[ "ACTUAL_BACKEND_PORT" := [] ]} in
  env !! "ACTUAL_BACKEND_PORT" = Some []
  /\ resolvePort env [lit "electron"; lit "--backend-port=8140"] = VStr (lit "8140")
  /\ resolvePort env [lit "electron"; lit "--backend-port=8140"] <> VStr [].
Proof.
  cbv zeta. split; [apply lookup_singleton_eq|].
  unfold resolvePort, prop. rewrite lookup_singleton_eq. cbn.
  split; [reflexivity|discriminate].
Qed.

End PreloadFacts.

(* ===================================================================== *)
(** * Properties of the backend model                                      *)
(* ===================================================================== *)

Module BackendFacts.
Import Backend.
Local Open Scope nat_scope.

(* ------------------------------------------------------------------- *)
(** ** Sanitizer                                                         *)
(* ------------------------------------------------------------------- *)

(** Induction on documents, with the hypothesis for all the children. *)
Lemma node_induction (P : node -> Prop) :
  (forall text, P (TextNode text)) ->
  (forall tag attrs children,
      Forall P children -> P (Element tag attrs children)) ->
  forall n, P n.
Proof.
  intros Htext Helem.
  fix IH 1. intros [text|tag attrs children].
  - apply Htext.
  - apply Helem. induction children as [|c children IHc]; constructor.
    + apply IH.
    + apply IHc.
Qed.

Lemma has_script_element tag attrs children :
  has_script (Element tag attrs children)
  = String.eqb (lower tag) "script" || existsb has_script children.
Proof.
  cbn [has_script]. f_equal.
Qed.

Lemma has_event_handler_element tag attrs children :
  has_event_handler (Element tag attrs children)
  = existsb (fun a => event_handler (fst a)) attrs
    || existsb has_event_handler children.
Proof.
  cbn [has_event_handler]. f_equal.
Qed.

Section SanitizerFacts.
Variable parse : string -> option html.
Variable placeholder : string.
Variable css_background_urls : string -> list string.
Variable css_block_backgrounds : string -> string.

Local Abbreviation clean_attrs := (clean_attrs placeholder css_block_backgrounds).
Local Abbreviation clean_node := (clean_node placeholder css_block_backgrounds).
Local Abbreviation clean := (clean placeholder css_block_backgrounds).
Local Abbreviation sanitize :=
  (sanitize parse placeholder css_background_urls css_block_backgrounds).

Lemma clean_node_element tag attrs children :
  clean_node (Element tag attrs children)
  = if removed_element tag then []
    else [Element tag (clean_attrs tag attrs) (clean children)].
Proof.
  cbn [Backend.clean_node]. destruct (removed_element tag); [reflexivity|].
  do 2 f_equal.
Qed.

Lemma clean_attrs_no_handler tag attrs :
  existsb (fun a => event_handler (fst a)) (clean_attrs tag attrs) = false.
Proof.
  induction attrs as [|[name value] attrs IH];
    cbn [Backend.clean_attrs]; [reflexivity|].
  destruct (event_handler name) eqn:Hn; [assumption|].
  destruct (String.eqb (lower tag) "img" && String.eqb (lower name) "src");
    [|destruct (String.eqb (lower name) "style")];
    cbn [existsb fst]; rewrite Hn; assumption.
Qed.

Lemma clean_node_safe n : Forall safe_node (clean_node n).
Proof.
  induction n as [text|tag attrs children IH] using node_induction.
  - repeat constructor.
  - rewrite clean_node_element.
    destruct (removed_element tag) eqn:Hr; constructor; [|constructor].
    unfold removed_element in Hr. apply orb_false_elim in Hr as [Hs _].
    assert (Hc : Forall safe_node (clean children)).
    { unfold Backend.clean. induction IH as [|c children Hc _ IHc]; cbn.
      - constructor.
      - apply Forall_app. split; assumption. }
    split.
    + rewrite has_script_element, Hs. cbn.
      apply not_true_is_false. intros Hex.
      apply existsb_exists in Hex as (m & Hm & Hsm).
      rewrite Forall_forall in Hc. apply list_elem_of_In in Hm.
      destruct (Hc m Hm) as [E _]. congruence.
    + rewrite has_event_handler_element, clean_attrs_no_handler. cbn.
      apply not_true_is_false. intros Hex.
      apply existsb_exists in Hex as (m & Hm & Hsm).
      rewrite Forall_forall in Hc. apply list_elem_of_In in Hm.
      destruct (Hc m Hm) as [_ E]. congruence.
Qed.

Lemma clean_safe doc : Forall safe_node (clean doc).
Proof.
  unfold Backend.clean. induction doc as [|n doc IH]; cbn; [constructor|].
  apply Forall_app. split; [apply clean_node_safe|assumption].
Qed.

Lemma sanitize_safe raw : Forall safe_node (fst (sanitize raw)).
Proof.
  unfold Backend.sanitize. destruct raw as [text|]; [|constructor].
  destruct (parse text) as [doc|]; cbn [fst].
  - apply clean_safe.
  - repeat constructor.
Qed.

End SanitizerFacts.
(* ------------------------------------------------------------------- *)
(** ** The unique index on (account, external_id)                        *)
(* ------------------------------------------------------------------- *)

Lemma row_keys_In a k m :
  In (a, k) (row_keys m) <-> owner m = a /\ external_id m = Some k.
Proof.
  unfold row_keys. destruct (external_id m) as [k'|]; cbn.
  - split.
    + intros [E|[]]. injection E as -> ->. auto.
    + intros [-> E]. injection E as ->. auto.
  - split; [tauto|]. intros [_ E]. discriminate.
Qed.

Lemma has_key_true a k m :
  has_key a k m = true <-> owner m = a /\ external_id m = Some k.
Proof.
  unfold has_key. rewrite andb_true_iff, Nat.eqb_eq.
  destruct (external_id m) as [k'|].
  - rewrite String.eqb_eq. split; intros [H1 H2]; split; congruence.
  - split; intros [H1 H2]; discriminate.
Qed.

Lemma key_exists_In a k st : key_exists a k st = true <-> In (a, k) (keys st).
Proof.
  unfold key_exists, keys. rewrite existsb_exists, in_flat_map.
  split; intros (m & Hm & H); exists m; (split; [assumption|]).
  - apply row_keys_In, has_key_true, H.
  - apply has_key_true, row_keys_In, H.
Qed.

Lemma row_keys_with_id i m : row_keys (with_id i m) = row_keys m.
Proof. reflexivity. Qed.

Lemma row_keys_with_hidden h m : row_keys (with_hidden h m) = row_keys m.
Proof. reflexivity. Qed.

Lemma insert_keys m urls st st' :
  insert m urls st = Ok st' ->
  keys st' = keys st ++ row_keys m
  /\ forall k, external_id m = Some k -> ~ In (owner m, k) (keys st).
Proof.
  unfold insert. intros H.
  destruct (external_id m) as [k|] eqn:Ek.
  - destruct (key_exists (owner m) k st) eqn:Hk; [discriminate|].
    injection H as <-. split.
    + unfold keys. cbn. rewrite flat_map_app. cbn. now rewrite app_nil_r.
    + intros k' E. injection E as <-. rewrite <- key_exists_In. congruence.
  - injection H as <-. split; [|discriminate].
    unfold keys. cbn. rewrite flat_map_app. cbn. now rewrite app_nil_r.
Qed.

Lemma insert_unique m urls st st' :
  NoDup (keys st) -> insert m urls st = Ok st' -> NoDup (keys st').
Proof.
  intros Hnd H. apply insert_keys in H as [-> Hfresh].
  apply NoDup_app. split; [assumption|]. split.
  - intros [a k] Hin Hin'. apply list_elem_of_In in Hin, Hin'.
    apply row_keys_In in Hin' as [<- Ek]. exact (Hfresh k Ek Hin).
  - unfold row_keys. destruct (external_id m); [apply NoDup_singleton|apply NoDup_nil_2].
Qed.

Lemma set_hidden_keys i h st e : keys (set_hidden i h st e) = keys st.
Proof.
  unfold keys. cbn. induction (messages st) as [|m l IH]; cbn; [reflexivity|].
  rewrite IH. destruct (message_id m =? i); reflexivity.
Qed.

Lemma hide_keys now i st st' : hide now i st = Ok st' -> keys st' = keys st.
Proof.
  unfold hide. destruct (find_message i st) as [m|]; [|discriminate].
  destruct (hidden m); intros H; injection H as <-;
    [reflexivity|apply set_hidden_keys].
Qed.

Lemma restore_keys now i st st' : restore now i st = Ok st' -> keys st' = keys st.
Proof.
  unfold restore. destruct (find_message i st) as [m|]; [|discriminate].
  destruct (hidden m); intros H; injection H as <-;
    [apply set_hidden_keys|reflexivity].
Qed.

Lemma flat_map_filter_unique {A B} (f : A -> list B) (p : A -> bool) l :
  NoDup (flat_map f l) -> NoDup (flat_map f (List.filter p l)).
Proof.
  induction l as [|x l IH]; cbn; [auto|].
  rewrite NoDup_app. intros (Hx & Hdisj & Hl).
  destruct (p x); cbn; [|auto].
  apply NoDup_app. split; [assumption|]. split; [|auto].
  intros y Hy Hy'. apply (Hdisj y Hy).
  apply list_elem_of_In. apply list_elem_of_In in Hy'.
  apply in_flat_map in Hy' as (z & Hz & Hyz). apply in_flat_map.
  exists z. split; [|assumption]. apply filter_In in Hz. tauto.
Qed.

Lemma delete_account_unique acct st :
  NoDup (keys st) -> NoDup (keys (delete_account acct st)).
Proof. unfold keys. cbn. apply flat_map_filter_unique. Qed.

(** Two rows that contribute the same key are the same row. *)
Lemma flat_map_unique_source {A B} (f : A -> list B) l :
  NoDup (flat_map f l) ->
  forall a1 a2 b, In a1 l -> In a2 l -> In b (f a1) -> In b (f a2) -> a1 = a2.
Proof.
  induction l as [|x l IH]; cbn; [contradiction|].
  rewrite NoDup_app. intros (Hx & Hdisj & Hl) a1 a2 b H1 H2 Hb1 Hb2.
  assert (Hclash : forall a, In a l -> In b (f a) -> In b (f x) -> False).
  { intros a Ha Hba Hbx. apply (Hdisj b); apply list_elem_of_In; [assumption|].
    apply in_flat_map. eauto. }
  destruct H1 as [<-|H1], H2 as [<-|H2].
  - reflexivity.
  - exfalso. eauto.
  - exfalso. eauto.
  - eapply IH; eassumption.
Qed.

Section SyncFacts.
Variable resolve_key : Account -> RawMessage -> option string.
Variable parse : string -> option html.
Variable placeholder : string.
Variable css_background_urls : string -> list string.
Variable css_block_backgrounds : string -> string.

Local Abbreviation persist :=
  (persist parse placeholder css_background_urls css_block_backgrounds).
Local Abbreviation sync_loop :=
  (sync_loop resolve_key parse placeholder css_background_urls css_block_backgrounds).
Local Abbreviation sync :=
  (sync resolve_key parse placeholder css_background_urls css_block_backgrounds).
Local Abbreviation step :=
  (step resolve_key parse placeholder css_background_urls css_block_backgrounds).
Local Abbreviation reachable :=
  (reachable resolve_key parse placeholder css_background_urls css_block_backgrounds).

Lemma persist_insert a now key raw st :
  exists safe urls,
    persist a now key raw st = insert (new_message a now key raw safe) urls st.
Proof.
  unfold Backend.persist.
  destruct (sanitize parse placeholder css_background_urls css_block_backgrounds
              (raw_body_html raw)) as [safe urls].
  eauto.
Qed.

Lemma persist_unique a now key raw st st' :
  NoDup (keys st) -> persist a now key raw st = Ok st' -> NoDup (keys st').
Proof.
  destruct (persist_insert a now key raw st) as (safe & urls & ->).
  apply insert_unique.
Qed.

(** The loop handles every message that the adapter yields, and it is
    the adapter alone that can make the cycle fail. *)
Lemma sync_loop_counts a now f : forall st n1 n2 n3,
  let summary := snd (sync_loop a now f st n1 n2 n3) in
  count_fetched summary = n1 + length (yielded f)
  /\ count_inserted summary + count_skipped summary
     = n2 + n3 + length (yielded f)
  /\ failure summary = broken f.
Proof.
  induction f as [|e|raw rest IH]; intros st n1 n2 n3; cbn -[Backend.persist].
  - repeat split; lia.
  - repeat split; lia.
  - destruct (match resolve_key a raw with
              | Some k => key_exists (account_id a) k st
              | None => false
              end).
    + destruct (IH st (S n1) n2 (S n3)) as (H1 & H2 & H3).
      repeat split; [lia|lia|assumption].
    + destruct (persist a now (resolve_key a raw) raw st) as [st'|e].
      * destruct (IH st' (S n1) (S n2) n3) as (H1 & H2 & H3).
        repeat split; [lia|lia|assumption].
      * destruct (IH st (S n1) n2 (S n3)) as (H1 & H2 & H3).
        repeat split; [lia|lia|assumption].
Qed.

Lemma sync_loop_unique a now f : forall st n1 n2 n3,
  NoDup (keys st) -> NoDup (keys (fst (sync_loop a now f st n1 n2 n3))).
Proof.
  induction f as [|e|raw rest IH]; intros st n1 n2 n3 Hnd;
    cbn -[Backend.persist]; try assumption.
  destruct (match resolve_key a raw with
            | Some k => key_exists (account_id a) k st
            | None => false
            end); [now apply IH|].
  destruct (persist a now (resolve_key a raw) raw st) as [st'|e] eqn:Hp;
    [|now apply IH].
  apply IH. eapply persist_unique; eassumption.
Qed.

Lemma step_unique st st' : step st st' -> NoDup (keys st) -> NoDup (keys st').
Proof.
  intros Hstep Hnd. destruct Hstep as [st a|st m urls st' H|st a now f
                                      |st now i st' H|st now i st' H|st acct].
  - exact Hnd.
  - eapply insert_unique; eassumption.
  - apply sync_loop_unique, Hnd.
  - now rewrite (hide_keys _ _ _ _ H).
  - now rewrite (restore_keys _ _ _ _ H).
  - apply delete_account_unique, Hnd.
Qed.

Lemma reachable_unique st : reachable st -> NoDup (keys st).
Proof.
  induction 1 as [|st st' _ IH Hstep]; [apply NoDup_nil_2|].
  eapply step_unique; eassumption.
Qed.

(** *** Syncing the same mail again *)

Lemma insert_keeps_keys m urls st st' x :
  insert m urls st = Ok st' -> In x (keys st) -> In x (keys st').
Proof. intros H Hx. apply insert_keys in H as [-> _]. apply in_or_app. now left. Qed.

Lemma persist_keeps_keys a now key raw st st' x :
  persist a now key raw st = Ok st' -> In x (keys st) -> In x (keys st').
Proof.
  destruct (persist_insert a now key raw st) as (safe & urls & ->).
  apply insert_keeps_keys.
Qed.

Lemma persist_stores_key a now k raw st st' :
  persist a now (Some k) raw st = Ok st' -> In (account_id a, k) (keys st').
Proof.
  destruct (persist_insert a now (Some k) raw st) as (safe & urls & ->).
  intros H. apply insert_keys in H as [-> _].
  apply in_or_app. right. cbn. now left.
Qed.

(** The store refuses only what the orchestrator has already set aside. *)
Lemma persist_ok a now key raw st :
  match key with
  | Some k => key_exists (account_id a) k st
  | None => false
  end = false ->
  exists st', persist a now key raw st = Ok st'.
Proof.
  intros Hseen.
  destruct (persist_insert a now key raw st) as (safe & urls & ->).
  unfold insert. cbn [external_id owner new_message]. rewrite Hseen. eauto.
Qed.

Lemma sync_loop_keeps_keys a now f x : forall st n1 n2 n3,
  In x (keys st) -> In x (keys (fst (sync_loop a now f st n1 n2 n3))).
Proof.
  induction f as [|e|raw rest IH]; intros st n1 n2 n3 Hx;
    cbn -[Backend.persist]; try assumption.
  destruct (match resolve_key a raw with
            | Some k => key_exists (account_id a) k st
            | None => false
            end); [now apply IH|].
  destruct (persist a now (resolve_key a raw) raw st) as [st'|e] eqn:Hp;
    [|now apply IH].
  apply IH. eapply persist_keeps_keys; eassumption.
Qed.

Lemma sync_loop_stores_keys a now f raw k : forall st n1 n2 n3,
  In raw (yielded f) -> resolve_key a raw = Some k ->
  In (account_id a, k) (keys (fst (sync_loop a now f st n1 n2 n3))).
Proof.
  induction f as [|e|raw' rest IH]; intros st n1 n2 n3 Hin Hk;
    cbn [yielded] in Hin; try contradiction.
  cbn -[Backend.persist].
  destruct (match resolve_key a raw' with
            | Some k => key_exists (account_id a) k st
            | None => false
            end) eqn:Hseen.
  - destruct Hin as [->|Hin]; [|now apply IH].
    rewrite Hk in Hseen. apply sync_loop_keeps_keys, key_exists_In, Hseen.
  - destruct (persist_ok a now _ raw' st Hseen) as (st' & Hp). rewrite Hp.
    destruct Hin as [->|Hin]; [|now apply IH].
    rewrite Hk in Hp. apply sync_loop_keeps_keys.
    eapply persist_stores_key; eassumption.
Qed.

Lemma sync_loop_all_seen a now f : forall st n1 n2 n3,
  (forall raw, In raw (yielded f) ->
               exists k, resolve_key a raw = Some k
                         /\ In (account_id a, k) (keys st)) ->
  sync_loop a now f st n1 n2 n3
  = (st, {| count_fetched := n1 + length (yielded f);
            count_inserted := n2;
            count_skipped := n3 + length (yielded f);
            failure := broken f |}).
Proof.
  induction f as [|e|raw rest IH]; intros st n1 n2 n3 Hall;
    cbn -[Backend.persist].
  - now rewrite !Nat.add_0_r.
  - now rewrite !Nat.add_0_r.
  - destruct (Hall raw) as (k & -> & Hk); [now left|].
    apply key_exists_In in Hk. rewrite Hk.
    rewrite IH by (intros raw' Hin; apply Hall; now right).
    do 2 f_equal; lia.
Qed.

(** C1, as the specification has it. In every store that the operations
    can produce, the (account, external_id) pairs of the stored rows
    are distinct: two stored messages of one account with the same
    resolved key are one message. Running a sync a second time on the
    same mail inserts nothing and leaves the store as it was, provided
    that a dedup key can be resolved for each message of that mail. (A
    message without a resolvable key is treated as unique and inserted
    by every sync.) *)
Theorem stored_keys_unique :
  (forall st, reachable st ->
      NoDup (keys st)
      /\ forall m1 m2 k,
          In m1 (messages st) -> In m2 (messages st) ->
          owner m1 = owner m2 ->
          external_id m1 = Some k -> external_id m2 = Some k ->
          m1 = m2)
  /\ (forall a now now' f st,
        (forall raw, In raw (yielded f) -> resolve_key a raw <> None) ->
        let st1 := fst (sync a now f st) in
        fst (sync a now' f st1) = st1
        /\ count_inserted (snd (sync a now' f st1)) = 0).
Proof.
  split.
  - intros st Hr. pose proof (reachable_unique st Hr) as Hnd.
    split; [assumption|].
    intros m1 m2 k H1 H2 Ho E1 E2.
    apply (flat_map_unique_source row_keys (messages st) Hnd m1 m2 (owner m1, k));
      [assumption|assumption| |]; apply row_keys_In; auto.
  - intros a now now' f st Hres. cbv zeta.
    unfold Backend.sync.
    rewrite sync_loop_all_seen; [split; reflexivity|].
    intros raw Hin. destruct (resolve_key a raw) as [k|] eqn:Hk.
    + exists k. split; [reflexivity|].
      eapply sync_loop_stores_keys; eassumption.
    + exfalso. exact (Hres raw Hin Hk).
Qed.

(** C5, on the model of the Sanitizer. Whatever the input, absent,
    well-formed or not, and whatever the parser makes of it, the
    document that the Sanitizer returns contains no [script] element
    and no attribute that is an inline event handler, at any depth.
    The Sanitizer always returns, so a sync handles every message that
    its adapter yields, and only the adapter can make it fail. *)
Theorem sanitizer_output_safe (raw : option string) :
  (forall n,
      In n (fst (sanitize parse placeholder css_background_urls
                   css_block_backgrounds raw)) ->
      has_script n = false /\ has_event_handler n = false)
  /\ (forall a now f st,
        let summary := snd (sync a now f st) in
        count_fetched summary = length (yielded f)
        /\ count_inserted summary + count_skipped summary = length (yielded f)
        /\ failure summary = broken f).
Proof.
  split.
  - intros n Hn.
    pose proof (sanitize_safe parse placeholder css_background_urls
                  css_block_backgrounds raw) as H.
    rewrite Forall_forall in H. apply H, list_elem_of_In, Hn.
  - intros a now f st. apply (sync_loop_counts a now f st 0 0 0).
Qed.

End SyncFacts.

Import BackendSamples.

Example sanitize_sample :
  sanitize one_document "blocked:" no_urls same_css (Some "<div ...")
  = ([Element "div" [("class", "note")]
        [Element "img" [("src", "blocked:")] []; TextNode "hello"]],
     ["http://t.example/p.gif"]).
Proof. reflexivity. Qed.

Example sanitize_fallback :
  sanitize no_parse "blocked:" no_urls same_css (Some "<script>alert(1)</scr")
  = ([Element "pre" [] [TextNode "<script>alert(1)</scr"]], []).
Proof. reflexivity. Qed.

(** The scenario of the specification: an account is seeded with two
    fetched messages that share the external id X123; after the sync the
    store has exactly one message with that id, and one was skipped. *)
Example duplicate_delivery :
  let r := sync_alice 100 (Yield keyed_mail (Yield keyed_mail EndOfMail)) empty in
  keys (fst r) = [(1%nat, "X123")]
  /\ length (messages (fst r)) = 1%nat
  /\ count_fetched (snd r) = 2%nat
  /\ count_inserted (snd r) = 1%nat
  /\ count_skipped (snd r) = 1%nat.
Proof. vm_compute. repeat split. Qed.

Lemma stored_keys_unique_witness :
  let f := Yield keyed_mail (Yield keyed_mail EndOfMail) in
  let st1 := fst (sync_alice 100 f empty) in
  NoDup (keys st1)
  /\ fst (sync_alice 200 f st1) = st1
  /\ count_inserted (snd (sync_alice 200 f st1)) = 0%nat.
Proof.
  cbv zeta. split.
  - apply (proj1 (stored_keys_unique by_provider_id no_parse "blocked:"
                    no_urls same_css)).
    eapply reachable_step; [apply reachable_empty|apply step_sync].
  - apply (proj2 (stored_keys_unique by_provider_id no_parse "blocked:"
                    no_urls same_css) alice 100%Z 200%Z).
    intros raw [<-|[<-|[]]]; discriminate.
Defined.

(** Where the stated property fails: a message for which no key can be
    derived is inserted by the first sync and again by the second, on an
    unchanged mailbox. *)
Lemma resync_inserts_unkeyed_mail :
  let f := Yield anonymous_mail EndOfMail in
  let st1 := fst (sync_alice 100 f empty) in
  count_inserted (snd (sync_alice 200 f st1)) = 1%nat
  /\ length (messages st1) = 1%nat
  /\ length (messages (fst (sync_alice 200 f st1))) = 2%nat.
Proof. vm_compute. repeat split. Qed.

Lemma sanitizer_output_safe_witness :
  has_script (Element "pre" [] [TextNode "<script>alert(1)</scr"]) = false
  /\ has_event_handler (Element "pre" [] [TextNode "<script>alert(1)</scr"]) = false.
Proof.
  apply (proj1 (sanitizer_output_safe by_provider_id no_parse "blocked:"
                  no_urls same_css (Some "<script>alert(1)</scr"))).
  left. reflexivity.
Defined.

(* ------------------------------------------------------------------- *)
(** ** Hide and restore                                                  *)
(* ------------------------------------------------------------------- *)

Lemma with_hidden_same m : with_hidden (hidden m) m = m.
Proof. destruct m; reflexivity. Qed.

Lemma find_message_set_hidden j i h st e :
  find_message j (set_hidden i h st e)
  = option_map (fun m => if message_id m =? i then with_hidden h m else m)
      (find_message j st).
Proof.
  unfold find_message. cbn [messages set_hidden].
  induction (messages st) as [|m l IH]; cbn; [reflexivity|].
  assert (E : message_id (if message_id m =? i then with_hidden h m else m)
              = message_id m) by (destruct (message_id m =? i); reflexivity).
  rewrite E. destruct (message_id m =? j); [reflexivity|assumption].
Qed.

Lemma find_message_id i st m : find_message i st = Some m -> message_id m = i.
Proof.
  unfold find_message. intros H. apply find_some in H as [_ H].
  now apply Nat.eqb_eq.
Qed.

Lemma find_message_set_hidden_same i h st e m :
  find_message i st = Some m ->
  find_message i (set_hidden i h st e) = Some (with_hidden h m).
Proof.
  intros H. rewrite find_message_set_hidden, H. cbn.
  rewrite (find_message_id _ _ _ H), Nat.eqb_refl. reflexivity.
Qed.

Lemma find_message_set_hidden_other j i h st e :
  j <> i -> find_message j (set_hidden i h st e) = find_message j st.
Proof.
  intros Hne. rewrite find_message_set_hidden.
  destruct (find_message j st) as [m|] eqn:H; [|reflexivity]. cbn.
  rewrite (find_message_id _ _ _ H).
  destruct (Nat.eqb_spec j i); [contradiction|reflexivity].
Qed.

Lemma hide_idempotent now now' i st st1 :
  hide now i st = Ok st1 -> hide now' i st1 = Ok st1.
Proof.
  unfold hide at 1. destruct (find_message i st) as [m|] eqn:Hm; [|discriminate].
  destruct (hidden m) eqn:Hh; intros H; injection H as <-.
  - unfold hide. now rewrite Hm, Hh.
  - unfold hide. now rewrite (find_message_set_hidden_same _ _ _ _ _ Hm).
Qed.

Lemma restore_idempotent now now' i st st1 :
  restore now i st = Ok st1 -> restore now' i st1 = Ok st1.
Proof.
  unfold restore at 1. destruct (find_message i st) as [m|] eqn:Hm; [|discriminate].
  destruct (hidden m) eqn:Hh; intros H; injection H as <-.
  - unfold restore. now rewrite (find_message_set_hidden_same _ _ _ _ _ Hm).
  - unfold restore. now rewrite Hm, Hh.
Qed.

(** C6, on the model of the Message Store. [hide] and [restore] are
    idempotent, and each is a no-op on a message that is already in the
    state it leads to. A transition, that is a [hide] of a visible
    message or a [restore] of a hidden one, flips the flag of that
    message and appends one AuditLogEntry. A [hide] followed by a
    [restore] of the same id leaves that message visible and every other
    message as it was: this is the state before the [hide] when the
    message was visible then. *)
Theorem hide_restore_transitions (now now' : Z) (i : nat) (st : Store) :
  (forall st1, hide now i st = Ok st1 -> hide now' i st1 = Ok st1)
  /\ (forall st1, restore now i st = Ok st1 -> restore now' i st1 = Ok st1)
  /\ (forall m, find_message i st = Some m ->
        if hidden m
        then hide now i st = Ok st
             /\ exists st1,
                 restore now i st = Ok st1
                 /\ find_message i st1 = Some (with_hidden false m)
                 /\ audit_log st1
                    = audit_log st
                        ++ [{| audit_account := owner m; audit_message := i;
                               audit_action := act_restore; audit_time := now |}]
        else restore now i st = Ok st
             /\ exists st1,
                 hide now i st = Ok st1
                 /\ find_message i st1 = Some (with_hidden true m)
                 /\ audit_log st1
                    = audit_log st
                        ++ [{| audit_account := owner m; audit_message := i;
                               audit_action := act_delete; audit_time := now |}])
  /\ (forall m st1 st2,
        find_message i st = Some m ->
        hide now i st = Ok st1 -> restore now' i st1 = Ok st2 ->
        find_message i st2 = Some (with_hidden false m)
        /\ (forall j, j <> i -> find_message j st2 = find_message j st)
        /\ (hidden m = false -> forall j, find_message j st2 = find_message j st)).
Proof.
  split; [intros st1; apply hide_idempotent|].
  split; [intros st1; apply restore_idempotent|].
  split.
  - intros m Hm. unfold hide, restore. rewrite Hm.
    destruct (hidden m) eqn:Hh; (split; [reflexivity|]);
      eexists; (split; [reflexivity|]);
      (split; [now apply find_message_set_hidden_same|reflexivity]).
  - intros m st1 st2 Hm Hhide Hrestore.
    assert (H1 : find_message i st1 = Some (with_hidden true m)
                 /\ forall j, j <> i -> find_message j st1 = find_message j st).
    { unfold hide in Hhide. rewrite Hm in Hhide.
      destruct (hidden m) eqn:Hh; injection Hhide as <-.
      - split; [|reflexivity]. rewrite Hm, <- Hh. now rewrite with_hidden_same.
      - split; [now apply find_message_set_hidden_same|].
        intros j Hj. now apply find_message_set_hidden_other. }
    destruct H1 as [H1 H1'].
    unfold restore in Hrestore. rewrite H1 in Hrestore. cbn in Hrestore.
    injection Hrestore as <-.
    assert (E : find_message i (set_hidden i false st1
                  {| audit_account := owner m; audit_message := i;
                     audit_action := act_restore; audit_time := now' |})
                = Some (with_hidden false m)).
    { now rewrite (find_message_set_hidden_same _ _ _ _ _ H1). }
    assert (O : forall j, j <> i ->
                  find_message j (set_hidden i false st1
                    {| audit_account := owner m; audit_message := i;
                       audit_action := act_restore; audit_time := now' |})
                  = find_message j st).
    { intros j Hj. rewrite find_message_set_hidden_other by assumption. auto. }
    split; [exact E|]. split; [exact O|].
    intros Hh j. destruct (Nat.eq_dec j i) as [->|Hj]; [|auto].
    rewrite E, Hm, <- Hh. now rewrite with_hidden_same.
Qed.

Lemma hide_restore_transitions_witness :
  hide 20 1 trashed = Ok trashed
  /\ exists st1,
      restore 10 1 trashed = Ok st1
      /\ option_map hidden (find_message 1 st1) = Some false
      /\ length (audit_log st1) = 2%nat.
Proof.
  destruct (proj1 (proj2 (proj2 (hide_restore_transitions 10 20 1 trashed)))
              _ eq_refl) as [_ (st1 & H1 & H2 & H3)].
  split; [reflexivity|].
  exists st1. split; [exact H1|]. split.
  - rewrite H2. reflexivity.
  - rewrite H3. reflexivity.
Defined.

(** Where the stated property fails: a message that is in the trash is
    hidden (a no-op) and then restored; it ends visible, which is not the
    state it had before the [hide]. *)
Lemma hide_restore_of_trashed_message :
  exists st1 st2,
    hide 10 1 trashed = Ok st1
    /\ restore 20 1 st1 = Ok st2
    /\ visibility trashed = [(1%nat, true)]
    /\ visibility st2 = [(1%nat, false)].
Proof. do 2 eexists. repeat split; reflexivity. Qed.

End BackendFacts.

(* ===================================================================== *)
(** * The pager against the paginated listing                              *)
(* ===================================================================== *)

Module PaginationFacts.
Import JS Renderer.

Lemma insert_by_date_length m l :
  length (Backend.insert_by_date m l) = S (length l).
Proof.
  induction l as [|x l IH]; cbn; [reflexivity|].
  destruct (Backend.date_received x <? Backend.date_received m)%Z; cbn; congruence.
Qed.

Lemma by_date_desc_length l : length (Backend.by_date_desc l) = length l.
Proof.
  unfold Backend.by_date_desc.
  induction l as [|x l IH]; cbn [fold_right]; [reflexivity|].
  rewrite insert_by_date_length, IH. reflexivity.
Qed.

(** A page of the default listing, without search, is what is left of
    the visible messages after the offset, up to [page_size] of them. *)
Lemma list_messages_length page page_size st :
  length (Backend.list_messages None false page page_size [] st)
  = Nat.min page_size (Backend.visible_count st - (page - 1) * page_size).
Proof.
  unfold Backend.list_messages, Backend.visible_count.
  rewrite length_firstn, length_skipn, by_date_desc_length.
  do 3 f_equal. apply filter_ext. intros m. cbn.
  destruct (Backend.hidden m); reflexivity.
Qed.

Section Client.
Variable canonicalize : char -> char.
Variable toLowerCase : jsstring -> jsstring.
Context {Date : Type}.
Variable newDate : jsstring -> option Date.
Variable toLocaleString : Date -> jsstring.

Local Abbreviation loadMessages :=
  (loadMessages canonicalize toLowerCase newDate toLocaleString).

(** C3. [updatePaginationControls] disables the Next button exactly
    when the count it is given is less than [PAGE_SIZE], which is 50.
    So for a page, which holds at most 50 messages (as every page that
    the listing cuts with a page size of 50 does), the client takes a next
    page to exist if and only if the page holds exactly 50; and with 120
    visible messages the third page of 50 has 20 messages and the client
    concludes that there is no next page. *)
Theorem next_page_inferred :
  PAGE_SIZE = 50%Z
  /\ (forall count st,
        nextDisabled (document (updatePaginationControls count st))
        = (count <? PAGE_SIZE)%Z)
  /\ (forall msgs st,
        (length msgs <= 50)%nat ->
        nextDisabled (document (loadMessages (Resolved (Object (Some msgs))) st))
        = false
        <-> length msgs = 50%nat)
  /\ (forall store scope trash page tokens (msgs : list message) st,
        length msgs
        = length (Backend.list_messages scope trash page 50 tokens store) ->
        nextDisabled (document (loadMessages (Resolved (Object (Some msgs))) st))
        = false
        <-> length msgs = 50%nat)
  /\ (forall store (page3 : list message) st,
        Backend.visible_count store = 120%nat ->
        length page3
        = length (Backend.list_messages None false 3 50 [] store) ->
        length page3 = 20%nat
        /\ nextDisabled
             (document (loadMessages (Resolved (Object (Some page3))) st))
           = true).
Proof.
  assert (full : forall (msgs : list message) st,
             (length msgs <= 50)%nat ->
             nextDisabled
               (document (loadMessages (Resolved (Object (Some msgs))) st))
             = false
             <-> length msgs = 50%nat).
  { intros msgs st Hle. cbn. unfold PAGE_SIZE. rewrite Z.ltb_ge. lia. }
  split; [reflexivity|]. split; [reflexivity|]. split; [exact full|]. split.
  - intros store scope trash page tokens msgs st Hlen. apply full.
    rewrite Hlen. unfold Backend.list_messages. apply firstn_le_length.
  - intros store page3 st Hcount Hlen.
    rewrite list_messages_length, Hcount in Hlen. cbn in Hlen.
    split; [assumption|]. cbn. rewrite Hlen. reflexivity.
Qed.

End Client.

Import Samples.

Lemma next_page_inferred_witness :
  length (repeat plain_mail 20) = 20%nat
  /\ nextDisabled
       (document (loadMessages ascii_fold (List.map ascii_lower) no_date no_locale
                    (Resolved (Object (Some (repeat plain_mail 20)))) start))
     = true.
Proof.
  apply (proj2 (proj2 (proj2 (proj2 (next_page_inferred ascii_fold
                                       (List.map ascii_lower) no_date no_locale))))
           BackendSamples.inbox120);
    reflexivity.
Defined.

End PaginationFacts.

(* ===================================================================== *)
(** * Properties of the main process                                       *)
(* ===================================================================== *)

Module MainFacts.
Import JS Main.

Lemma startsWith_split p : forall s,
  startsWith p s = true -> s = p ++ skipn (length p) s.
Proof.
  induction p as [|a p IH]; intros [|b s] H; cbn in *; try discriminate; auto.
  apply andb_prop in H as [Hab H]. apply N.eqb_eq in Hab as ->.
  f_equal. auto.
Qed.

Lemma takeDigits_split s :
  exists rest,
    s = takeDigits s ++ rest
    /\ (forall c, In c (takeDigits s) -> isDigit c = true)
    /\ (rest = [] \/ exists c r, rest = c :: r /\ isDigit c = false).
Proof.
  induction s as [|c s (rest & E & Hd & Hr)]; cbn.
  - exists []. repeat split; auto; intros c [].
  - destruct (isDigit c) eqn:Hc.
    + exists rest. split; [cbn; congruence|]. split; [|assumption].
      intros x [<-|Hx]; auto.
    + exists (c :: s). split; [reflexivity|]. split; [intros x []|].
      right. eauto.
Qed.

Lemma matchPort_step text :
  matchPort text
  = match (if startsWith announcement text
           then takeDigits (skipn (length announcement) text) else []) with
    | (_ :: _) as here => Some here
    | [] => match text with [] => None | _ :: rest => matchPort rest end
    end.
Proof.
  destruct text as [|c text]; [reflexivity|].
  cbn [matchPort]. cbv zeta.
  destruct (if startsWith announcement (c :: text)
            then takeDigits (skipn (length announcement) (c :: text)) else []);
    reflexivity.
Qed.

Lemma matchPort_sound (text port : jsstring) :
  matchPort text = Some port ->
  digits port
  /\ exists pre post,
      text = pre ++ announcement ++ port ++ post
      /\ (post = [] \/ exists c r, post = c :: r /\ isDigit c = false).
Proof.
  revert port.
  induction text as [|c text IH]; intros port H; rewrite matchPort_step in H.
  - cbn in H. discriminate.
  - destruct (startsWith announcement (c :: text)) eqn:Hs.
    + destruct (takeDigits (skipn (length announcement) (c :: text)))
        as [|d ds] eqn:Hd.
      * destruct (IH port H) as (Hp & pre & post & -> & Hpost).
        split; [assumption|]. exists (c :: pre), post. auto.
      * injection H as <-.
        destruct (takeDigits_split (skipn (length announcement) (c :: text)))
          as (rest & E & Hdig & Hrest).
        rewrite Hd in *.
        split; [split; [discriminate|assumption]|].
        exists [], rest. split; [|assumption].
        rewrite <- E. now apply startsWith_split.
    + destruct (IH port H) as (Hp & pre & post & -> & Hpost).
      split; [assumption|]. exists (c :: pre), post. auto.
Qed.

Lemma matchPort_none (text : jsstring) :
  matchPort text = None <->
  forall pre d post,
    text = pre ++ announcement ++ d :: post -> isDigit d = false.
Proof.
  induction text as [|c text IH]; rewrite matchPort_step.
  - split; [|reflexivity]. intros _ pre d post E.
    destruct pre; discriminate.
  - assert (Hhere : forall d post,
               c :: text = announcement ++ d :: post ->
               startsWith announcement (c :: text) = true
               /\ takeDigits (skipn (length announcement) (c :: text))
                  = if isDigit d then d :: takeDigits post else []).
    { intros d post ->. split; [apply PreloadFacts.startsWith_app|].
      rewrite skipn_app, Nat.sub_diag, skipn_all. reflexivity. }
    split.
    + intros H pre d post E.
      destruct pre as [|x pre].
      * destruct (Hhere d post E) as [Hs Ht]. rewrite Hs, Ht in H.
        destruct (isDigit d); [discriminate|reflexivity].
      * cbn in E. injection E as -> E.
        destruct (if startsWith announcement (x :: text)
                  then takeDigits (skipn (length announcement) (x :: text))
                  else []); [|discriminate].
        exact (proj1 IH H pre d post E).
    + intros H.
      destruct (startsWith announcement (c :: text)) eqn:Hs.
      * destruct (takeDigits (skipn (length announcement) (c :: text)))
          as [|d ds] eqn:Hd.
        -- apply IH. intros pre d post E. apply (H (c :: pre) d post).
           cbn. now rewrite E.
        -- exfalso.
           destruct (takeDigits_split (skipn (length announcement) (c :: text)))
             as (rest & E & Hdig & _).
           rewrite Hd in *.
           assert (isDigit d = false).
           { apply (H [] d (ds ++ rest)).
             change (c :: text = announcement ++ (d :: ds) ++ rest).
             rewrite <- E. now apply startsWith_split. }
           rewrite (Hdig d) in *; [discriminate|now left].
      * apply IH. intros pre d post E. apply (H (c :: pre) d post).
        cbn. now rewrite E.
Qed.

(** X1. The port that [startBackend] reads off a chunk of the backend's
    output is a non-empty run of digits that follows the announcement in
    that chunk and is not followed by a further digit; nothing is read
    exactly when the chunk nowhere holds the announcement followed by a
    digit. *)
Theorem matchPort_reads_digits (text : jsstring) :
  (forall port,
      matchPort text = Some port ->
      digits port
      /\ exists pre post,
          text = pre ++ announcement ++ port ++ post
          /\ (post = [] \/ exists c r, post = c :: r /\ isDigit c = false))
  /\ (matchPort text = None <->
      forall pre d post,
        text = pre ++ announcement ++ d :: post -> isDigit d = false).
Proof.
  split; [intros port; apply matchPort_sound|apply matchPort_none].
Qed.

Lemma matchPort_reads_digits_witness :
  digits (lit "8140").
Proof.
  apply (proj1 (matchPort_reads_digits
                  (lit "INFO: Listening on 127.0.0.1:8140 (pid 12)"))
           (lit "8140")).
  reflexivity.
Defined.

Section MainProcess.
Variable env0 : gmap string jsstring.
Variable darwin : bool.

Local Abbreviation preferred := (ToString (BACKEND_PREFERRED_PORT env0)).
Local Abbreviation run := (Main.run env0 darwin).
Local Abbreviation dispatch := (Main.dispatch env0 darwin).

Lemma preferred_port_text :
  exists s, BACKEND_PREFERRED_PORT env0 = VStr s /\ s <> [].
Proof.
  unfold BACKEND_PREFERRED_PORT, or_else, prop.
  destruct (env0 !! "BACKEND_PORT") as [[|c s]|]; cbn;
    eexists; (split; [reflexivity|discriminate]).
Qed.

Lemma token_text :
  exists t, Main.BACKEND_TOKEN env0 = VStr t /\ t <> [].
Proof.
  unfold Main.BACKEND_TOKEN, or_else, prop.
  destruct (env0 !! "BACKEND_TOKEN") as [[|c s]|]; cbn;
    eexists; (split; [reflexivity|discriminate]).
Qed.

Local Ltac fields := cbn [env resolvedPort detected started windows open quit].

Lemma run_snoc es e : run (es ++ [e]) = dispatch e (run es).
Proof. unfold Main.run. now rewrite fold_left_app. Qed.

Lemma announced_snoc es e port : announced es port -> announced (es ++ [e]) port.
Proof.
  intros (text & Hin & H). exists text. split; [|assumption].
  apply in_or_app. now left.
Qed.

Lemma offered_snoc es e port :
  offered env0 es port -> offered env0 (es ++ [e]) port.
Proof. intros [H|H]; [now left|right; now apply announced_snoc]. Qed.

Lemma windows_snoc es e (ws : list (list jsstring)) :
  Forall (fun args => exists port,
              args = [port_argument port] /\ offered env0 es port) ws ->
  Forall (fun args => exists port,
              args = [port_argument port] /\ offered env0 (es ++ [e]) port) ws.
Proof.
  intros H. eapply Forall_impl; [exact H|].
  intros args (port & -> & Hp). exists port. split; [reflexivity|].
  now apply offered_snoc.
Qed.

Lemma consistent_snoc es e st :
  consistent env0 es st -> consistent env0 (es ++ [e]) st.
Proof.
  intros (Hd & Henv & Hp & Hw0 & Hw). repeat split; try assumption.
  - destruct (detected st); [|assumption].
    destruct Hd as [Ha He]. split; [now apply announced_snoc|assumption].
  - now apply windows_snoc.
Qed.

Lemma createWindow_consistent es st :
  consistent env0 es st -> consistent env0 es (createWindow st).
Proof.
  intros (Hd & Henv & Hp & Hw0 & Hw).
  unfold consistent, createWindow. fields.
  split; [assumption|]. split; [assumption|]. split; [assumption|]. split.
  - intros Hn. apply Forall_app. split; [auto|].
    rewrite Hn in Hd. destruct Hd as [-> _]. repeat constructor.
  - apply Forall_app. split; [assumption|]. repeat constructor.
    exists (resolvedPort st). split; [reflexivity|].
    destruct (detected st); [right; tauto|left; tauto].
Qed.

Lemma settle_consistent es p st :
  consistent env0 es st -> p <> Pending -> consistent env0 es (settle p st).
Proof.
  intros H Hp. unfold settle.
  destruct (started st) eqn:Hs; try assumption.
  apply createWindow_consistent.
  destruct H as (Hd & Henv & Hpend & Hw0 & Hw).
  unfold consistent. fields. repeat split; try assumption. contradiction.
Qed.

Lemma dispatch_consistent es e st :
  consistent env0 es st -> consistent env0 (es ++ [e]) (dispatch e st).
Proof.
  intros H. destruct e; cbn [Main.dispatch].
  - unfold on_stdout. destruct (matchPort text) as [port|] eqn:Hm;
      [|now apply consistent_snoc].
    assert (Ha : announced (es ++ [Stdout text]) port).
    { exists text. split; [|assumption]. apply in_or_app. right. now left. }
    apply (consistent_snoc es (Stdout text)) in H.
    destruct H as (Hd & Henv & Hpend & Hw0 & Hw).
    assert (Hk : forall k, k <> "ACTUAL_BACKEND_PORT" ->
                 <[ "ACTUAL_BACKEND_PORT" := port ]> (env st) !! k = env0 !! k).
    { intros k Hk. rewrite lookup_insert_ne by congruence. auto. }
    unfold settle. fields.
    destruct (started st) eqn:Hs.
    + unfold consistent, createWindow. fields.
      split; [split; [assumption|apply lookup_insert_eq]|].
      split; [assumption|]. split; [discriminate|]. split; [discriminate|].
      apply Forall_app. split; [assumption|]. repeat constructor.
      exists port. split; [reflexivity|now right].
    + unfold consistent. fields.
      split; [split; [assumption|apply lookup_insert_eq]|].
      split; [assumption|]. split; [discriminate|]. split; [discriminate|].
      assumption.
    + unfold consistent. fields.
      split; [split; [assumption|apply lookup_insert_eq]|].
      split; [assumption|]. split; [discriminate|]. split; [discriminate|].
      assumption.
  - apply consistent_snoc. unfold on_exit.
    destruct (detected st); [assumption|].
    apply settle_consistent; [assumption|discriminate].
  - apply consistent_snoc. unfold on_timeout.
    destruct (detected st); [assumption|].
    apply settle_consistent; [assumption|discriminate].
  - apply consistent_snoc. unfold on_activate.
    destruct (open st); [now apply createWindow_consistent|assumption].
  - apply consistent_snoc. unfold on_close.
    destruct (open st); [assumption|].
    destruct H as (Hd & Henv & Hpend & Hw0 & Hw).
    unfold consistent. fields. repeat split; assumption.
Qed.

Lemma run_consistent es : consistent env0 es (run es).
Proof.
  induction es as [|e es IH] using rev_ind.
  - unfold consistent. cbn. repeat split; auto.
  - rewrite run_snoc. now apply dispatch_consistent.
Qed.

(** X2. Every window that the main process ever creates is given exactly
    one additional argument, [--backend-port=] followed by the preferred
    port or by a port that was read off the backend's output earlier in
    the run. *)
Theorem windows_carry_offered_port (es : list event) :
  Forall (fun args => exists port,
              args = [port_argument port] /\ offered env0 es port)
    (windows (run es)).
Proof. destruct (run_consistent es) as (_ & _ & _ & _ & H). exact H. Qed.

(** X3. As long as no [activate] event arrives, the windows created are
    the one of the first settlement of [startBackend]: none while the
    promise is pending, one with the announced or preferred port that the
    promise was resolved with, one with the preferred port when the promise
    was rejected. Later announcements, exits and timeouts create no further
    window. *)
Theorem one_window_per_start (es : list event) :
  forallb (fun e => negb (is_activate e)) es = true ->
  windows (run es) = first_window env0 (started (run es)).
Proof.
  induction es as [|e es IH] using rev_ind; intros Hes; [reflexivity|].
  rewrite forallb_app in Hes. apply andb_prop in Hes as [Hes He].
  specialize (IH Hes). rewrite run_snoc.
  destruct (run_consistent es) as (Hd & _ & Hpend & _ & _).
  destruct e; cbn [Main.dispatch]; try discriminate.
  - unfold on_stdout. destruct (matchPort text) as [port|]; [|assumption].
    unfold settle. fields.
    destruct (started (run es)) eqn:Hs; try assumption.
    unfold createWindow. fields. rewrite IH. reflexivity.
  - unfold on_exit. destruct (detected (run es)) eqn:Hdet; [assumption|].
    unfold settle. destruct (started (run es)) eqn:Hs;
      try (rewrite Hs; assumption).
    unfold createWindow. fields. rewrite IH. destruct Hd as [-> _]. reflexivity.
  - unfold on_timeout. destruct (detected (run es)) eqn:Hdet; [assumption|].
    unfold settle. destruct (started (run es)) eqn:Hs;
      try (rewrite Hs; assumption).
    unfold createWindow. fields. rewrite IH. destruct Hd as [-> _]. reflexivity.
  - unfold on_close. destruct (open (run es)); assumption.
Qed.

(** X4. Once a port has been read off the backend's output, a preload
    script that runs in the environment of the main process resolves to
    that port, whatever its arguments are; the port is a run of digits. *)
Theorem preload_reads_detected_port (es : list event) (argv : list jsstring) :
  detected (run es) = true ->
  digits (resolvedPort (run es))
  /\ Preload.resolvePort (env (run es)) argv = VStr (resolvedPort (run es)).
Proof.
  intros Hdet. destruct (run_consistent es) as (Hd & _).
  rewrite Hdet in Hd. destruct Hd as [(text & _ & Hm) He].
  apply matchPort_sound in Hm as [Hdig _]. split; [assumption|].
  unfold Preload.resolvePort, prop. rewrite He.
  destruct (resolvedPort (run es)); [now destruct Hdig|reflexivity].
Qed.

(** X5. While no port has been read off the backend's output, the preload
    script of every window created so far resolves to the preferred port of
    the main process, provided that [ACTUAL_BACKEND_PORT] was not set when
    the main process started, that the preferred port holds no equals
    sign, and that no other port argument precedes the one of the window. *)
Theorem preload_reads_preferred_port (es : list event)
    (pre args post : list jsstring) :
  detected (run es) = false ->
  Preload.port_unset env0 ->
  ~ In 61 preferred ->
  In args (windows (run es)) ->
  (forall x, In x pre -> startsWith (lit "--backend-port=") x = false) ->
  Preload.resolvePort (env (run es)) (pre ++ args ++ post) = VStr preferred.
Proof.
  intros Hdet Hunset Heq Hin Hpre.
  destruct (run_consistent es) as (Hd & _ & _ & Hw0 & _).
  rewrite Hdet in Hd. destruct Hd as [_ He].
  specialize (Hw0 Hdet). rewrite Forall_forall in Hw0.
  apply list_elem_of_In in Hin. apply Hw0 in Hin as ->.
  unfold Preload.resolvePort. rewrite He.
  rewrite (PreloadFacts.port_unset_falsy _ Hunset).
  cbn [app].
  rewrite (PreloadFacts.find_first _ pre _ post Hpre)
    by apply PreloadFacts.startsWith_app.
  cbn [truthy port_argument app lit List.map list_ascii_of_string].
  unfold port_argument.
  rewrite <- (app_nil_r preferred) at 1.
  apply PreloadFacts.port_argument_value; [assumption|now left].
Qed.

(** X6. The backend is spawned with the token and the preferred port of
    the main process in its environment, and a preload script that runs in
    the environment of the main process, at any time, sends that same
    token, which is never the empty string. *)
Theorem token_shared (es : list event) :
  backend_env env0 !! "BACKEND_TOKEN" = Some (Main.BACKEND_TOKEN env0)
  /\ backend_env env0 !! "BACKEND_PORT" = Some (BACKEND_PREFERRED_PORT env0)
  /\ Preload.BACKEND_TOKEN (env (run es)) = Main.BACKEND_TOKEN env0
  /\ exists t, Main.BACKEND_TOKEN env0 = VStr t /\ t <> [].
Proof.
  unfold backend_env. split; [|split; [|split]].
  - rewrite lookup_insert_ne by discriminate. apply lookup_insert_eq.
  - apply lookup_insert_eq.
  - destruct (run_consistent es) as (_ & Henv & _).
    unfold Preload.BACKEND_TOKEN, Main.BACKEND_TOKEN, prop.
    rewrite Henv by discriminate. reflexivity.
  - apply token_text.
Qed.

End MainProcess.

Lemma one_window_per_start_witness :
  windows (Main.run ∅ false [Timeout; Stdout (lit "Listening on 127.0.0.1:9001"); Exit])
  = [[lit "--backend-port=8137"]].
Proof.
  rewrite (one_window_per_start ∅ false); reflexivity.
Defined.

Lemma preload_reads_detected_port_witness :
  Preload.resolvePort
    (env (Main.run ∅ false [Stdout (lit "Listening on 127.0.0.1:9001")]))
    [lit "electron"; lit "--backend-port=8137"]
  = VStr (lit "9001").
Proof.
  apply (preload_reads_detected_port ∅ false
           [Stdout (lit "Listening on 127.0.0.1:9001")]
           [lit "electron"; lit "--backend-port=8137"]).
  reflexivity.
Defined.

Lemma preload_reads_preferred_port_witness :
  Preload.resolvePort (env (Main.run ∅ false [Timeout]))
    ([lit "electron"] ++ [lit "--backend-port=8137"] ++ [lit "--no-sandbox"])
  = VStr (lit "8137").
Proof.
  change (lit "8137") with (ToString (BACKEND_PREFERRED_PORT ∅)).
  apply (preload_reads_preferred_port ∅ false [Timeout]
           [lit "electron"] [lit "--backend-port=8137"] [lit "--no-sandbox"]).
  - reflexivity.
  - left. reflexivity.
  - vm_compute. intuition discriminate.
  - left. reflexivity.
  - intros x [<-|[]]. reflexivity.
Defined.


End MainFacts.

(* ===================================================================== *)
(** * Properties of the bridge calls that the handlers make               *)
(* ===================================================================== *)

Module BridgeFacts.
Import JS Preload Renderer Http Handlers.

Lemma find_holds p xs :
  find p xs = VUndef \/ exists a, find p xs = VStr a /\ p a = true.
Proof.
  induction xs as [|x xs IH]; cbn; [now left|].
  destruct (p x) eqn:Hx; [right; eauto|assumption].
Qed.

Lemma split_not_nil sep s : split sep s <> [].
Proof.
  destruct s as [|c s]; cbn; [discriminate|].
  destruct (c =? sep); [discriminate|].
  destruct (split sep s); discriminate.
Qed.

Section Bridge.
Variable env : gmap string jsstring.
Variable argv : list jsstring.

(** X7. [resolvePort] always returns a string, never [undefined]: an
    argument that starts with [--backend-port=] has a piece after its
    first equals sign. [BASE] is the fixed prefix followed by that
    string. *)
Theorem resolvePort_is_text :
  exists port,
    resolvePort env argv = VStr port
    /\ BASE env argv = lit "http://127.0.0.1:" ++ port.
Proof.
  assert (H : exists port, resolvePort env argv = VStr port).
  { unfold resolvePort, prop.
    destruct (env !! "ACTUAL_BACKEND_PORT") as [[|c v]|]; cbn [truthy];
      try (eexists; reflexivity);
      (destruct (find_holds (startsWith (lit "--backend-port=")) argv)
         as [->|(a & -> & Ha)]; [eexists; reflexivity|];
       apply MainFacts.startsWith_split in Ha;
       destruct a as [|c0 a]; [discriminate|]; cbn [truthy];
       rewrite Ha;
       change (lit "--backend-port=" ++ ?x)
         with (lit "--backend-port" ++ 61 :: x);
       rewrite PreloadFacts.split_at by (vm_compute; intuition discriminate);
       match goal with
       | |- context [split 61 ?x] =>
           pose proof (split_not_nil 61 x); destruct (split 61 x)
       end; [contradiction|eexists; reflexivity]). }
  destruct H as [port H]. exists port. split; [assumption|].
  unfold BASE. now rewrite H.
Qed.

(** X20. A request carries a JSON body exactly when it carries the
    header [Content-Type: application/json]; such a request is a POST or a
    PUT and has no query parameters, and a GET never has a body. *)
Theorem body_and_content_type (o : op) :
  match emailApi env argv o with
  | Fetch r =>
      (req_body r = None <-> req_headers r !! "Content-Type" = None)
      /\ (req_body r <> None ->
          req_headers r !! "Content-Type" = Some (VStr (lit "application/json"))
          /\ req_query r = []
          /\ (req_method r = POST \/ req_method r = PUT))
      /\ (req_method r = GET -> req_body r = None)
  | IpcInvoke _ _ => True
  end.
Proof.
  assert (Hn : ({[ "X-Auth-Token" := BACKEND_TOKEN env ]} : gmap string jsval)
               !! "Content-Type" = None)
    by (apply lookup_singleton_ne; discriminate).
  assert (Hj : json_headers env !! "Content-Type"
               = Some (VStr (lit "application/json")))
    by apply lookup_insert_eq.
  destruct o; cbn [emailApi apiGet apiPost req_body req_headers req_query
                     req_method]; try exact I;
    try (split; [split; [intros _; exact Hn|reflexivity]|];
         split; [intros H; now destruct H|reflexivity]);
    (split; [rewrite Hj; split; discriminate|];
     split; [intros _; repeat split; auto|discriminate]).
Qed.

End Bridge.

Lemma dropWhile_nil p s : dropWhile p s = [] <-> forallb p s = true.
Proof.
  induction s as [|c s IH]; cbn; [tauto|].
  destruct (p c); cbn; [assumption|]. split; discriminate.
Qed.

Lemma dropWhile_head p s c r : dropWhile p s = c :: r -> p c = false.
Proof.
  induction s as [|x s IH]; cbn; [discriminate|].
  destruct (p x) eqn:Hx; [assumption|]. intros [= -> _]. assumption.
Qed.

Lemma forallb_rev (p : char -> bool) s : forallb p (rev s) = forallb p s.
Proof.
  induction s as [|c s IH]; cbn; [reflexivity|].
  rewrite forallb_app, IH. cbn. rewrite andb_true_r. apply andb_comm.
Qed.

(** [trim] gives the empty string exactly for a string of white space. *)
Lemma trim_nil s : trim s = [] <-> forallb isSpace s = true.
Proof.
  unfold trim. split.
  - intros H. apply (f_equal (@rev _)) in H. rewrite rev_involutive in H.
    cbn in H. apply dropWhile_nil in H. rewrite forallb_rev in H.
    destruct (dropWhile isSpace s) as [|c r] eqn:Hd.
    + now apply dropWhile_nil.
    + apply dropWhile_head in Hd. cbn in H. rewrite Hd in H. discriminate.
  - intros H. apply dropWhile_nil in H. rewrite H. reflexivity.
Qed.

Section Calls.
Variable env : gmap string jsstring.
Variable argv : list jsstring.
Variable canonicalize : char -> char.
Variable toLowerCase : jsstring -> jsstring.
Context {Date : Type}.
Variable newDate : jsstring -> option Date.
Variable toLocaleString : Date -> jsstring.

Local Abbreviation loadMessages :=
  (Renderer.loadMessages canonicalize toLowerCase newDate toLocaleString).
Local Abbreviation doSync :=
  (Handlers.doSync canonicalize toLowerCase newDate toLocaleString).

(** X8. The request of a list load: a GET, without a body, of [BASE]
    followed by [/trash] or by [/messages], with the token header and with
    the query parameters [page], the current page, and [page_size], 50, in
    this order; the parameter [search] follows them only outside the trash
    view and only when the search text is not empty, and then holds the
    search text. *)
Theorem load_request (st : state) :
  exists r,
    emailApi env argv (loadRequest st) = Fetch r
    /\ req_method r = GET
    /\ req_url r
       = lit "http://127.0.0.1:" ++ ToString (resolvePort env argv)
           ++ (if showingTrash st then lit "/trash" else lit "/messages")
    /\ req_query r
       = [("page", VNum (currentPage st)); ("page_size", VNum 50)]
           ++ (if negb (showingTrash st) && truthy (VStr (currentSearch st))
               then [("search", VStr (currentSearch st))]
               else [])
    /\ req_body r = None
    /\ req_headers r !! "X-Auth-Token" = Some (BACKEND_TOKEN env).
Proof.
  unfold loadRequest. destruct (showingTrash st).
  - eexists. split; [reflexivity|]. cbn.
    repeat split; apply lookup_singleton_eq.
  - eexists. split; [reflexivity|]. cbn.
    destruct (currentSearch st); repeat split; apply lookup_singleton_eq.
Qed.

Section Answers.
Context {A : Type}.
Variable json : jsstring -> A + jsstring.

(** X9. A list load is rejected exactly when the request fails on the
    network, when the backend answers with a status that is not ok, or
    when the body of an ok answer does not parse, and the error carries
    the network message, the text of the answer or the parser's message.
    The status line then reads [Error loading messages], followed by that
    message when it is not empty, and nothing else on the page or in the
    script variables changes. *)
Theorem load_failure_reported (st : state) (back : outcome) (message : jsstring) :
  (settled json (loadRequest st) back = Some (Rejected message)
   <-> back = NetworkError message
       \/ back = Answer false message
       \/ exists body, back = Answer true body /\ json body = inr message)
  /\ loadMessages (Rejected message) st
     = with_document
         (set_status (lit "Error loading messages"
                        ++ match message with
                           | [] => []
                           | _ :: _ => lit ": " ++ message
                           end))
         st.
Proof.
  split; [|destruct message; reflexivity].
  assert (E : settled json (loadRequest st) back = Some (api_result json back))
    by (unfold loadRequest; destruct (showingTrash st); reflexivity).
  rewrite E. split.
  - intros [= H]. destruct back as [m|[|] body]; cbn in H.
    + left. congruence.
    + unfold parsed in H. destruct (json body) eqn:Hj; [discriminate|].
      right. right. exists body. split; congruence.
    + right. left. congruence.
  - intros [->|[->|(body & -> & Hj)]]; cbn; [reflexivity|reflexivity|].
    unfold parsed. now rewrite Hj.
Qed.

End Answers.

(** X10. [doSync] makes its request exactly when each of the three inputs
    holds a character that is not white space; the request is a POST,
    without a body, of [BASE] followed by [/sync], with the token header
    and with the query parameters [host], [port], [username] and
    [password] in this order, holding the three trimmed values and 993.
    Otherwise it asks for the inputs on the status line and does nothing
    else. *)
Theorem sync_request (host user pass : jsstring) :
  (syncRequest host user pass = None <->
   forallb isSpace host || forallb isSpace user || forallb isSpace pass = true)
  /\ (forall o,
        syncRequest host user pass = Some o ->
        exists r,
          emailApi env argv o = Fetch r
          /\ req_method r = POST
          /\ req_url r
             = lit "http://127.0.0.1:" ++ ToString (resolvePort env argv)
                 ++ lit "/sync"
          /\ req_query r
             = [("host", VStr (trim host)); ("port", VNum 993);
                ("username", VStr (trim user)); ("password", VStr (trim pass))]
          /\ req_body r = None
          /\ req_headers r !! "X-Auth-Token" = Some (BACKEND_TOKEN env))
  /\ (syncRequest host user pass = None ->
      forall r rl st,
        doSync host user pass r rl st
        = with_document (set_status (lit "Enter host, username, password")) st).
Proof.
  split; [|split].
  - pose proof (trim_nil host) as Hh. pose proof (trim_nil user) as Hu.
    pose proof (trim_nil pass) as Hp.
    unfold syncRequest.
    destruct (trim host), (trim user), (trim pass);
      destruct (forallb isSpace host), (forallb isSpace user),
        (forallb isSpace pass); cbn; intuition congruence.
  - unfold syncRequest. intros o H.
    destruct (trim host), (trim user), (trim pass); try discriminate.
    injection H as <-. eexists. split; [reflexivity|]. cbn.
    repeat split; apply lookup_singleton_eq.
  - intros H r rl st. unfold Handlers.doSync. now rewrite H.
Qed.

End Calls.

Lemma load_failure_reported_witness :
  settled Scenes.any_json (loadRequest Samples.start)
    (Answer false (lit "Unauthorized"))
  = Some (Rejected (lit "Unauthorized")).
Proof.
  apply (proj1 (load_failure_reported Samples.ascii_fold
                  (List.map Samples.ascii_lower) Samples.no_date
                  Samples.no_locale Scenes.any_json Samples.start
                  (Answer false (lit "Unauthorized")) (lit "Unauthorized"))).
  right. left. reflexivity.
Defined.

Lemma sync_request_witness :
  exists r,
    emailApi ∅ []
      (sync (VStr (lit "imap.example.org")) (VStr (lit "alice"))
         (VStr (lit "secret")) VUndef)
    = Fetch r
    /\ req_method r = POST
    /\ req_url r = lit "http://127.0.0.1:8137/sync"
    /\ req_query r
       = [("host", VStr (lit "imap.example.org")); ("port", VNum 993);
          ("username", VStr (lit "alice")); ("password", VStr (lit "secret"))]
    /\ req_body r = None
    /\ req_headers r !! "X-Auth-Token" = Some (VStr (lit "dev-token")).
Proof.
  exact (proj1 (proj2 (sync_request ∅ [] Samples.ascii_fold
                         (List.map Samples.ascii_lower) Samples.no_date
                         Samples.no_locale
                         (lit " imap.example.org") (lit "alice ") (lit "secret")))
           (sync (VStr (lit "imap.example.org")) (VStr (lit "alice"))
              (VStr (lit "secret")) VUndef)
           eq_refl).
Defined.

Section Settled.
Context {A : Type}.
Variable json : jsstring -> A + jsstring.

Lemma parsed_resolved back v :
  (exists body, back = Answer true body /\ json body = inl v)
  <-> match back with
      | Answer true body => parsed json body = Resolved v
      | _ => False
      end.
Proof.
  destruct back as [m|[|] body]; unfold parsed.
  - split; [intros (b & E & _); discriminate|contradiction].
  - destruct (json body) eqn:Hj; split.
    + intros (b & [= <-] & E). congruence.
    + intros [= ->]. eauto.
    + intros (b & [= <-] & E). congruence.
    + discriminate.
  - split; [intros (b & E & _); discriminate|contradiction].
Qed.


End Settled.


End BridgeFacts.

(* ===================================================================== *)
(** * Properties of delete, restore and sync                              *)
(* ===================================================================== *)

Module HandlerFacts.
Import JS Renderer Handlers.

Section Page.
Variable canonicalize : char -> char.
Variable toLowerCase : jsstring -> jsstring.
Context {Date : Type}.
Variable newDate : jsstring -> option Date.
Variable toLocaleString : Date -> jsstring.

Local Abbreviation loadMessages :=
  (Renderer.loadMessages canonicalize toLowerCase newDate toLocaleString).
Local Abbreviation showDetail := (Renderer.showDetail newDate toLocaleString).
Local Abbreviation dispatch :=
  (Renderer.dispatch canonicalize toLowerCase newDate toLocaleString).
Local Abbreviation doDelete :=
  (Handlers.doDelete canonicalize toLowerCase newDate toLocaleString).
Local Abbreviation doRestore :=
  (Handlers.doRestore canonicalize toLowerCase newDate toLocaleString).
Local Abbreviation doSync :=
  (Handlers.doSync canonicalize toLowerCase newDate toLocaleString).
Local Abbreviation perform :=
  (Handlers.perform canonicalize toLowerCase newDate toLocaleString).
Local Abbreviation session :=
  (Handlers.session canonicalize toLowerCase newDate toLocaleString).

(** The two halves of a load, and of opening a message, make up the
    whole. *)
Lemma loadMessages_halves r st :
  loadMessages r st
  = loadMessages_end canonicalize toLowerCase newDate toLocaleString r
      (loadMessages_begin st).
Proof. destruct r as [msg|[|ms]]; reflexivity. Qed.

Lemma showDetail_halves i r st :
  showDetail i r st
  = showDetail_end newDate toLocaleString r (showDetail_begin i st).
Proof. destruct r; reflexivity. Qed.

(** A load leaves the selection and the detail pane alone. *)
Lemma loadMessages_detail r st :
  currentMessageId (loadMessages r st) = currentMessageId st
  /\ detailSubjectText (document (loadMessages r st))
     = detailSubjectText (document st)
  /\ detailMetaText (document (loadMessages r st)) = detailMetaText (document st)
  /\ detailBodyHtml (document (loadMessages r st)) = detailBodyHtml (document st)
  /\ detailToolbarDisplay (document (loadMessages r st))
     = detailToolbarDisplay (document st).
Proof. destruct r as [msg|[|ms]]; cbn; auto. Qed.

(** X11. [doDelete] does nothing when no message is selected. When the
    backend refuses, only the status line changes, so the selection is
    kept. When the backend accepts, the selection is dropped, the detail
    pane is emptied and its toolbar hidden, whatever the list load that
    follows comes back with; a second click on Delete then does nothing. *)
Theorem delete_clears_selection {A : Type} (r : response A)
    (rl : response listData) (st : state) :
  (truthy (currentMessageId st) = false -> doDelete r rl st = st)
  /\ (truthy (currentMessageId st) = true ->
      match r with
      | Rejected _ =>
          doDelete r rl st = with_document (set_status (lit "Delete failed")) st
      | Resolved _ =>
          let st' := doDelete r rl st in
          currentMessageId st' = VNull
          /\ detailSubjectText (document st') = []
          /\ detailMetaText (document st') = []
          /\ detailBodyHtml (document st') = []
          /\ detailToolbarDisplay (document st') = lit "none"
          /\ forall (r' : response A) rl', doDelete r' rl' st' = st'
      end).
Proof.
  unfold Handlers.doDelete. split; intros H; rewrite H; [reflexivity|].
  destruct r as [msg|x]; [reflexivity|]. cbv zeta.
  match goal with
  | |- context [Renderer.loadMessages _ _ _ _ rl ?s] =>
      destruct (loadMessages_detail rl s) as (E1 & E2 & E3 & E4 & E5)
  end.
  rewrite E1, E2, E3, E4, E5. cbn. repeat split.
Qed.

(** X12. When a message cannot be fetched, [showDetail] has already made
    it the selected one: Delete and Restore now address that message,
    while the detail pane, apart from the status line, still shows what it
    showed before. *)
Theorem failed_detail_moves_selection (i : jsval) (message : jsstring)
    (st : state) :
  let st' := showDetail i (Rejected message) st in
  deleteRequest st' = Preload.deleteMessage i
  /\ restoreRequest st' = Preload.restoreMessage i
  /\ document st'
     = set_status (lit "Message not found (maybe deleted)") (document st)
  /\ showingTrash st' = showingTrash st
  /\ currentSearch st' = currentSearch st
  /\ currentPage st' = currentPage st.
Proof. cbn. repeat split. Qed.

(** X13. After a successful restore the list load and the detail load
    are both under way; the page ends up as if the two had run one after
    the other in the order in which their answers arrive, and the two
    orders differ in the status line only. *)
Theorem restore_in_order_of_arrival {A : Type} (x : A)
    (rl : response listData) (rd : response message) (st : state) :
  truthy (currentMessageId st) = true ->
  doRestore (Resolved x) true rl rd st
  = showDetail (currentMessageId st) rd (loadMessages rl st)
  /\ doRestore (Resolved x) false rl rd st
     = loadMessages rl (showDetail (currentMessageId st) rd st)
  /\ but_status (doRestore (Resolved x) true rl rd st)
     = but_status (doRestore (Resolved x) false rl rd st).
Proof.
  intros H. unfold Handlers.doRestore. rewrite H.
  destruct rl as [msg|[|ms]], rd as [msg'|m]; repeat split.
Qed.

Lemma doDelete_vars {A : Type} (r : response A) rl st :
  showingTrash (doDelete r rl st) = showingTrash st
  /\ currentSearch (doDelete r rl st) = currentSearch st
  /\ currentPage (doDelete r rl st) = currentPage st.
Proof.
  unfold Handlers.doDelete. destruct (truthy (currentMessageId st)); [|auto].
  destruct r; [cbn; auto|]. cbv zeta.
  destruct rl as [msg|[|ms]]; cbn; auto.
Qed.

Lemma doRestore_vars {A : Type} (r : response A) first rl rd st :
  showingTrash (doRestore r first rl rd st) = showingTrash st
  /\ currentSearch (doRestore r first rl rd st) = currentSearch st
  /\ currentPage (doRestore r first rl rd st) = currentPage st.
Proof.
  unfold Handlers.doRestore. destruct (truthy (currentMessageId st)); [|auto].
  destruct r; [cbn; auto|]. cbv zeta.
  destruct first, rl as [msg|[|ms]], rd; cbn; auto.
Qed.

Lemma doSync_vars host user pass r rl st :
  showingTrash (doSync host user pass r rl st) = showingTrash st
  /\ currentSearch (doSync host user pass r rl st) = currentSearch st
  /\ currentPage (doSync host user pass r rl st) = currentPage st.
Proof.
  unfold Handlers.doSync. destruct (syncRequest host user pass); [|cbn; auto].
  destruct r as [msg|[|n]]; try (cbn; auto). cbv zeta.
  destruct rl as [msg|[|ms]]; cbn; auto.
Qed.

Lemma perform_page_ok a st : page_ok st -> page_ok (perform a st).
Proof.
  unfold page_ok. intros H. destruct a; cbn [Handlers.perform].
  - now apply PagerFacts.dispatch_page_ok.
  - destruct (doDelete_vars r rl st) as (_ & _ & ->). assumption.
  - destruct (doRestore_vars r load_first rl rd st) as (_ & _ & ->). assumption.
  - destruct (doSync_vars host user pass r rl st) as (_ & _ & ->). assumption.
Qed.

(** X14. Under every sequence of user actions, the pager events as well
    as Delete, Restore and Sync with any outcome of their calls,
    [currentPage] stays at least 1; and the three buttons never change
    the view, the search text or the page number. *)
Theorem session_page_ok (page : dom) (r0 : response listData)
    (acts : list action) :
  (1 <= currentPage (session page r0 acts))%Z
  /\ (forall a st,
        (forall e, a <> Pager e) ->
        showingTrash (perform a st) = showingTrash st
        /\ currentSearch (perform a st) = currentSearch st
        /\ currentPage (perform a st) = currentPage st).
Proof.
  split.
  - unfold Handlers.session.
    assert (H : forall st, page_ok st ->
                page_ok (fold_left (fun st a => perform a st) acts st)).
    { induction acts as [|a acts IH]; intros st H; cbn; [assumption|].
      apply IH, perform_page_ok, H. }
    apply H, PagerFacts.boot_page_ok.
  - intros a st Ha. destruct a; cbn [Handlers.perform].
    + now destruct (Ha e).
    + apply doDelete_vars.
    + apply doRestore_vars.
    + apply doSync_vars.
Qed.

(** X15. From a page whose Next button is enabled, Next followed by Prev
    comes back to the same page number, view and search text, provided
    that the load started by Next completes (which is what enables Prev);
    and the handler of Prev does nothing at all on page 1. *)
Theorem next_then_prev (r1 r2 : response listData) (st : state) :
  (1 <= currentPage st)%Z ->
  nextDisabled (document st) = false ->
  loaded r1 = true ->
  (let st' := dispatch (ClickPrev r2) (dispatch (ClickNext r1) st) in
   currentPage st' = currentPage st
   /\ showingTrash st' = showingTrash st
   /\ currentSearch st' = currentSearch st)
  /\ (currentPage st = 1%Z ->
      prevPageBtn_onclick canonicalize toLowerCase newDate toLocaleString r2 st
      = st).
Proof.
  intros Hp Hn Hl. split.
  - cbn [Renderer.dispatch]. rewrite Hn. unfold nextPageBtn_onclick.
    rewrite (PagerFacts.loaded_pager _ _ _ _ _ _ Hl).
    cbn [currentPage set_vars].
    destruct (Z.eqb_spec (currentPage st + 1) 1) as [E|_]; [lia|].
    unfold prevPageBtn_onclick.
    destruct (PagerFacts.loadMessages_vars canonicalize toLowerCase newDate
                toLocaleString r1
                (set_vars (currentMessageId st) (showingTrash st)
                   (currentSearch st) (currentPage st + 1)%Z st))
      as (E1 & E2 & E3).
    rewrite E1, E2, E3. cbn [currentPage currentSearch showingTrash set_vars].
    destruct (Z.gtb_spec (currentPage st + 1) 1) as [_|E]; [|lia].
    match goal with
    | |- context [Renderer.loadMessages _ _ _ _ r2 ?s] =>
        destruct (PagerFacts.loadMessages_vars canonicalize toLowerCase newDate
                    toLocaleString r2 s) as (F1 & F2 & F3)
    end.
    rewrite F1, F2, F3. cbn. repeat split. lia.
  - intros E. unfold prevPageBtn_onclick. rewrite E. reflexivity.
Qed.

(** X22. A list load that completes shows one entry per message of the
    answer, in the order of the answer; a click on an entry opens the
    message of that entry, and an entry is marked hidden exactly when its
    message is. The list shows the [No results] markup exactly when the
    answer holds no message. *)
Theorem entries_follow_messages (ms : list message) (st : state) :
  let st' := loadMessages (Resolved (Object (Some ms))) st in
  List.map onclick (listChildren (document st')) = List.map id ms
  /\ List.map className (listChildren (document st'))
     = List.map (fun m => lit "msg" ++ (if hidden m then lit " hidden" else []))
         ms
  /\ (listHtml (document st') = no_results <-> ms = [])
  /\ (listHtml (document st') = [] <-> ms <> []).
Proof.
  cbv zeta. cbn [Renderer.loadMessages].
  unfold updatePaginationControls, with_document.
  cbn [document listChildren listHtml set_pager set_status set_list
         currentSearch].
  unfold renderList. destruct ms as [|m ms]; cbn [fst snd].
  - repeat split; try discriminate; congruence.
  - rewrite !map_map. cbn [renderEntry onclick className].
    repeat split; try discriminate.
Qed.

End Page.

Lemma delete_clears_selection_witness :
  currentMessageId
    (Handlers.doDelete Samples.ascii_fold (List.map Samples.ascii_lower)
       Samples.no_date Samples.no_locale (Resolved tt) (Samples.page_of 3)
       Scenes.reading)
  = VNull.
Proof.
  exact (proj1 (proj2 (delete_clears_selection Samples.ascii_fold
                         (List.map Samples.ascii_lower) Samples.no_date
                         Samples.no_locale (Resolved tt) (Samples.page_of 3)
                         Scenes.reading)
                  eq_refl)).
Defined.

Lemma restore_in_order_of_arrival_witness :
  Handlers.doRestore Samples.ascii_fold (List.map Samples.ascii_lower)
    Samples.no_date Samples.no_locale (Resolved tt) true (Samples.page_of 3)
    (Resolved Samples.plain_mail) Scenes.reading
  = Renderer.showDetail Samples.no_date Samples.no_locale (VNum 7)
      (Resolved Samples.plain_mail)
      (Renderer.loadMessages Samples.ascii_fold (List.map Samples.ascii_lower)
         Samples.no_date Samples.no_locale (Samples.page_of 3) Scenes.reading).
Proof.
  apply (restore_in_order_of_arrival Samples.ascii_fold
           (List.map Samples.ascii_lower) Samples.no_date Samples.no_locale
           tt (Samples.page_of 3) (Resolved Samples.plain_mail) Scenes.reading).
  reflexivity.
Defined.

Lemma session_page_ok_witness :
  currentPage
    (Handlers.perform Samples.ascii_fold (List.map Samples.ascii_lower)
       Samples.no_date Samples.no_locale
       (ClickDelete (Resolved tt) (Samples.page_of 3)) Scenes.reading)
  = 1%Z.
Proof.
  apply (proj2 (session_page_ok Samples.ascii_fold
                  (List.map Samples.ascii_lower) Samples.no_date
                  Samples.no_locale blank_page (Samples.page_of 3) [])
           (ClickDelete (Resolved tt) (Samples.page_of 3)) Scenes.reading).
  intros e. discriminate.
Defined.

Lemma next_then_prev_witness :
  currentPage
    (Renderer.dispatch Samples.ascii_fold (List.map Samples.ascii_lower)
       Samples.no_date Samples.no_locale (ClickPrev (Samples.page_of 50))
       (Renderer.dispatch Samples.ascii_fold (List.map Samples.ascii_lower)
          Samples.no_date Samples.no_locale (ClickNext (Samples.page_of 50))
          Samples.start))
  = 1%Z.
Proof.
  apply (next_then_prev Samples.ascii_fold (List.map Samples.ascii_lower)
           Samples.no_date Samples.no_locale
           (Samples.page_of 50) (Samples.page_of 50) Samples.start).
  - cbn. lia.
  - reflexivity.
  - reflexivity.
Defined.

End HandlerFacts.

(* ===================================================================== *)
(** * Properties of the search tokens and the snippet                     *)
(* ===================================================================== *)

Module SnippetFacts.
Import JS Renderer.

Lemma wordsFrom_tokens s : forall word,
  forallb (fun c => negb (isSpace c)) word = true ->
  Forall (fun w => w <> [] /\ forallb (fun c => negb (isSpace c)) w = true)
    (wordsFrom word s)
  /\ concat (wordsFrom word s)
     = rev word ++ List.filter (fun c => negb (isSpace c)) s.
Proof.
  assert (Hrev : forall word : jsstring,
             word <> [] ->
             forallb (fun c => negb (isSpace c)) word = true ->
             rev word <> []
             /\ forallb (fun c => negb (isSpace c)) (rev word) = true).
  { intros word Hn Hw. split.
    - intros E. apply (f_equal (@rev _)) in E.
      rewrite rev_involutive in E. contradiction.
    - now rewrite BridgeFacts.forallb_rev. }
  induction s as [|c s IH]; intros word Hw; cbn [wordsFrom List.filter].
  - destruct word as [|x word].
    + split; [constructor|reflexivity].
    + split; [repeat constructor; now apply Hrev|].
      cbn [concat]. reflexivity.
  - destruct (isSpace c) eqn:Hc; cbn [negb].
    + destruct (IH [] eq_refl) as [IH1 IH2].
      destruct word as [|x word]; [split; assumption|].
      split; [constructor; [now apply Hrev|assumption]|].
      cbn [concat]. now rewrite IH2.
    + destruct (IH (c :: word)) as [IH1 IH2].
      { cbn. now rewrite Hc, Hw. }
      split; [assumption|]. rewrite IH2. cbn [rev].
      now rewrite <- app_assoc.
Qed.

Section Tokens.
Variable canonicalize : char -> char.

(** X16. The tokens that [renderList] takes from the search text are the
    runs of its characters that are not white space: no token is empty,
    none holds white space, joined they are the search text without its
    white space, and there is none exactly when the search text is white
    space only. So [highlight] never searches for the empty pattern. *)
Theorem words_are_tokens (search : jsstring) :
  Forall (fun w => w <> [] /\ forallb (fun c => negb (isSpace c)) w = true)
    (words search)
  /\ concat (words search) = List.filter (fun c => negb (isSpace c)) search
  /\ (words search = [] <-> forallb isSpace search = true)
  /\ Forall (fun t => forall out, markAll canonicalize t out
                                  = markFrom canonicalize t 0 out)
       (words search).
Proof.
  destruct (wordsFrom_tokens search [] eq_refl) as [H1 H2]. cbn [rev app] in H2.
  fold (words search) in H1, H2.
  split; [assumption|]. split; [assumption|]. split.
  - split.
    + intros E. rewrite E in H2. cbn in H2. clear H1 E.
      induction search as [|c search IH]; [reflexivity|].
      cbn in *. destruct (isSpace c); [auto|discriminate].
    + intros E.
      assert (F : List.filter (fun c => negb (isSpace c)) search = []).
      { clear H1 H2. induction search as [|c search IH]; [reflexivity|].
        cbn in *. apply andb_prop in E as [-> E]. cbn. auto. }
      rewrite F in H2.
      destruct (words search) as [|w ws]; [reflexivity|].
      apply Forall_cons in H1 as [[Hw _] _].
      cbn in H2. destruct w; [contradiction|discriminate].
  - eapply Forall_impl; [exact H1|].
    intros t [Ht _] out. destruct t; [contradiction|reflexivity].
Qed.

End Tokens.

Lemma slice_length (a b : Z) (s : jsstring) :
  (0 <= a <= b)%Z -> (Z.of_nat (length (slice a b s)) <= b - a)%Z.
Proof.
  intros H. unfold slice. cbv zeta.
  destruct (Z.ltb_spec a 0) as [?|_]; [lia|].
  destruct (Z.ltb_spec b 0) as [?|_]; [lia|].
  rewrite length_take. lia.
Qed.

Lemma escapeChar_length c : (length (escapeChar c) <= 6)%nat.
Proof.
  unfold escapeChar, entity.
  repeat match goal with
         | |- context [?x =? ?y] => destruct (x =? y)
         end; cbn; lia.
Qed.

Lemma escapeHtml_length s : (length (escapeHtml s) <= 6 * length s)%nat.
Proof.
  induction s as [|c s IH]; cbn [escapeHtml flat_map length]; [lia|].
  rewrite length_app. pose proof (escapeChar_length c).
  fold (escapeHtml s). lia.
Qed.

Section Snippet.
Variable canonicalize : char -> char.
Variable toLowerCase : jsstring -> jsstring.

(** X17. The length of a snippet is bounded: with search tokens it is at
    most [maxLen] code units and the two ellipses, without them at most
    six times [maxLen], the longest entity being six characters long. *)
Theorem makeSnippet_length (body : jsstring) (tokens : list jsstring)
    (maxLen : Z) :
  (0 <= maxLen)%Z ->
  (Z.of_nat (length (makeSnippet toLowerCase body tokens maxLen))
   <= match tokens with
      | [] => 6 * maxLen
      | _ :: _ => maxLen + 2
      end)%Z.
Proof.
  intros H. unfold makeSnippet.
  destruct body as [|c body]; [destruct tokens; cbn; lia|].
  destruct tokens as [|t tokens]; cbv zeta.
  - pose proof (escapeHtml_length
                  (slice 0 maxLen (trim (collapseSpaces (c :: body))))) as H1.
    pose proof (slice_length 0 maxLen (trim (collapseSpaces (c :: body)))) as H2.
    lia.
  - set (text := trim (collapseSpaces (c :: body))).
    set (idx := fold_left _ (t :: tokens) (-1)%Z).
    set (start := if (idx >? 20)%Z then (idx - 20)%Z else 0%Z).
    assert (Hs : (0 <= start)%Z).
    { unfold start. destruct (Z.gtb_spec idx 20); lia. }
    pose proof (slice_length start (start + maxLen) text) as H1.
    rewrite !length_app.
    assert (He : forall b : bool, (length (if b then ellipsis else []) <= 1)%nat)
      by (intros []; cbn; lia).
    pose proof (He (start >? 0)%Z).
    pose proof (He (start + maxLen <? Z.of_nat (length text))%Z).
    lia.
Qed.

(** X18. Without search tokens the snippet of a list entry is escaped
    twice, once by [makeSnippet] and once more by [highlight]: an
    ampersand within the first 140 code units of the cleaned body reaches
    the markup as [&amp;amp;]. *)
Theorem untokened_snippet_escaped_twice (m : message) :
  bodySnippetHtml canonicalize toLowerCase [] m
  = escapeHtml
      (escapeHtml
         (slice 0 140 (trim (collapseSpaces (field_or (body_plain m) [])))))
  /\ (forall pre post,
        trim (collapseSpaces (field_or (body_plain m) [])) = pre ++ 38 :: post ->
        (length pre < 140)%nat ->
        exists before after,
          bodySnippetHtml canonicalize toLowerCase [] m
          = before ++ lit "&amp;amp;" ++ after).
Proof.
  assert (E : bodySnippetHtml canonicalize toLowerCase [] m
              = escapeHtml
                  (escapeHtml
                     (slice 0 140
                        (trim (collapseSpaces (field_or (body_plain m) [])))))).
  { unfold bodySnippetHtml, makeSnippet, highlight.
    destruct (field_or (body_plain m) []) as [|c body]; [reflexivity|].
    cbv zeta.
    destruct (escapeHtml (slice 0 140 (trim (collapseSpaces (c :: body)))));
      reflexivity. }
  split; [exact E|].
  intros pre post Ht Hlen. rewrite E, Ht.
  assert (Hs : slice 0 140 (pre ++ 38 :: post)
               = pre ++ 38 :: firstn (139 - length pre) post).
  { unfold slice. cbv zeta.
    change (0 <? 0)%Z with false. change (140 <? 0)%Z with false. cbv iota.
    rewrite (Z.min_l 0) by lia. rewrite Z.sub_0_r.
    change (Z.to_nat 0) with 0%nat. rewrite drop_0.
    rewrite length_app. cbn [length].
    rewrite take_app_ge by lia.
    destruct (Z.to_nat (Z.min 140 (Z.of_nat (length pre + S (length post))))
              - length pre)%nat as [|k] eqn:Hk; [lia|].
    cbn [firstn]. f_equal. f_equal.
    destruct (Nat.le_gt_cases 140 (length pre + S (length post))).
    - f_equal. lia.
    - rewrite !take_ge by lia. reflexivity. }
  rewrite Hs.
  exists (escapeHtml (escapeHtml pre)),
    (escapeHtml (escapeHtml (firstn (139 - length pre) post))).
  change (pre ++ 38 :: firstn (139 - length pre) post)
    with (pre ++ [38] ++ firstn (139 - length pre) post).
  now rewrite !RendererFacts.escapeHtml_app.
Qed.

End Snippet.

Lemma indexOfFrom_range p s : forall i,
  indexOfFrom p s i = (-1)%Z \/ (i <= indexOfFrom p s i)%Z.
Proof.
  induction s as [|c s IH]; intros i; cbn [indexOfFrom].
  - destruct (startsWith p []); [right; lia|now left].
  - destruct (startsWith p (c :: s)); [right; lia|].
    destruct (IH (i + 1)%Z) as [H|H]; [now left|right; lia].
Qed.

(** The loop that keeps the least index that is not [-1]. *)
Lemma least_index (ix : jsstring -> Z) (tokens : list jsstring) :
  (forall u, ix u = (-1)%Z \/ (0 <= ix u)%Z) ->
  forall acc, acc = (-1)%Z \/ (0 <= acc)%Z ->
  let r := fold_left
             (fun idx t =>
                if negb (ix t =? -1)%Z && ((idx =? -1)%Z || (ix t <? idx)%Z)
                then ix t else idx)
             tokens acc in
  (r = (-1)%Z \/ (0 <= r)%Z)
  /\ (r = (-1)%Z <-> acc = (-1)%Z /\ forall u, In u tokens -> ix u = (-1)%Z)
  /\ (r <> (-1)%Z ->
      (r = acc \/ exists u, In u tokens /\ ix u = r)
      /\ (acc = (-1)%Z \/ (r <= acc)%Z)
      /\ forall u, In u tokens -> ix u = (-1)%Z \/ (r <= ix u)%Z).
Proof.
  intros Hix. induction tokens as [|t tokens IH]; intros acc Hacc.
  - cbn. split; [assumption|]. split; [|intros H; repeat split; auto].
    + split; [intros ->; split; [reflexivity|intros u []]|tauto].
    + right. lia.
    + intros u [].
  - cbn [fold_left].
    set (acc' := if negb (ix t =? -1)%Z && ((acc =? -1)%Z || (ix t <? acc)%Z)
                 then ix t else acc).
    assert (Hacc' : acc' = (-1)%Z \/ (0 <= acc')%Z).
    { unfold acc'. destruct (negb _ && _); [apply Hix|assumption]. }
    assert (Hstep : (acc' = (-1)%Z <-> acc = (-1)%Z /\ ix t = (-1)%Z)
                    /\ (acc' <> (-1)%Z ->
                        (acc' = acc \/ ix t = acc')
                        /\ (acc = (-1)%Z \/ (acc' <= acc)%Z)
                        /\ (ix t = (-1)%Z \/ (acc' <= ix t)%Z))).
    { unfold acc'. destruct (Hix t) as [Ht|Ht], Hacc as [Ha|Ha];
        destruct (Z.eqb_spec (ix t) (-1)), (Z.eqb_spec acc (-1)),
          (Z.ltb_spec (ix t) acc); cbn; lia. }
    destruct Hstep as [S1 S2].
    destruct (IH acc' Hacc') as (R0 & R1 & R2). cbv zeta in *.
    split; [assumption|]. split.
    + rewrite R1, S1. split.
      * intros [[Ha Ht] Hall]. split; [assumption|].
        intros u [<-|Hu]; auto.
      * intros [Ha Hall]. split; [split; [assumption|apply Hall; now left]|].
        intros u Hu. apply Hall. now right.
    + intros Hr. destruct (R2 Hr) as (A1 & A2 & A3).
      destruct (Z.eq_dec acc' (-1)%Z) as [E|Hne].
      * destruct (proj1 S1 E) as [Ha Ht].
        split; [|split; [now left|]].
        -- destruct A1 as [A1|(u & Hu & Eu)]; [congruence|].
           right. exists u. split; [now right|assumption].
        -- intros u [<-|Hu]; [now left|auto].
      * destruct (S2 Hne) as (B1 & B2 & B3).
        destruct A2 as [A2|A2]; [contradiction|].
        split; [|split].
        -- destruct A1 as [A1|(u & Hu & Eu)].
           ++ rewrite A1. destruct B1 as [B1|B1]; [left; assumption|].
              right. exists t. split; [now left|assumption].
           ++ right. exists u. split; [now right|assumption].
        -- destruct B2; [now left|right; lia].
        -- intros u [<-|Hu]; [destruct B3; [now left|right; lia]|auto].
Qed.

Section Window.
Variable toLowerCase : jsstring -> jsstring.

(** X23. With search tokens, [makeSnippet] cuts its window out of the
    cleaned body around the earliest place at which any token occurs,
    ignoring case: the loop ends with the least index at which one of the
    tokens is found, or with [-1] exactly when none is found; the window
    starts 20 code units before that index, or at the start of the text
    when the index is at most 20, and an ellipsis marks each side on which
    text was cut off. *)
Theorem snippet_window (c : char) (body : jsstring) (t : jsstring)
    (tokens : list jsstring) (maxLen : Z) :
  let text := trim (collapseSpaces (c :: body)) in
  let ix u := indexOf (toLowerCase u) (toLowerCase text) in
  let idx := SnippetLoop.firstMatch toLowerCase text (t :: tokens) in
  let start := Z.max 0 (idx - 20) in
  makeSnippet toLowerCase (c :: body) (t :: tokens) maxLen
  = (if (0 <? start)%Z then ellipsis else [])
      ++ slice start (start + maxLen) text
      ++ (if (start + maxLen <? Z.of_nat (length text))%Z then ellipsis else [])
  /\ (idx = (-1)%Z <-> forall u, In u (t :: tokens) -> ix u = (-1)%Z)
  /\ (idx <> (-1)%Z ->
      (0 <= idx)%Z
      /\ (exists u, In u (t :: tokens) /\ ix u = idx)
      /\ forall u, In u (t :: tokens) -> ix u = (-1)%Z \/ (idx <= ix u)%Z).
Proof.
  cbv zeta.
  set (text := trim (collapseSpaces (c :: body))).
  set (ix := fun u => indexOf (toLowerCase u) (toLowerCase text)).
  assert (Hix : forall u, ix u = (-1)%Z \/ (0 <= ix u)%Z)
    by (intros u; apply indexOfFrom_range).
  destruct (least_index ix (t :: tokens) Hix (-1)%Z (or_introl eq_refl))
    as (R0 & R1 & R2).
  cbv zeta in R0, R1, R2.
  change (fold_left _ (t :: tokens) (-1)%Z)
    with (SnippetLoop.firstMatch toLowerCase text (t :: tokens)) in R0, R1, R2.
  set (idx := SnippetLoop.firstMatch toLowerCase text (t :: tokens)) in *.
  split; [|split].
  - unfold makeSnippet. cbv zeta. fold text.
    change (fold_left _ (t :: tokens) (-1)%Z) with idx.
    replace (if (idx >? 20)%Z then (idx - 20)%Z else 0%Z)
      with (Z.max 0 (idx - 20)) by (destruct (Z.gtb_spec idx 20); lia).
    rewrite Z.gtb_ltb. reflexivity.
  - rewrite R1. tauto.
  - intros Hne. destruct (R2 Hne) as (A1 & _ & A3).
    split; [destruct R0; [contradiction|assumption]|].
    split; [|assumption].
    destruct A1 as [A1|A1]; [contradiction|assumption].
Qed.

End Window.

Lemma snippet_window_witness :
  (0 <= SnippetLoop.firstMatch (List.map Samples.ascii_lower)
          (trim (collapseSpaces (lit "say  hello & goodbye"))) [lit "HELLO"])%Z.
Proof.
  apply (proj2 (proj2 (snippet_window (List.map Samples.ascii_lower)
                         115 (lit "ay  hello & goodbye") (lit "HELLO") [] 140))).
  vm_compute. discriminate.
Defined.

Lemma makeSnippet_length_witness :
  (Z.of_nat
     (length (makeSnippet (List.map Samples.ascii_lower)
                (lit "say hello & goodbye") [lit "hello"] 140))
   <= 142)%Z.
Proof.
  apply (makeSnippet_length (List.map Samples.ascii_lower)
           (lit "say hello & goodbye") [lit "hello"] 140).
  lia.
Defined.

Lemma untokened_snippet_escaped_twice_witness :
  exists before after,
    bodySnippetHtml Samples.ascii_fold (List.map Samples.ascii_lower) []
      Samples.plain_mail
    = before ++ lit "&amp;amp;" ++ after.
Proof.
  apply (proj2 (untokened_snippet_escaped_twice Samples.ascii_fold
                  (List.map Samples.ascii_lower) Samples.plain_mail)
           (lit "say hello ") (lit " goodbye")).
  - reflexivity.
  - cbn. lia.
Defined.

End SnippetFacts.

(* ===================================================================== *)
(** * Properties of the theme setting                                     *)
(* ===================================================================== *)

Module SettingsFacts.
Import JS Settings.

(** X19. The change handler of the checkbox applies the chosen theme to
    the page whether or not the storage works: the [data-theme] attribute
    is set to [dark] when the box is checked and removed otherwise. The
    choice survives a reload when the storage works: the page is then set
    up as the change handler left it. When the storage is unavailable the
    store stays unavailable and a reload starts in the light theme. After
    a load the attribute is [dark] exactly when the checkbox is checked,
    and that is the case exactly when the stored theme is the text
    [dark]. *)
Theorem theme_survives_reload (checked : bool) (items : gmap string jsstring) :
  (forall store,
      fst (change checked store)
      = {| dataTheme := if checked then Some (lit "dark") else None;
           darkChecked := checked |})
  /\ snd (change checked (Some items))
     = Some (<[ "theme" := if checked then lit "dark" else lit "light" ]> items)
  /\ snd (change checked None) = None
  /\ load (snd (change checked (Some items))) = fst (change checked (Some items))
  /\ load None = {| dataTheme := None; darkChecked := false |}
  /\ (forall store,
        dataTheme (load store)
        = if darkChecked (load store) then Some (lit "dark") else None)
  /\ (darkChecked (load (Some items)) = true
      <-> items !! "theme" = Some (lit "dark")).
Proof.
  split; [|split; [|split; [|split; [|split; [|split]]]]].
  - intros store. destruct checked, store; reflexivity.
  - destruct checked; reflexivity.
  - reflexivity.
  - unfold load, change, savedTheme, prop. cbn [snd fst].
    rewrite lookup_insert_eq. destruct checked; reflexivity.
  - reflexivity.
  - intros store. unfold load, applyTheme. cbn.
    destruct (isDark (savedTheme store)); reflexivity.
  - unfold load, savedTheme, prop, isDark. cbn [darkChecked].
    assert (Hs : forall a b, same a b = true <-> a = b).
    { induction a as [|x a IH]; intros [|y b]; cbn;
        try (split; [discriminate|discriminate]); [tauto|].
      rewrite andb_true_iff, N.eqb_eq, IH. split; [intros [-> ->]|intros [= -> ->]];
        auto. }
    unfold or_else.
    destruct (items !! "theme") as [[|c t]|]; cbn [truthy ToString].
    + split; [intros H; vm_compute in H; discriminate|discriminate].
    + rewrite Hs. split; congruence.
    + split; [intros H; vm_compute in H; discriminate|discriminate].
Qed.

End SettingsFacts.
